(** * go-bitflow: a shallow embedding of the marshalling, endpoint and batch code

    The development follows the Go sources package by package. The
    definitions come first:
    - [GoStrings]: the few functions of Go's [strings] and [bytes] packages
      the code calls;
    - [Binary]: [BinaryMarshaller] (WriteSample, ReadSampleData, ParseSample);
    - [Batch]: [BatchProcessor] (Sample, waitAndExecuteFlush, executeFlush,
      executeSteps), and the schedules of its two goroutines;
    - [Endpoints]: the endpoint factory (ParseUrlEndpointDescription,
      GuessEndpointType, CreateInput);
    - [Variance]: the batch variance filter (NewMetricVarianceFilter);
    - [Sorter]: [SampleSorter] and [SampleSlice.Less];
    - [TCP]: the active TCP sink (Header, Sample, Close);
    - [PCA]: [PCAProjection.Sample] and [SetSampleValues];
    - the [...Data] modules: concrete headers, samples and environments.
    The properties follow, one group of modules per package.

    Go values are modelled as the code has them: [string] as [string],
    [[]byte] as [list byte], [int64]/[uint64] as [Z] with the conversions
    written out, [float64] either by its bit pattern (binary marshaller) or as
    a primitive IEEE-754 binary64 float (variance filter), [map[string]string]
    as [gmap string string], a nil-able pointer as [option]. *)

From Stdlib Require Import ZArith Floats Uint63 Ascii.
From stdpp Require Import base option list strings gmap sorting.

Local Open Scope Z_scope.

(** ** Results of fallible Go functions: a value or an error *)

Inductive result (E A : Type) : Type :=
| Ok (a : A)
| Err (e : E).
Arguments Ok {E A} a.
Arguments Err {E A} e.

Definition bind {E A B} (r : result E A) (k : A → result E B) : result E B :=
  match r with
  | Ok a => k a
  | Err e => Err e
  end.

Definition is_ok {E A} (r : result E A) : bool :=
  match r with Ok _ => true | Err _ => false end.

Definition is_err {E A} (r : result E A) : bool := negb (is_ok r).

#[global] Instance result_ret {E} : MRet (result E) := λ A a, Ok a.
#[global] Instance result_bind {E} : MBind (result E) := λ A B k r, bind r k.

(** ** Go's [strings] and [bytes] functions used by the code *)

Module GoStrings.

Local Open Scope string_scope.

(** [strings.HasPrefix] together with the remainder: [strip_prefix p s]
    is [Some r] when [s = p ++ r]. *)
Fixpoint strip_prefix (p s : string) : option string :=
  match p with
  | "" => Some s
  | String a p' =>
      match s with
      | "" => None
      | String b s' => if Ascii.eqb a b then strip_prefix p' s' else None
      end
  end.

(** [strings.SplitN(s, sep, 2)] cuts at the first occurrence of [sep]:
    [Some (before, after)], or [None] when [sep] does not occur (Go then
    returns the one-element slice [[s]]). *)
Fixpoint cut (sep s : string) : option (string * string) :=
  match strip_prefix sep s with
  | Some rest => Some ("", rest)
  | None =>
      match s with
      | "" => None
      | String a s' =>
          match cut sep s' with
          | Some (x, y) => Some (String a x, y)
          | None => None
          end
      end
  end.

(** [strings.Contains(s, sub)] *)
Definition Contains (s sub : string) : bool :=
  match cut sub s with Some _ => true | None => false end.

(** [strings.Split(s, sep)] for a one-character separator: the pieces
    between the occurrences of [sep]; [Split("", sep)] is [[""]]. *)
Fixpoint Split (s : string) (sep : ascii) : list string :=
  match s with
  | "" => [""]
  | String a s' =>
      if Ascii.eqb a sep then "" :: Split s' sep
      else match Split s' sep with
           | h :: t => String a h :: t
           | [] => [String a ""]
           end
  end.

(** [strings.Join(l, sep)] for a one-character separator. *)
Fixpoint Join (l : list string) (sep : ascii) : string :=
  match l with
  | [] => ""
  | [x] => x
  | x :: l' => x ++ String sep (Join l' sep)
  end.

(** [strings.HasSuffix(s, suffix)] *)
Definition HasSuffix (s suffix : string) : bool :=
  let n := String.length s in
  let k := String.length suffix in
  (k <=? n)%nat && String.eqb (String.substring (n - k) k s) suffix.

(** The characters of a string none of which is [c]. *)
Definition free_of (c : ascii) (s : string) : bool :=
  forallb (λ a, negb (Ascii.eqb a c)) (String.list_ascii_of_string s).

(** [bytes.IndexByte(b, c)]: the index of the first [c] in [b], [None] for
    Go's -1. *)
Fixpoint IndexByte (b : list Byte.byte) (c : Byte.byte) : option nat :=
  match b with
  | [] => None
  | x :: b' => if Byte.eqb x c then Some 0%nat else S <$> IndexByte b' c
  end.

End GoStrings.

(** ** Samples and headers (package [sample] / [bitflow])

    A sample is a timestamp, a value vector and a tag map; a header is the
    ordered field names and the [HasTags] flag. The record is polymorphic in
    the representation [V] of a [float64] value. [Time] is the [time.Time] of
    the sample as its [UnixNano()] count, an [int64]. *)

Record Sample (V : Type) : Type := mkSample {
  Time : Z;
  Values : list V;
  Tags : gmap string string;
}.
Arguments mkSample {V} _ _ _.
Arguments Time {V} _.
Arguments Values {V} _.
Arguments Tags {V} _.

Record Header : Type := mkHeader {
  Fields : list string;
  HasTags : bool;
}.

#[global] Instance Header_eq_dec : EqDecision Header.
Proof. solve_decision. Defined.

(** [Sample.Tag(name)]: the value of the tag, the empty string when the tag
    is not set (a Go map lookup of a missing key). *)
Definition Tag {V} (s : Sample V) (name : string) : string :=
  default ""%string (Tags s !! name).

(** * The binary marshaller (package [sample], [BinaryMarshaller]) *)

Module Binary.

Import GoStrings.

Definition timeBytes : nat := 8.
Definition valBytes : nat := 8.
Definition binary_separator : Byte.byte := Byte.x0a.
Definition tag_separator : ascii := " "%char.
Definition tag_equals : ascii := "="%char.
Definition newline : ascii := "010"%char.

(** A [float64] value seen through [math.Float64bits]: its 64-bit pattern. *)
Abbreviation Value := Z (only parsing).

Definition is_uint64 (v : Z) : Prop := 0 ≤ v < 2 ^ 64.
Definition is_int64 (v : Z) : Prop := - 2 ^ 63 ≤ v < 2 ^ 63.

(** Go's conversions [uint64(x)] of an [int64] and [int64(x)] of a [uint64]. *)
Definition uint64_of_int64 (x : Z) : Z := x mod 2 ^ 64.
Definition int64_of_uint64 (x : Z) : Z := if x <? 2 ^ 63 then x else x - 2 ^ 64.

(** [byte(x)] of an unsigned integer keeps the low eight bits. *)
Definition byte_of_Z (x : Z) : Byte.byte :=
  default Byte.x00 (Byte.of_N (Z.to_N (x mod 2 ^ 8))).
Definition Z_of_byte (b : Byte.byte) : Z := Z.of_N (Byte.to_N b).

(** [binary.BigEndian.PutUint64(b, v)] on a fresh eight-byte slice. *)
Definition PutUint64 (v : Z) : list Byte.byte :=
  [ byte_of_Z (v ≫ 56); byte_of_Z (v ≫ 48); byte_of_Z (v ≫ 40);
    byte_of_Z (v ≫ 32); byte_of_Z (v ≫ 24); byte_of_Z (v ≫ 16);
    byte_of_Z (v ≫ 8); byte_of_Z v ].

(** [binary.BigEndian.Uint64(b)]; Go panics on a slice shorter than eight
    bytes, which the callers below exclude by their length checks (the
    model reads the missing bytes as zero). *)
Definition Uint64 (b : list Byte.byte) : Z :=
  let at_ (i : nat) := Z_of_byte (default Byte.x00 (b !! i)) in
  Z.lor (at_ 7%nat)
    (Z.lor (at_ 6%nat ≪ 8)
       (Z.lor (at_ 5%nat ≪ 16)
          (Z.lor (at_ 4%nat ≪ 24)
             (Z.lor (at_ 3%nat ≪ 32)
                (Z.lor (at_ 2%nat ≪ 40)
                   (Z.lor (at_ 1%nat ≪ 48) (at_ 0%nat ≪ 56))))))).

(** Modelled from the spec: [Sample.TagString] is not part of the sources.
    The spec: tags are serialised as [k1=v1 k2=v2 …] with the keys in
    ascending lexical order; the empty string stands for zero tags. *)
Definition key_le (a b : string * string) : Prop :=
  String.leb a.1 b.1 = true.

#[global] Instance key_le_dec a b : Decision (key_le a b).
Proof. unfold key_le. apply _. Defined.

Definition SortedTags (tags : gmap string string) : list (string * string) :=
  merge_sort key_le (map_to_list tags).

Definition tag_field (kv : string * string) : string :=
  (kv.1 ++ String tag_equals kv.2)%string.

Definition TagString (tags : gmap string string) : string :=
  Join (tag_field <$> SortedTags tags) tag_separator.

(** Modelled from the spec: [Sample.ParseTagString] is not part of the
    sources. The spec: parsing is the inverse of the serialisation; the
    empty tag string is legal and represents zero tags; a field without the
    key-value separator is a malformed tag string. *)
Definition parse_tag (field : string) : option (string * string) :=
  cut (String tag_equals "") field.

Definition ParseTagString (s : string) : option (gmap string string) :=
  if String.eqb s "" then Some ∅
  else list_to_map <$> mapM parse_tag (Split s tag_separator).

(** Errors of the binary reader. *)
Inductive error : Type :=
| EOF                  (* io.EOF *)
| ErrUnexpectedEOF     (* io.ErrUnexpectedEOF *)
| ErrTooShort          (* "Data slice not long enough" *)
| ErrNoSeparator       (* "Binary sample data did not contain tag separator" *)
| ErrWrongLen          (* "Data slice wrong len" *)
| ErrBadTag.           (* the error of ParseTagString *)

(** [WriteSample] on a writer that accepts every write (a [bytes.Buffer]):
    the bytes appended to it. *)
Definition WriteSample (sample : Sample Value) (header : Header) : list Byte.byte :=
  (* Time as big-endian uint64 nanoseconds since Unix epoch *)
  PutUint64 (uint64_of_int64 (Time sample))
  (* Tags *)
  ++ (if HasTags header
      then String.list_byte_of_string (TagString (Tags sample)) ++ [binary_separator]
      else [])
  (* Values as big-endian double precision *)
  ++ concat (PutUint64 <$> Values sample).

(** The [*bufio.Reader]: the bytes still to be read. [io.ReadFull] fills a
    buffer of [n] bytes or fails, with [io.EOF] when nothing could be read
    and [io.ErrUnexpectedEOF] after a partial read. *)
Definition Reader : Type := list Byte.byte.

Definition ReadFull (input : Reader) (n : nat) : result error (list Byte.byte) * Reader :=
  if (n <=? length input)%nat then (Ok (take n input), drop n input)
  else if (length input =? 0)%nat then (Err EOF, [])
  else (Err ErrUnexpectedEOF, []).

(** [bufio.Reader.ReadBytes(delim)]: the bytes up to and including the
    first [delim]; [io.EOF] when the input ends before it. *)
Definition ReadBytes (input : Reader) (delim : Byte.byte) : result error (list Byte.byte) * Reader :=
  match IndexByte input delim with
  | Some i => (Ok (take (S i) input), drop (S i) input)
  | None => (Err EOF, [])
  end.

Definition unexpectedEOF (err : error) : error :=
  match err with
  | EOF => ErrUnexpectedEOF
  | e => e
  end.

Definition ReadSampleData (header : Header) (input : Reader)
  : result error (list Byte.byte) * Reader :=
  let valuelen := (valBytes * length (Fields header))%nat in
  let minlen := (timeBytes + valuelen)%nat in
  match ReadFull input minlen with (* Can be io.EOF *)
  | (Err err, input) => (Err err, input)
  | (Ok data, input) =>
      if negb (HasTags header) then (Ok data, input)
      else
        match IndexByte (drop timeBytes data) binary_separator with
        | Some index =>
            match ReadFull input (index + 1) with
            | (Ok rest, input) => (Ok (data ++ rest), input)
            | (Err err, input) => (Err (unexpectedEOF err), input)
            end
        | None =>
            match ReadBytes input binary_separator with
            | (Err err, input) => (Err (unexpectedEOF err), input)
            | (Ok tagRest, input) =>
                match ReadFull input valuelen with
                | (Err err, input) => (Err (unexpectedEOF err), input)
                | (Ok vals, input) => (Ok (data ++ tagRest ++ vals), input)
                end
            end
        end
  end.

(** The value loop of [ParseSample]: [n] big-endian doubles. *)
Fixpoint parse_values (n : nat) (data : list Byte.byte) : list Value :=
  match n with
  | O => []
  | S n' => Uint64 (take valBytes data) :: parse_values n' (drop valBytes data)
  end.

Definition ParseSample (header : Header) (data : list Byte.byte)
  : result error (Sample Value) :=
  (* Required size *)
  let size := (timeBytes + length (Fields header) * valBytes)%nat in
  if (length data <? size)%nat then Err ErrTooShort
  else
    (* Time *)
    let timeVal := Uint64 (take timeBytes data) in
    let data := drop timeBytes data in
    let time := int64_of_uint64 timeVal in
    (* Tags *)
    if HasTags header then
      match IndexByte data binary_separator with
      | None => Err ErrNoSeparator
      | Some index =>
          let size := (index + 1 + length (Fields header) * valBytes)%nat in
          if negb (length data =? size)%nat then Err ErrWrongLen
          else
            match ParseTagString (String.string_of_list_byte (take index data)) with
            | None => Err ErrBadTag
            | Some tags =>
                let data := drop (index + 1) data in
                (* Values *)
                Ok (mkSample time (parse_values (length (Fields header)) data) tags)
            end
      end
    else
      Ok (mkSample time (parse_values (length (Fields header)) data) ∅).

(** Tags free of the separator characters: no key and no value contains
    the tag separator (space), the key-value separator ([=]) or the
    separator of the binary format (newline). *)
Definition clean (s : string) : bool :=
  free_of tag_separator s && free_of tag_equals s && free_of newline s.

Definition clean_tags (tags : gmap string string) : bool :=
  forallb (λ kv, clean kv.1 && clean kv.2) (map_to_list tags).

(** What [ParseSample] returns on the frame written for [s] under [h]. *)
Definition read_back (h : Header) (s : Sample Value) : Sample Value :=
  mkSample (Time s) (Values s) (if HasTags h then Tags s else ∅).

End Binary.

(** * The batch processor (package [pipeline], [BatchProcessor])

    [Sample()] runs on the caller's goroutine and [waitAndExecuteFlush] on
    the flush goroutine, both on the one [BatchProcessor]. The flush
    goroutine holds the lock [flushTrigger.L] through [waitAndExecuteFlush]
    (its waits release it); [Sample()] takes the lock only inside
    [triggerFlush], and reads and writes [samples], [lastSample] and
    [lastAutoFlushError] without it.

    A function of the struct is a computation [M A]: the code of the
    function as one goroutine runs it from its first statement to its last,
    on the struct it finds; it returns a value and the new struct, or panics.
    [triggerFlush] contains the hand-shake with the flush goroutine, which
    runs the flush of one [waitAndExecuteFlush] while the caller waits. What
    the two goroutines do when one runs in the middle of a function of the
    other is the subject of the last part of the module: there the automatic
    flush and [Sample()] are cut in two, and a schedule lists whose part
    runs next. *)

Module Batch.

Inductive outcome (A : Type) : Type :=
| Returns (a : A)
| Panics.            (* a runtime panic: nil pointer dereference *)
Arguments Returns {A} a.
Arguments Panics {A}.

Section BatchProcessor.

Context {V : Type}.

Inductive error : Type :=
| StepFailed (msg : string)          (* an error returned by a batch step *)
| SinkFailed (msg : string)          (* an error of the downstream Sample() *)
| ErrNilHeader (n : nat)             (* "Cannot flush n samples because nil-header
                                         was returned by last batch processing step" *)
| ErrFlushingBatch (e : error)       (* "Error flushing batch: e" *)
| ErrPreviousAutoFlush (e : error).  (* "Error during previous auto-flush: e" *)

(** [BatchProcessingStep]: [ProcessBatch] returns a header pointer (nil is
    [None]), the samples and an error (nil is [None], otherwise its
    message). *)
Record BatchProcessingStep : Type := mkStep {
  ProcessBatch : Header → list (Sample V) → option Header * list (Sample V) * option string;
  String : string;
}.

(** The lines the processor logs. *)
Inductive LogEvent : Type :=
| LogExecutingSteps (n : nat)
| LogExecuting (step : string) (nsamples nfields : nat)
| LogCannotExecute (remaining nfields : nat)
| LogFlushing (nsamples nfields : nat)
| LogAutoFlushError (e : error).

(** The configuration of the processor: its steps, [FlushTimeout] (a
    duration in nanoseconds), [FlushTag], and the [Sample] method of the
    outgoing sink that [NoopProcessor.Sample] forwards to. *)
Variable Steps : list BatchProcessingStep.
Variable FlushTimeout : Z.
Variable FlushTag : string.
Variable OutgoingSink : Sample V → Header → option string.

(** The mutable fields of the struct, with the samples handed downstream
    ([emitted]) and the log lines written ([logged]). [lastSample] is
    [None] for the zero [time.Time]. *)
Record BatchProcessor : Type := mkBatchProcessor {
  LastHeader : option Header;            (* checker.LastHeader *)
  samples : list (Sample V);
  shutdown : bool;
  lastAutoFlushError : option error;
  lastSample : option Z;
  lastFlushTag : string;
  flushHeader : option Header;
  flushError : option error;
  emitted : list (Sample V * Header);
  logged : list LogEvent;
}.

Definition M (A : Type) : Type := BatchProcessor → outcome (A * BatchProcessor).

Definition ret {A} (a : A) : M A := λ p, Returns (a, p).

Definition bindM {A B} (m : M A) (k : A → M B) : M B :=
  λ p, match m p with
       | Returns (a, p') => k a p'
       | Panics => Panics
       end.

Definition get : M BatchProcessor := λ p, Returns (p, p).
Definition modify (f : BatchProcessor → BatchProcessor) : M unit :=
  λ p, Returns (tt, f p).
Definition panic {A} : M A := λ _, Panics.

#[local] Notation "'let*' x := m 'in' k" := (bindM m (λ x, k))
  (at level 10, x name, m at level 100, k at level 200, only parsing).
#[local] Notation "'do' m 'then' k" := (bindM m (λ _, k))
  (at level 10, m at level 100, k at level 200, only parsing).

Definition set_LastHeader (h : option Header) (p : BatchProcessor) :=
  mkBatchProcessor h (samples p) (shutdown p) (lastAutoFlushError p) (lastSample p)
    (lastFlushTag p) (flushHeader p) (flushError p) (emitted p) (logged p).
Definition set_samples (s : list (Sample V)) (p : BatchProcessor) :=
  mkBatchProcessor (LastHeader p) s (shutdown p) (lastAutoFlushError p) (lastSample p)
    (lastFlushTag p) (flushHeader p) (flushError p) (emitted p) (logged p).
Definition set_shutdown (b : bool) (p : BatchProcessor) :=
  mkBatchProcessor (LastHeader p) (samples p) b (lastAutoFlushError p) (lastSample p)
    (lastFlushTag p) (flushHeader p) (flushError p) (emitted p) (logged p).
Definition set_lastAutoFlushError (e : option error) (p : BatchProcessor) :=
  mkBatchProcessor (LastHeader p) (samples p) (shutdown p) e (lastSample p)
    (lastFlushTag p) (flushHeader p) (flushError p) (emitted p) (logged p).
Definition set_lastSample (t : option Z) (p : BatchProcessor) :=
  mkBatchProcessor (LastHeader p) (samples p) (shutdown p) (lastAutoFlushError p) t
    (lastFlushTag p) (flushHeader p) (flushError p) (emitted p) (logged p).
Definition set_lastFlushTag (v : string) (p : BatchProcessor) :=
  mkBatchProcessor (LastHeader p) (samples p) (shutdown p) (lastAutoFlushError p)
    (lastSample p) v (flushHeader p) (flushError p) (emitted p) (logged p).
Definition set_flushHeader (h : option Header) (p : BatchProcessor) :=
  mkBatchProcessor (LastHeader p) (samples p) (shutdown p) (lastAutoFlushError p)
    (lastSample p) (lastFlushTag p) h (flushError p) (emitted p) (logged p).
Definition set_flushError (e : option error) (p : BatchProcessor) :=
  mkBatchProcessor (LastHeader p) (samples p) (shutdown p) (lastAutoFlushError p)
    (lastSample p) (lastFlushTag p) (flushHeader p) e (emitted p) (logged p).
Definition emit (s : Sample V) (h : Header) (p : BatchProcessor) :=
  mkBatchProcessor (LastHeader p) (samples p) (shutdown p) (lastAutoFlushError p)
    (lastSample p) (lastFlushTag p) (flushHeader p) (flushError p)
    (emitted p ++ [(s, h)]) (logged p).
Definition log (e : LogEvent) (p : BatchProcessor) :=
  mkBatchProcessor (LastHeader p) (samples p) (shutdown p) (lastAutoFlushError p)
    (lastSample p) (lastFlushTag p) (flushHeader p) (flushError p)
    (emitted p) (logged p ++ [e]).

(** The loop of [executeSteps] over the steps still to run. It reads no
    field of the processor: it returns its results and the lines it logs, or
    panics. [len(header.Fields)] in a log line dereferences the header
    pointer, a panic when a step has returned a nil header. *)
Fixpoint executeSteps_loop (steps : list BatchProcessingStep)
    (samples : list (Sample V)) (header : option Header)
  : outcome ((list (Sample V) * option Header * option error) * list LogEvent) :=
  match steps with
  | [] => Returns ((samples, header, None), [])
  | step :: rest =>
      match header with
      | None => Panics                  (* len(header.Fields) *)
      | Some h =>
          if (length samples =? 0)%nat then
            (* break *)
            Returns ((samples, header, None),
                     [LogCannotExecute (length steps) (length (Fields h))])
          else
            let ev := LogExecuting (String step) (length samples) (length (Fields h)) in
            let '(header', samples', err) := ProcessBatch step h samples in
            match err with
            | Some msg => Returns (([], None, Some (StepFailed msg)), [ev])
            | None =>
                match executeSteps_loop rest samples' header' with
                | Returns (r, evs) => Returns (r, ev :: evs)
                | Panics => Panics
                end
            end
      end
  end.

(** A computation that only logs, run on the processor. *)
Definition logging {A} (m : outcome (A * list LogEvent)) : M A :=
  λ p, match m with
       | Returns (a, evs) => Returns (a, foldl (λ p ev, log ev p) p evs)
       | Panics => Panics
       end.

Definition executeSteps (samples : list (Sample V)) (header : option Header)
  : M (list (Sample V) * option Header * option error) :=
  if (0 <? length Steps)%nat then
    do modify (log (LogExecutingSteps (length Steps))) then
    logging (executeSteps_loop Steps samples header)
  else ret (samples, header, None).

(** The loop of [executeFlush] that hands the samples downstream. *)
Fixpoint forward (samples : list (Sample V)) (header : Header) : M (option error) :=
  match samples with
  | [] => ret None
  | sample :: rest =>
      match OutgoingSink sample header with
      | Some msg => ret (Some (ErrFlushingBatch (SinkFailed msg)))
      | None => do modify (emit sample header) then forward rest header
      end
  end.

Definition executeFlush (header : option Header) : M (option error) :=
  let* p := get in
  let samples := samples p in
  if (length samples =? 0)%nat || negb (bool_decide (is_Some header)) then ret None
  else
    do modify (set_samples []) then   (* Allow garbage collection *)
    let* r := executeSteps samples header in
    let '(samples, header, err) := r in
    match err with
    | Some e => ret (Some e)
    | None =>
        match header with
        | None => ret (Some (ErrNilHeader (length samples)))
        | Some h =>
            do modify (log (LogFlushing (length samples) (length (Fields h)))) then
            forward samples h
        end
    end.

Definition flushTimedOut (now : Z) (p : BatchProcessor) : bool :=
  match lastSample p with
  | None => false
  | Some t => if FlushTimeout <=? 0 then false else FlushTimeout <=? now - t
  end.

(** One wake-up of the flush goroutine at time [now]: [None] while the
    wait loop keeps waiting, otherwise the flush and the bool the function
    returns. [done_at] is the time after an automatic flush. *)
Definition waitAndExecuteFlush (now done_at : Z) : M (option bool) :=
  let* p := get in
  let idle := negb (bool_decide (is_Some (flushHeader p))) && negb (shutdown p) in
  if idle && negb (flushTimedOut now p) then ret None
  else
    do (if idle then
          (* Automatic flush after timeout *)
          let* err := executeFlush (LastHeader p) in
          do (match err with
              | Some e =>
                  do modify (log (LogAutoFlushError e)) then
                  modify (set_lastAutoFlushError (Some (ErrPreviousAutoFlush e)))
              | None => ret tt
              end) then
          modify (set_lastSample (Some done_at))
        else
          let* err := executeFlush (flushHeader p) in
          modify (set_flushError err)) then
    do modify (set_flushHeader None) then
    let* p := get in
    ret (Some (negb (shutdown p))).

(** [triggerFlush]: the caller publishes the header, and while
    [flushHeader] is not nil waits for the flush goroutine, which runs the
    flush of one [waitAndExecuteFlush]; then it takes the flush error. *)
Definition triggerFlush (header : option Header) (sd : bool) (now : Z)
  : M (option error) :=
  do modify (set_flushHeader header) then
  do modify (set_shutdown sd) then
  do (match header with
      | Some _ => waitAndExecuteFlush now now
      | None => ret None
      end) then
  let* p := get in
  do modify (set_flushError None) then
  ret (flushError p).

(** Modelled from the spec: [HeaderChecker.InitializedHeaderChanged] is not
    part of the sources. The spec: a flush is triggered when the incoming
    header differs from the current epoch; the first header starts the first
    epoch and triggers nothing. The checker remembers the incoming header. *)
Definition InitializedHeaderChanged (header : Header) : M bool :=
  let* p := get in
  do modify (set_LastHeader (Some header)) then
  match LastHeader p with
  | None => ret false
  | Some last => ret (negb (bool_decide (header = last)))
  end.

(** [BatchProcessor.Sample] called at time [now], from its first statement
    to its last: the flush goroutine runs in between only for the hand-shake
    of [triggerFlush]. *)
Definition Sample_ (now : Z) (sample : Sample V) (header : Header)
  : M (option error) :=
  let* p := get in
  let oldHeader := LastHeader p in
  let* flush := InitializedHeaderChanged header in
  let* flush :=
    (if negb (String.eqb FlushTag "") then
       let val := Tag sample FlushTag in
       do modify (set_lastFlushTag val) then
       ret (if bool_decide (is_Some oldHeader)
            then flush || negb (String.eqb val (lastFlushTag p))
            else flush)
     else ret flush) in
  let* err :=
    (if flush then triggerFlush oldHeader false now else ret None) in
  let* err :=
    (if 0 <? FlushTimeout then
       do modify (set_lastSample (Some now)) then
       let* p := get in
       do modify (set_lastAutoFlushError None) then
       ret (match err with
            | None => lastAutoFlushError p
            | Some e => Some e
            end)
     else ret err) in
  do modify (λ p, set_samples (samples p ++ [sample]) p) then
  ret err.

(** The steps a log says were executed, by name, in order. *)
Definition executed (evs : list LogEvent) : list string :=
  omap (λ ev, match ev with
              | LogExecuting step _ _ => Some step
              | _ => None
              end) evs.

(** The errors stashed by an automatic flush. *)
Definition is_auto_flush_error (e : error) : bool :=
  match e with
  | ErrPreviousAutoFlush _ => true
  | _ => false
  end.

(** [kept p p']: [p'] differs from [p] at most in what was handed
    downstream and in the log. *)
Definition kept (p p' : BatchProcessor) : Prop :=
  LastHeader p' = LastHeader p ∧ samples p' = samples p
  ∧ shutdown p' = shutdown p ∧ lastAutoFlushError p' = lastAutoFlushError p
  ∧ lastSample p' = lastSample p ∧ lastFlushTag p' = lastFlushTag p
  ∧ flushHeader p' = flushHeader p ∧ flushError p' = flushError p.

(** The value a computation returns, without the processor. *)
Definition returned {A} (o : outcome (A * BatchProcessor)) : outcome A :=
  match o with
  | Returns (a, _) => Returns a
  | Panics => Panics
  end.

(** [Sample] in three parts: the book-keeping of header and flush tag that
    decides whether to flush, the triggered flush, and the hand-over of the
    stash with the buffering of the sample. *)
Definition wants_flush (tag : string) (sample : Sample V) (header : Header) p : bool :=
  let flush := match LastHeader p with
               | None => false
               | Some last => negb (bool_decide (header = last))
               end in
  if negb (String.eqb tag "")
  then if bool_decide (is_Some (LastHeader p))
       then flush || negb (String.eqb (Tag sample tag) (lastFlushTag p))
       else flush
  else flush.

Definition noted (tag : string) (sample : Sample V) (header : Header) p
  : BatchProcessor :=
  if negb (String.eqb tag "")
  then set_lastFlushTag (Tag sample tag) (set_LastHeader (Some header) p)
  else set_LastHeader (Some header) p.

Definition finish (timeout t : Z) (sample : Sample V) (err : option error) p
  : option error * BatchProcessor :=
  if 0 <? timeout
  then (match err with
        | None => lastAutoFlushError p
        | Some e => Some e
        end,
        set_samples (samples p ++ [sample])
          (set_lastAutoFlushError None (set_lastSample (Some t) p)))
  else (err, set_samples (samples p ++ [sample]) p).

(** ** The two goroutines

    [executeFlush] is cut after line 676, where the buffer is in the local
    variable [samples] and the field is nil: [executeFlush_take] returns the
    local variable ([None] at the early return), [executeFlush_rest] runs
    the steps and the hand-over on it. The steps can take long, and the flush
    goroutine does not touch the struct while they run. *)
Definition executeFlush_take (header : option Header)
  : M (option (list (Sample V))) :=
  let* p := get in
  let samples := samples p in
  if (length samples =? 0)%nat || negb (bool_decide (is_Some header)) then ret None
  else
    do modify (set_samples []) then   (* Allow garbage collection *)
    ret (Some samples).

Definition executeFlush_rest (samples : list (Sample V)) (header : option Header)
  : M (option error) :=
  let* r := executeSteps samples header in
  let '(samples, header, err) := r in
  match err with
  | Some e => ret (Some e)
  | None =>
      match header with
      | None => ret (Some (ErrNilHeader (length samples)))
      | Some h =>
          do modify (log (LogFlushing (length samples) (length (Fields h)))) then
          forward samples h
      end
  end.

(** The automatic flush of [waitAndExecuteFlush], cut at the same place:
    [auto_take] evaluates [p.checker.LastHeader] and enters [executeFlush];
    [auto_finish] is the rest of the flush, the stash of its error and the
    end of [waitAndExecuteFlush]. *)
Definition auto_take : M (option Header * option (list (Sample V))) :=
  let* p := get in
  let header := LastHeader p in
  let* taken := executeFlush_take header in
  ret (header, taken).

Definition auto_finish (header : option Header) (taken : option (list (Sample V)))
    (done_at : Z) : M bool :=
  let* err := (match taken with
               | Some samples => executeFlush_rest samples header
               | None => ret None
               end) in
  do (match err with
      | Some e =>
          do modify (log (LogAutoFlushError e)) then
          modify (set_lastAutoFlushError (Some (ErrPreviousAutoFlush e)))
      | None => ret tt
      end) then
  do modify (set_lastSample (Some done_at)) then
  do modify (set_flushHeader None) then
  let* p := get in
  ret (negb (shutdown p)).

(** [Sample()] cut after line 599, where it has read [lastAutoFlushError]
    into its result [err] and not yet cleared the field: [Sample_read]
    returns [err], [Sample_write] is the rest of the function. *)
Definition Sample_read (now : Z) (sample : Sample V) (header : Header)
  : M (option error) :=
  let* p := get in
  let oldHeader := LastHeader p in
  let* flush := InitializedHeaderChanged header in
  let* flush :=
    (if negb (String.eqb FlushTag "") then
       let val := Tag sample FlushTag in
       do modify (set_lastFlushTag val) then
       ret (if bool_decide (is_Some oldHeader)
            then flush || negb (String.eqb val (lastFlushTag p))
            else flush)
     else ret flush) in
  let* err :=
    (if flush then triggerFlush oldHeader false now else ret None) in
  if 0 <? FlushTimeout then
    do modify (set_lastSample (Some now)) then
    let* p := get in
    ret (match err with
         | None => lastAutoFlushError p
         | Some e => Some e
         end)
  else ret err.

Definition Sample_write (sample : Sample V) (err : option error)
  : M (option error) :=
  do (if 0 <? FlushTimeout then modify (set_lastAutoFlushError None) else ret tt) then
  do modify (λ p, set_samples (samples p ++ [sample]) p) then
  ret err.

(** The struct with the local variables of the two goroutines: of the
    flush goroutine inside an automatic flush the header and the buffer it
    took, of the caller inside [Sample()] its sample and its [err]. *)
Record goroutines : Type := mkGoroutines {
  shared : BatchProcessor;
  flusher : option (option Header * option (list (Sample V)));
  caller : option (Sample V * option error);
}.

(** What a goroutine does next. *)
Inductive action : Type :=
| AutoTake (now : Z)            (* flush goroutine: the wait ends by timeout at
                                   [now]; [auto_take] *)
| AutoFinish (done_at : Z)      (* flush goroutine: [auto_finish] *)
| CallSample (now : Z) (sample : Sample V) (header : Header)
                                (* caller: [Sample()] from start to end *)
| SampleRead (now : Z) (sample : Sample V) (header : Header)
                                (* caller: [Sample_read] *)
| SampleWrite.                  (* caller: [Sample_write] *)

(** A [Sample()] that triggers a flush needs the lock, which the flush
    goroutine holds during its automatic flush. *)
Definition lock_free (sample : Sample V) (header : Header) (g : goroutines) : bool :=
  negb (wants_flush FlushTag sample header (shared g))
  || negb (bool_decide (is_Some (flusher g))).

(** One action on the goroutines: [None] when the goroutine cannot do it
    now, otherwise the new state and what a finished [Sample()] returns to
    its caller. The flush goroutine leaves its wait for an automatic flush
    when no flush is pending, no shutdown is, and the timeout has elapsed. *)
Definition step (a : action) (g : goroutines)
  : option (outcome (goroutines * list (option error))) :=
  match a with
  | AutoTake now =>
      let p := shared g in
      if negb (bool_decide (is_Some (flusher g)))
         && negb (bool_decide (is_Some (flushHeader p))) && negb (shutdown p)
         && flushTimedOut now p
      then Some (match auto_take p with
                 | Returns (local, p') =>
                     Returns (mkGoroutines p' (Some local) (caller g), [])
                 | Panics => Panics
                 end)
      else None
  | AutoFinish done_at =>
      match flusher g with
      | Some (header, taken) =>
          Some (match auto_finish header taken done_at (shared g) with
                | Returns (_, p') => Returns (mkGoroutines p' None (caller g), [])
                | Panics => Panics
                end)
      | None => None
      end
  | CallSample now sample header =>
      if negb (bool_decide (is_Some (caller g))) && lock_free sample header g
      then Some (match Sample_ now sample header (shared g) with
                 | Returns (err, p') =>
                     Returns (mkGoroutines p' (flusher g) None, [err])
                 | Panics => Panics
                 end)
      else None
  | SampleRead now sample header =>
      if negb (bool_decide (is_Some (caller g))) && lock_free sample header g
      then Some (match Sample_read now sample header (shared g) with
                 | Returns (err, p') =>
                     Returns (mkGoroutines p' (flusher g) (Some (sample, err)), [])
                 | Panics => Panics
                 end)
      else None
  | SampleWrite =>
      match caller g with
      | Some (sample, err) =>
          Some (match Sample_write sample err (shared g) with
                | Returns (err, p') =>
                    Returns (mkGoroutines p' (flusher g) None, [err])
                | Panics => Panics
                end)
      | None => None
      end
  end.

(** A schedule, action by action: the final state and what the calls of
    [Sample()] returned, in order. *)
Fixpoint run (schedule : list action) (g : goroutines)
  : option (outcome (goroutines * list (option error))) :=
  match schedule with
  | [] => Some (Returns (g, []))
  | a :: rest =>
      match step a g with
      | Some (Returns (g', errs)) =>
          match run rest g' with
          | Some (Returns (g'', errs')) => Some (Returns (g'', errs ++ errs'))
          | other => other
          end
      | other => other
      end
  end.

(** Both goroutines between two functions. *)
Definition at_rest (p : BatchProcessor) : goroutines := mkGoroutines p None None.

(** What the calls of [Sample()] returned in a schedule that ran. *)
Definition returned_errors
    (r : option (outcome (goroutines * list (option error))))
  : option (list (option error)) :=
  match r with
  | Some (Returns (_, errs)) => Some errs
  | _ => None
  end.

(** The actions that are a whole call of [Sample()]. *)
Definition is_call (a : action) : bool :=
  match a with
  | CallSample _ _ _ => true
  | _ => false
  end.

End BatchProcessor.

End Batch.

(** * The endpoint factory (package [bitflow], pipeline_flags.go) *)

Module Endpoints.

Import GoStrings.
Local Open Scope string_scope.

(** [MarshallingFormat] and [EndpointType] are Go string types. *)
Abbreviation MarshallingFormat := string (only parsing).
Abbreviation EndpointType := string (only parsing).

Definition UndefinedEndpoint : EndpointType := "".
Definition TcpEndpoint : EndpointType := "tcp".
Definition TcpListenEndpoint : EndpointType := "listen".
Definition FileEndpoint : EndpointType := "file".
Definition StdEndpoint : EndpointType := "std".

Definition UndefinedFormat : MarshallingFormat := "".
Definition TextFormat : MarshallingFormat := "text".
Definition CsvFormat : MarshallingFormat := "csv".
Definition BinaryFormat : MarshallingFormat := "bin".

(** Durations in nanoseconds. *)
Definition tcp_download_retry_interval : Z := 1000 * 1000000.
Definition tcp_dial_timeout : Z := 2000 * 1000000.

Definition allFormatsMap : gmap string bool :=
  {[ TextFormat := true; CsvFormat := true; BinaryFormat := true ]}.

(** [allFormatsMap[MarshallingFormat(part)]]: a missing key reads as false. *)
Definition is_format (part : string) : bool :=
  default false (allFormatsMap !! part).

Definition stdTransportTarget : string := "-".

Record EndpointDescription : Type := mkEndpoint {
  Format : MarshallingFormat;
  Type_ : EndpointType;
  IsCustomType : bool;
  Target : string;
}.

Inductive error : Type :=
| ErrInvalidUrl (endpoint : string)        (* "Invalid URL endpoint: %v" *)
| ErrMultipleFormats (endpoint : string)   (* "Multiple formats defined in: %v" *)
| ErrMultipleTransports (endpoint : string)(* "Multiple transport types defined: %v" *)
| ErrStdTarget (part : string)             (* "Transport '%v' can only be defined with target '-'" *)
| ErrCustomFormat (typ : string)           (* "Cannot define the data format for transport '%v'" *)
| ErrEmptyEndpoint                         (* "Empty endpoint/file is not valid" *)
| ErrNotFileNorTcp (target : string)       (* "Not a filename and not a valid TCP endpoint: %v" *)
| ErrFormatForInput (input : string)       (* "Format cannot be specified for data input: %v" *)
| ErrCustomInput (typ msg : string)        (* "Error creating '%v' input: %v" *)
| ErrUnknownInputType (typ : string)       (* "Unknown input endpoint type: " *)
| ErrOneSource (have got : string)         (* "Please provide only one data source" *)
| ErrMultipleCustom (typ : string)         (* "Cannot define multiple sources for custom input type" *)
| ErrStdinTwice                            (* "Cannot read from stdin multiple times" *)
| ErrListenTwice                           (* "Cannot listen for input on multiple TCP ports" *)
| ErrUnknownType (typ : string)            (* "Unknown endpoint type: " *)
| PanicTypeAssertion.                      (* a failed type assertion on the source *)

(** What [os.Stat] reports for a path: success, a [*os.PathError] with its
    inner error (nil or its message), or another error. *)
Inductive StatResult : Type :=
| StatOk
| StatPathError (inner : option string)
| StatOtherError.

(** The unmarshallers an input could be given. *)
Inductive Unmarshaller : Type :=
| TextUnmarshaller
| CsvUnmarshaller
| BinaryUnmarshaller.

Record ParallelSampleHandler : Type := mkHandler {
  ParallelParsers : Z;
  BufferedSamples : Z;
}.

Record SampleReader : Type := mkReader {
  reader_handler : ParallelSampleHandler;
  reader_Unmarshaller : option Unmarshaller;   (* nil: auto-detect *)
}.

(** The sources [CreateInput] builds, with the fields it sets. A custom
    source is what its registered factory returned, here an opaque name. *)
Inductive MetricSource : Type :=
| ConsoleSource (reader : SampleReader)
| TCPSource (RemoteAddrs : list string) (PrintErrors : bool)
    (RetryInterval DialTimeout : Z) (TcpConnLimit : Z) (reader : SampleReader)
| TCPListenerSource (endpoint : string) (SimultaneousConnections TcpConnLimit : Z)
    (reader : SampleReader)
| FileSource (FileNames : list string) (IoBuffer : Z) (Robust KeepAlive : bool)
    (reader : SampleReader)
| CustomSource (name : string).

Record EndpointFactory : Type := mkFactory {
  FlagInputFilesRobust : bool;
  FlagOutputFilesClean : bool;
  FlagIoBuffer : Z;
  FlagFilesKeepAlive : bool;
  FlagFilesAppend : bool;
  FlagOutputTcpListenBuffer : Z;
  FlagTcpConnectionLimit : Z;
  FlagInputTcpAcceptLimit : Z;
  FlagTcpDropErrors : bool;
  FlagParallelHandler : ParallelSampleHandler;
}.

Section Environment.

(** What the code takes from its platform and from its registries:
    [net.SplitHostPort] ([None] for an error), whether
    [net.LookupPort("tcp", port)] succeeds, [os.Stat], the constant
    [ConsoleBoxEndpoint] (declared outside the sources) and the registry
    [CustomDataSources] of source factories (a factory fails with a message). *)
Variable SplitHostPort : string → option (string * string).
Variable LookupPort : string → bool.
Variable os_Stat : string → StatResult.
Variable ConsoleBoxEndpoint : EndpointType.
Variable CustomDataSources : gmap string (string → result string MetricSource).

(** IsValidFilename tries to infer in a system-independent way, if the
    given path is a valid file name. *)
Definition IsValidFilename (path : string) : bool :=
  match os_Stat path with
  | StatPathError inner =>
      match inner with
      | None => true
      | Some msg => negb (String.eqb msg "invalid argument")
      end
  | _ => true
  end.

Definition GuessEndpointType (target : string) : result error EndpointType :=
  if String.eqb target "" then Err ErrEmptyEndpoint
  else if String.eqb target stdTransportTarget then Ok StdEndpoint
  else
    let '(host, port, err1) :=
      match SplitHostPort target with
      | Some (host, port) => (host, port, false)
      | None => ("", "", true)
      end in
    let err2 := negb (LookupPort port) in
    if negb err1 && negb err2 then
      if String.eqb host "" then Ok TcpListenEndpoint else Ok TcpEndpoint
    else
      if Contains target ":" || negb (IsValidFilename target)
      then Err (ErrNotFileNorTcp target)
      else Ok FileEndpoint.

Definition GuessEndpointDescription (endpoint : string)
  : result error EndpointDescription :=
  match GuessEndpointType endpoint with
  | Ok typ => Ok (mkEndpoint UndefinedFormat typ false endpoint)
  | Err e => Err e
  end.

(** The loop of [ParseUrlEndpointDescription] over the parts: the
    description so far, and the error of an early return. *)
Fixpoint parse_parts (endpoint target : string) (parts : list string)
    (res : EndpointDescription) : EndpointDescription * option error :=
  match parts with
  | [] => (res, None)
  | part :: rest =>
      if is_format part then
        if negb (String.eqb (Format res) "")
        then (res, Some (ErrMultipleFormats endpoint))
        else parse_parts endpoint target rest
               (mkEndpoint part (Type_ res) (IsCustomType res) (Target res))
      else
        if negb (String.eqb (Type_ res) UndefinedEndpoint)
        then (res, Some (ErrMultipleTransports endpoint))
        else
          let typed typ := mkEndpoint (Format res) typ (IsCustomType res) (Target res) in
          if String.eqb part TcpEndpoint then
            parse_parts endpoint target rest (typed TcpEndpoint)
          else if String.eqb part TcpListenEndpoint then
            parse_parts endpoint target rest (typed TcpListenEndpoint)
          else if String.eqb part FileEndpoint then
            parse_parts endpoint target rest (typed FileEndpoint)
          else if String.eqb part StdEndpoint then
            if negb (String.eqb target stdTransportTarget)
            then (res, Some (ErrStdTarget part))
            else parse_parts endpoint target rest (typed StdEndpoint)
          else
            parse_parts endpoint target rest
              (mkEndpoint (Format res) part true (Target res))
  end.

Definition ParseUrlEndpointDescription (endpoint : string)
  : result error EndpointDescription :=
  match cut "://" endpoint with
  | None => Err (ErrInvalidUrl endpoint)
  | Some (parts, target) =>
      if String.eqb parts "" || String.eqb target ""
      then Err (ErrInvalidUrl endpoint)
      else
        let res := mkEndpoint "" "" false target in
        match parse_parts endpoint target (Split parts "+") res with
        | (_, Some err) => Err err
        | (res, None) =>
            let '(res, err) :=
              if String.eqb (Type_ res) UndefinedEndpoint then
                match GuessEndpointType target with
                | Ok typ =>
                    (mkEndpoint (Format res) typ (IsCustomType res) (Target res), None)
                | Err guessErr => (res, Some guessErr)
                end
              else (res, None) in
            let err :=
              if IsCustomType res && negb (String.eqb (Format res) UndefinedFormat)
              then Some (ErrCustomFormat (Type_ res))
              else err in
            match err with
            | Some e => Err e
            | None => Ok res
            end
        end
  end.

Definition ParseEndpointDescription (endpoint : string) (isOutput : bool)
  : result error EndpointDescription :=
  if Contains endpoint "://" then ParseUrlEndpointDescription endpoint
  else
    match GuessEndpointDescription endpoint with
    | Ok guessed =>
        (* Special case: Correct the default output transport type for
           standard output to ConsoleBoxEndpoint *)
        if isOutput && String.eqb (Target guessed) stdTransportTarget
           && String.eqb (Format guessed) UndefinedFormat
        then Ok (mkEndpoint (Format guessed) ConsoleBoxEndpoint true (Target guessed))
        else Ok guessed
    | Err e => Err e
    end.

(** The nil Unmarshaller makes the MetricSource implementations
    auto-detect the format. *)
Definition Unmarshaller_ (e : EndpointDescription) : option Unmarshaller := None.

Definition Reader (p : EndpointFactory) (um : option Unmarshaller) : SampleReader :=
  mkReader (FlagParallelHandler p) um.

(** One round of the loop of [CreateInput]: the source built so far (nil
    is [None]) and [inputType]. *)
Definition CreateInput_step (p : EndpointFactory) (input : string)
    (st : option MetricSource * EndpointType)
  : result error (option MetricSource * EndpointType) :=
  let '(result, inputType) := st in
  match ParseEndpointDescription input false with
  | Err err => Err err
  | Ok endpoint =>
      if negb (String.eqb (Format endpoint) UndefinedFormat)
      then Err (ErrFormatForInput input)
      else
        match result with
        | None =>
            let reader := Reader p (Unmarshaller_ endpoint) in
            let typ := Type_ endpoint in
            if String.eqb typ StdEndpoint then
              Ok (Some (ConsoleSource reader), typ)
            else if String.eqb typ TcpEndpoint then
              Ok (Some (TCPSource [Target endpoint] (negb (FlagTcpDropErrors p))
                          tcp_download_retry_interval tcp_dial_timeout
                          (FlagTcpConnectionLimit p) reader), typ)
            else if String.eqb typ TcpListenEndpoint then
              Ok (Some (TCPListenerSource (Target endpoint)
                          (FlagInputTcpAcceptLimit p) (FlagTcpConnectionLimit p)
                          reader), typ)
            else if String.eqb typ FileEndpoint then
              Ok (Some (FileSource [Target endpoint] (FlagIoBuffer p)
                          (FlagInputFilesRobust p) (FlagFilesKeepAlive p) reader), typ)
            else
              match CustomDataSources !! typ with
              | Some factory =>
                  if IsCustomType endpoint then
                    match factory (Target endpoint) with
                    | Ok source => Ok (Some source, typ)
                    | Err msg => Err (ErrCustomInput typ msg)
                    end
                  else Err (ErrUnknownInputType typ)
              | None => Err (ErrUnknownInputType typ)
              end
        | Some source =>
            let typ := Type_ endpoint in
            if negb (String.eqb inputType typ) then Err (ErrOneSource inputType typ)
            else if IsCustomType endpoint then Err (ErrMultipleCustom inputType)
            else if String.eqb typ StdEndpoint then Err ErrStdinTwice
            else if String.eqb typ TcpListenEndpoint then Err ErrListenTwice
            else if String.eqb typ TcpEndpoint then
              match source with
              | TCPSource addrs pe ri dt lim reader =>
                  Ok (Some (TCPSource (addrs ++ [Target endpoint]) pe ri dt lim reader),
                      inputType)
              | _ => Err PanicTypeAssertion
              end
            else if String.eqb typ FileEndpoint then
              match source with
              | FileSource names buf robust keep reader =>
                  Ok (Some (FileSource (names ++ [Target endpoint]) buf robust keep reader),
                      inputType)
              | _ => Err PanicTypeAssertion
              end
            else Err (ErrUnknownType typ)
        end
  end.

Fixpoint CreateInput_loop (p : EndpointFactory) (inputs : list string)
    (st : option MetricSource * EndpointType) : result error (option MetricSource) :=
  match inputs with
  | [] => Ok st.1
  | input :: rest =>
      match CreateInput_step p input st with
      | Ok st' => CreateInput_loop p rest st'
      | Err err => Err err
      end
  end.

(** [CreateInput(inputs...)]: the source, nil ([None]) for no inputs. *)
Definition CreateInput (p : EndpointFactory) (inputs : list string)
  : result error (option MetricSource) :=
  CreateInput_loop p inputs (None, UndefinedEndpoint).

End Environment.

(** The recognised transports. *)
Definition is_transport (part : string) : bool :=
  String.eqb part TcpEndpoint || String.eqb part TcpListenEndpoint
  || String.eqb part FileEndpoint || String.eqb part StdEndpoint.

(** A part that names a transport: every part that is not a format and not
    empty, a recognised transport or a custom one (the [default] case of
    the switch). *)
Definition names_transport (part : string) : bool :=
  negb (is_format part) && negb (String.eqb part UndefinedEndpoint).

(** How many of the parts satisfy [f]. *)
Definition count (f : string → bool) (parts : list string) : nat :=
  length (List.filter f parts).

End Endpoints.

(** * The variance filter (package [steps], [NewMetricVarianceFilter])

    Values are [float64]: Rocq's primitive binary64 floats, with Go's
    operators [/], [!=] and [>=] as [PrimFloat.div], [PrimFloat.eqb] and
    [PrimFloat.leb] (IEEE-754 comparisons: false on NaN). *)

Module Variance.

Section VarianceFilter.

(** [onlinestats.Running], a vendored package outside the sources: its
    zero value and its methods [Push], [Mean] and [Stddev]. *)
Variable Running : Type.
Variable zero : Running.
Variable Push : Running → float → Running.
Variable Mean : Running → float.
Variable Stddev : Running → float.

(** The inner loop for one sample: [variances[i].Push(sample.Values[i])]
    for every field index [i]; indexing a shorter value vector panics
    ([None]). *)
Definition push_sample (numFields : nat) (variances : list Running)
    (sample : Sample float) : option (list Running) :=
  if (length (Values sample) <? numFields)%nat then None
  else Some (zip_with Push variances (Values sample)).

Fixpoint push_samples (numFields : nat) (variances : list Running)
    (samples : list (Sample float)) : option (list Running) :=
  match samples with
  | [] => Some variances
  | sample :: rest =>
      match push_sample numFields variances sample with
      | Some variances' => push_samples numFields variances' rest
      | None => None
      end
  end.

(** The weighted standard deviation the filter compares with its minimum. *)
Definition weighted_stddev (r : Running) : float :=
  let weighted_stddev := Stddev r in
  let mean := Mean r in
  if negb (PrimFloat.eqb mean 0) then PrimFloat.div weighted_stddev mean
  else weighted_stddev.

Definition included (minimumWeightedStddev : float) (r : Running) : bool :=
  PrimFloat.leb minimumWeightedStddev (weighted_stddev r).

(** The [ConstructIndices] function of [NewMetricVarianceFilter]: the
    indices and the names of the fields it keeps. *)
Definition ConstructIndices (minimumWeightedStddev : float) (header : Header)
    (samples : list (Sample float)) : option (list nat * list string) :=
  let numFields := length (Fields header) in
  match push_samples numFields (replicate numFields zero) samples with
  | None => None
  | Some variances =>
      let rows := zip (seq 0 numFields) (zip (Fields header) variances) in
      let kept := List.filter (λ row, included minimumWeightedStddev row.2.2) rows in
      Some (fst <$> kept, (λ row, row.2.1) <$> kept)
  end.

(** The values of field [i] over the batch, and their running statistics. *)
Definition column (i : nat) (samples : list (Sample float)) : list float :=
  (λ s, default 0%float (Values s !! i)) <$> samples.

Definition stats (values : list float) : Running :=
  foldl Push zero values.

(** The weighted standard deviation in the spec's words: the standard
    deviation divided by the absolute value of the mean, or the raw standard
    deviation when the mean is zero. *)
Definition spec_weighted_stddev (r : Running) : float :=
  if negb (PrimFloat.eqb (Mean r) 0)
  then PrimFloat.div (Stddev r) (PrimFloat.abs (Mean r))
  else Stddev r.

End VarianceFilter.

(** Modelled from the spec: the vendored [onlinestats.Running] is not part of
    the sources; the spec speaks of the mean and the standard deviation of a
    field. The model keeps the count, the running mean and the sum of squared
    deviations (Welford's update); the standard deviation is the square root
    of the sample variance. *)
Record Welford : Type := mkWelford {
  w_n : Z;
  w_m1 : float;
  w_m2 : float;
}.

(** [float64(n)] of a small integer. *)
Definition float_of_Z (n : Z) : float :=
  if n <? 0 then PrimFloat.opp (PrimFloat.of_uint63 (Uint63.of_Z (- n)))
  else PrimFloat.of_uint63 (Uint63.of_Z n).

Definition welford_zero : Welford := mkWelford 0 0 0.

Definition welford_Push (r : Welford) (x : float) : Welford :=
  let n1 := float_of_Z (w_n r) in
  let n := w_n r + 1 in
  let delta := PrimFloat.sub x (w_m1 r) in
  let delta_n := PrimFloat.div delta (float_of_Z n) in
  let term1 := PrimFloat.mul (PrimFloat.mul delta delta_n) n1 in
  mkWelford n (PrimFloat.add (w_m1 r) delta_n) (PrimFloat.add (w_m2 r) term1).

Definition welford_Mean (r : Welford) : float := w_m1 r.

Definition welford_Stddev (r : Welford) : float :=
  PrimFloat.sqrt (PrimFloat.div (w_m2 r) (float_of_Z (w_n r - 1))).

End Variance.

(** * The batch sorter (package [steps], [SampleSorter]) *)

Module Sorter.

Section SampleSorter.

Context {V : Type}.

(** Sort based on given Tags, use Timestamp as last sort criterion *)
Record SampleSorter : Type := mkSorter {
  SorterTags : list string;
}.

(** [SampleSlice.Less(i, j)] on the samples [a] and [b] at [i] and [j]:
    the loop over the sorter's tags. Go's [<] on strings is the bytewise
    lexical order, [Time.Before] the order of the instants. *)
Fixpoint Less_tags (tags : list string) (a b : Sample V) : bool :=
  match tags with
  | [] => Time a <? Time b
  | tag :: rest =>
      let tagA := Tag a tag in
      let tagB := Tag b tag in
      if String.eqb tagA tagB then Less_tags rest a b   (* continue *)
      else String.ltb tagA tagB
  end.

Definition Less (sorter : SampleSorter) (a b : Sample V) : bool :=
  Less_tags (SorterTags sorter) a b.

(** [sort.Sort] of Go's standard library, by its contract: given a [Less]
    that is a strict weak ordering, it permutes the slice so that no element
    is less than one before it. The sort is not stable. *)
Record strict_weak_order {A} (less : A → A → bool) : Prop := {
  swo_irrefl : ∀ x, less x x = false;
  swo_trans : ∀ x y z, less x y = true → less y z = true → less x z = true;
  swo_neg_trans : ∀ x y z, less x z = true → less x y = true ∨ less y z = true;
}.

Definition sort_contract (sort : ∀ A, (A → A → bool) → list A → list A) : Prop :=
  ∀ A (less : A → A → bool) (l : list A),
    strict_weak_order less →
    sort A less l ≡ₚ l
    ∧ StronglySorted (λ x y, less y x = false) (sort A less l).

Variable sort_Sort : ∀ A, (A → A → bool) → list A → list A.

Definition ProcessBatch (sorter : SampleSorter) (header : Header)
    (samples : list (Sample V)) : Header * list (Sample V) * option string :=
  (header, sort_Sort (Sample V) (Less sorter) samples, None).

(** The order in the spec's words: by the values of the listed tags in
    order, lexicographically, then by timestamp. [before tags a b]: [a] comes
    strictly before [b]. *)
Fixpoint lex_lt (ka kb : list string) (ta tb : Z) : Prop :=
  match ka, kb with
  | x :: ka', y :: kb' =>
      String.ltb x y = true ∨ (x = y ∧ lex_lt ka' kb' ta tb)
  | _, _ => ta < tb
  end.

Definition sort_key (tags : list string) (s : Sample V) : list string :=
  Tag s <$> tags.

Definition before (tags : list string) (a b : Sample V) : Prop :=
  lex_lt (sort_key tags a) (sort_key tags b) (Time a) (Time b).

End SampleSorter.

(** A sort that meets the contract, for running the sorter: insertion sort. *)
Fixpoint insert_sorted {A} (less : A → A → bool) (x : A) (l : list A) : list A :=
  match l with
  | [] => [x]
  | y :: l' => if less x y then x :: y :: l' else y :: insert_sorted less x l'
  end.

Definition insertion_sort (A : Type) (less : A → A → bool) (l : list A) : list A :=
  foldr (insert_sorted less) [] l.

End Sorter.

(** * The active TCP sink (package [sample], [TCPSink])

    The sink with the part of the world its methods act on: the dial
    attempts made and, for the connection, the queue of its [samples]
    channel. [golib.OneshotCondition] guards every method with its lock, so a
    method call is one step on the sink. *)

Module TCP.

Section TCPSink.

Context {V : Type}.

Inductive error : Type :=
| ErrAlreadyStopped (endpoint : string)   (* "TCP sink to %v already stopped" *)
| ErrCheck (nvalues nfields : nat)        (* the error of Sample.Check *)
| ErrDial (msg : string).                 (* net.ResolveTCPAddr / net.DialTCP *)

(** [tcpWriteConn]: [conn_open] is [conn.conn != nil]; [queue] is what was
    sent into the [samples] channel. *)
Record tcpWriteConn : Type := mkConn {
  remote : string;
  conn_open : bool;
  queue : list (Sample V);
}.

Record TCPSink : Type := mkSink {
  Endpoint : string;
  LastHeader : Header;
  conn : option tcpWriteConn;     (* nil is [None] *)
  stopped : bool;                 (* the OneshotCondition is enabled *)
  dials : list string;            (* the endpoints dialled so far *)
  closed : list tcpWriteConn;     (* the connections closed so far *)
}.

(** [net.ResolveTCPAddr] followed by [net.DialTCP]: the remote address of
    the connection, or an error. *)
Variable DialTCP : string → result string string.

(** Modelled from the spec: [Sample.Check] is not part of the sources. The
    spec: check against header fails if the value count mismatches. *)
Definition Check (sample : Sample V) (header : Header) : option error :=
  if (length (Values sample) =? length (Fields header))%nat then None
  else Some (ErrCheck (length (Values sample)) (length (Fields header))).

(** [conn.Running()], on a nil-able receiver. *)
Definition Running (c : option tcpWriteConn) : bool :=
  match c with
  | Some c => conn_open c
  | None => false
  end.

(** [sink.conn.Close(); sink.conn = nil]: closing a nil connection does
    nothing. *)
Definition closeConnection (sink : TCPSink) : TCPSink :=
  match conn sink with
  | Some c =>
      mkSink (Endpoint sink) (LastHeader sink) None (stopped sink) (dials sink)
        (closed sink ++ [c])
  | None => sink
  end.

(** [golib.OneshotCondition.Enable(perform)]: the first call performs and
    enables, later calls do nothing. *)
Definition Close (sink : TCPSink) : TCPSink :=
  if stopped sink then sink
  else
    let sink := closeConnection sink in
    mkSink (Endpoint sink) (LastHeader sink) (conn sink) true (dials sink)
      (closed sink).

Definition assertConnection (sink : TCPSink) : TCPSink * option error :=
  match conn sink with
  | Some _ => (sink, None)
  | None =>
      let dialled := dials sink ++ [Endpoint sink] in
      match DialTCP (Endpoint sink) with
      | Err msg =>
          (mkSink (Endpoint sink) (LastHeader sink) None (stopped sink) dialled
             (closed sink), Some (ErrDial msg))
      | Ok addr =>
          (mkSink (Endpoint sink) (LastHeader sink) (Some (mkConn addr true []))
             (stopped sink) dialled (closed sink), None)
      end
  end.

(** [IfElseEnabled(enabled, disabled)] runs [enabled] when the condition
    is enabled and [disabled] otherwise. *)
Definition Header_ (header : Header) (sink : TCPSink) : TCPSink * option error :=
  if stopped sink then (sink, Some (ErrAlreadyStopped (Endpoint sink)))
  else
    (* Stop existing connection to negotiate new header *)
    let sink := closeConnection sink in
    let sink := mkSink (Endpoint sink) header (conn sink) (stopped sink)
                  (dials sink) (closed sink) in
    assertConnection sink.

Definition Sample_ (sample : Sample V) (header : Header) (sink : TCPSink)
  : TCPSink * option error :=
  if stopped sink then (sink, Some (ErrAlreadyStopped (Endpoint sink)))
  else
    match Check sample header with
    | Some err => (sink, Some err)
    | None =>
        (* Cleanup errored connection *)
        let sink := if negb (Running (conn sink)) then closeConnection sink else sink in
        match assertConnection sink with
        | (sink, Some err) => (sink, Some err)
        | (sink, None) =>
            (* sink.conn.samples <- sample *)
            match conn sink with
            | Some c =>
                (mkSink (Endpoint sink) (LastHeader sink)
                   (Some (mkConn (remote c) (conn_open c) (queue c ++ [sample])))
                   (stopped sink) (dials sink) (closed sink), None)
            | None => (sink, None)
            end
        end
    end.

(** The calls a producer makes on the sink, and a run of them. *)
Inductive call : Type :=
| CallSample (sample : Sample V) (header : Header)
| CallHeader (header : Header).

Definition run_call (c : call) (sink : TCPSink) : TCPSink * option error :=
  match c with
  | CallSample sample header => Sample_ sample header sink
  | CallHeader header => Header_ header sink
  end.

Fixpoint run_calls (calls : list call) (sink : TCPSink)
  : TCPSink * list (option error) :=
  match calls with
  | [] => (sink, [])
  | c :: rest =>
      let '(sink, err) := run_call c sink in
      let '(sink, errs) := run_calls rest sink in
      (sink, err :: errs)
  end.

End TCPSink.

End TCP.

(** * The PCA projection (package [analysis], [PCAProjection.Sample])

    A [*Sample] is a nil-able pointer; dereferencing nil panics. A run of
    [PCAProjection.Sample] is the calls it makes on its result pointer and
    how it ends. *)

Module PCA.

Inductive outcome (A : Type) : Type :=
| Returns (a : A)
| PanicNilDereference     (* invalid memory address or nil pointer dereference *)
| PanicLibrary.           (* a panic inside the matrix library *)
Arguments Returns {A} a.
Arguments PanicNilDereference {A}.
Arguments PanicLibrary {A}.

(** The calls made with the result pointer as argument or receiver. *)
Inductive event : Type :=
| CallSetSampleValues (s : option (Sample float)) (values : list float)
| CallCopyMetadataFrom (receiver : option (Sample float)).

Definition SampleToVector (sample : Sample float) : list float :=
  Values sample.

(** [SetSampleValues(s, values)]: its first statement reads [s.Values];
    then the values of [s] are those of [values]. The sample [s] points to
    after the call. *)
Definition SetSampleValues (s : option (Sample float)) (values : list float)
  : outcome (Sample float) :=
  match s with
  | None => PanicNilDereference                (* len(s.Values) *)
  | Some s =>
      let vals :=
        if (length values <=? length (Values s))%nat
        then take (length values) (Values s)
        else replicate (length values) 0%float in
      (* for i, val := range values { s.Values[i] = data2go.Value(val) } *)
      Returns (mkSample (Time s)
                 (foldl (λ vs iv, <[iv.1 := iv.2]> vs) vals
                    (zip (seq 0 (length values)) values))
                 (Tags s))
  end.

(** Modelled from the spec: [Sample.CopyMetadataFrom] is not part of the
    sources; a sample's metadata are its timestamp and its tags. *)
Definition CopyMetadataFrom (receiver : option (Sample float)) (other : Sample float)
  : outcome (Sample float) :=
  match receiver with
  | None => PanicNilDereference
  | Some s => Returns (mkSample (Time other) (Values s) (Tags other))
  end.

Section PCAProjection.

(** [model.Vector], the product of the vector with the projection matrix
    in the matrix library; [None] when the library panics (a shape mismatch). *)
Variable Vector : list float → option (list float).

(** [PCAProjection.Sample(sample) (result *Sample)]: the named result is
    nil until assigned, and nothing assigns it. *)
Definition Sample_ (sample : Sample float)
  : list event * outcome (option (Sample float)) :=
  let result : option (Sample float) := None in
  match Vector (SampleToVector sample) with
  | None => ([], PanicLibrary)
  | Some values =>
      match SetSampleValues result values with
      | Returns s =>
          match CopyMetadataFrom (Some s) sample with
          | Returns s' =>
              ([CallSetSampleValues result values; CallCopyMetadataFrom (Some s)],
               Returns (Some s'))
          | PanicNilDereference =>
              ([CallSetSampleValues result values; CallCopyMetadataFrom (Some s)],
               PanicNilDereference)
          | PanicLibrary =>
              ([CallSetSampleValues result values; CallCopyMetadataFrom (Some s)],
               PanicLibrary)
          end
      | PanicNilDereference =>
          ([CallSetSampleValues result values], PanicNilDereference)
      | PanicLibrary => ([CallSetSampleValues result values], PanicLibrary)
      end
  end.

End PCAProjection.

(** A projection for the examples: the product of a row vector with a
    matrix given by its columns; the library panics on a vector of another
    length than the columns. *)
Definition dot (u v : list float) : float :=
  foldl PrimFloat.add 0%float (zip_with PrimFloat.mul u v).

Definition project (columns : list (list float)) (vec : list float)
  : option (list float) :=
  if forallb (λ col, (length col =? length vec)%nat) columns
  then Some (dot vec <$> columns)
  else None.

End PCA.

(** * The header of the binary format ([BinaryMarshaller.WriteHeader], [ReadHeader]) *)

Module BinaryHeader.

Import GoStrings Binary.

(** Modelled from the spec: the constants [time_col] and [tags_col] and the
    function [checkFirstCol] are not part of the sources. The spec: the header
    is [time] and a newline, then (if tagged) [tags] and a newline, then each
    field name with a newline, then a blank line; a header whose first column
    is not [time] is malformed. *)
Definition time_col : string := "time".
Definition tags_col : string := "tags".

Inductive error : Type :=
| ReadFailed (err : Binary.error)   (* the error of the reader *)
| ErrFirstCol (col : string).       (* the error of checkFirstCol *)

Definition checkFirstCol (col : string) : option error :=
  if String.eqb col time_col then None else Some (ErrFirstCol col).

(** [WriteCascade.WriteStr] and [WriteByte] on a writer that accepts every
    write: the bytes appended. *)
Definition WriteStr (s : string) : list Byte.byte := String.list_byte_of_string s.

(** The loop of [WriteHeader] over the field names: every name and the
    separator. *)
Definition lines (names : list string) : list Byte.byte :=
  concat ((λ name, WriteStr name ++ [binary_separator]) <$> names).

Definition WriteHeader (header : Header) : list Byte.byte :=
  WriteStr time_col ++ [binary_separator]
  ++ (if HasTags header then WriteStr tags_col ++ [binary_separator] else [])
  ++ lines (Fields header)
  ++ [binary_separator].

(** The loop of [ReadHeader]: every round reads one line, so [fuel] rounds
    are enough for an input of fewer than [fuel] bytes; [None] is a loop cut
    short by the fuel. [string(nameBytes[:len(nameBytes)-1])] is the line
    without its separator. *)
Fixpoint ReadHeader_loop (fuel : nat) (first : bool) (header : Header) (input : Reader)
  : option (result error Header * Reader) :=
  match fuel with
  | O => None
  | S fuel =>
      match ReadBytes input binary_separator with
      | (Err err, input) => Some (Err (ReadFailed err), input)
      | (Ok nameBytes, input) =>
          if (length nameBytes <=? 1)%nat then Some (Ok header, input)
          else
            let name :=
              String.string_of_list_byte (take (length nameBytes - 1) nameBytes) in
            let header :=
              if first && String.eqb name tags_col
              then mkHeader (Fields header) true
              else mkHeader (Fields header ++ [name]) (HasTags header) in
            ReadHeader_loop fuel false header input
      end
  end.

Definition ReadHeader (input : Reader) : option (result error Header * Reader) :=
  match ReadBytes input binary_separator with
  | (Err err, input) => Some (Err (ReadFailed err), input)
  | (Ok name, input) =>
      match checkFirstCol (String.string_of_list_byte (take (length name - 1) name)) with
      | Some err => Some (Err err, input)
      | None => ReadHeader_loop (S (length input)) true (mkHeader [] false) input
      end
  end.

(** [write] of marshall_test.go on the binary marshaller: the header, then
    every sample. *)
Definition write (header : Header) (samples : list (Sample Value)) : list Byte.byte :=
  WriteHeader header ++ concat ((λ sample, WriteSample sample header) <$> samples).

(** Modelled from the spec: [BidiMarshaller.Read(reader, previousHeader)] is
    not part of the sources. The spec: it returns a header or a sample frame;
    the binary format requires a prior header to read a frame. Without a
    previous header it is [ReadHeader], with one it is [ReadSampleData]. *)
Definition Read (rdr : Reader) (previousHeader : option Header)
  : option (result error (option Header * option (list Byte.byte)) * Reader) :=
  match previousHeader with
  | None =>
      match ReadHeader rdr with
      | Some (Ok header, rdr) => Some (Ok (Some header, None), rdr)
      | Some (Err err, rdr) => Some (Err err, rdr)
      | None => None
      end
  | Some header =>
      match ReadSampleData header rdr with
      | (Ok data, rdr) => Some (Ok (None, Some data), rdr)
      | (Err err, rdr) => Some (Err (ReadFailed err), rdr)
      end
  end.

(** The loop of [testRead] of marshall_test.go over [n] expected samples:
    one [Read] and one [ParseSample] for each. It returns the samples it
    parsed where the test compares them with the expected ones. *)
Fixpoint testRead_samples (header : Header) (n : nat) (rdr : Reader)
  : option (result error (list (Sample Value)) * Reader) :=
  match n with
  | O => Some (Ok [], rdr)
  | S n =>
      match Read rdr (Some header) with
      | Some (Ok (_, Some data), rdr) =>
          match ParseSample header data with
          | Ok sample =>
              match testRead_samples header n rdr with
              | Some (Ok samples, rdr) => Some (Ok (sample :: samples), rdr)
              | r => r
              end
          | Err err => Some (Err (ReadFailed err), rdr)
          end
      | Some (Ok (_, None), rdr) => Some (Ok [], rdr)
      | Some (Err err, rdr) => Some (Err err, rdr)
      | None => None
      end
  end.

Definition testRead (rdr : Reader) (n : nat)
  : option (result error (Header * list (Sample Value)) * Reader) :=
  match Read rdr None with
  | Some (Ok (Some header, _), rdr) =>
      match testRead_samples header n rdr with
      | Some (Ok samples, rdr) => Some (Ok (header, samples), rdr)
      | Some (Err err, rdr) => Some (Err err, rdr)
      | None => None
      end
  | Some (Ok (None, _), rdr) => Some (Err (ReadFailed EOF), rdr)
  | Some (Err err, rdr) => Some (Err err, rdr)
  | None => None
  end.

(** Field names that survive the header: not empty and without a newline. *)
Definition field_name (name : string) : bool :=
  negb (String.eqb name "") && free_of newline name.

(** The samples a header can carry through the binary format: as many
    values as the header has fields, a time in the range of [int64], values
    that are 64-bit patterns, and tags free of the separator characters. *)
Definition carried (h : Header) (s : Sample Value) : Prop :=
  length (Values s) = length (Fields h) ∧ is_int64 (Time s)
  ∧ Forall is_uint64 (Values s) ∧ clean_tags (Tags s) = true.

End BinaryHeader.

(** * The PCA model ([PCAModel.ComponentsContainingVariance]) *)

Module PCAModel.

(** The loop of [ComponentsContainingVariance] over the contained
    variances still to add, with the named results [count] and [sum]. Go's
    [>] on [float64] is [PrimFloat.ltb] with the operands swapped. *)
Fixpoint ComponentsContainingVariance_loop (ContainedVariances : list float)
    (variance : float) (count : nat) (sum : float) : nat * float :=
  match ContainedVariances with
  | [] => (count, sum)
  | contained :: rest =>
      let sum := PrimFloat.add sum contained in
      let count := S count in
      if PrimFloat.ltb variance sum then (count, sum) (* break *)
      else ComponentsContainingVariance_loop rest variance count sum
  end.

Definition ComponentsContainingVariance (ContainedVariances : list float)
    (variance : float) : nat * float :=
  ComponentsContainingVariance_loop ContainedVariances variance 0 0%float.

(** The sum of the first contained variances, added in order. *)
Definition partial_sum (start : float) (variances : list float) : float :=
  foldl PrimFloat.add start variances.

End PCAModel.

(** * The analysis pipeline (package [main], analysis_basic.go) *)

Module Analysis.

Import GoStrings.

Section Analysis.

Context {V : Type}.

Inductive error : Type :=
| ErrCheck (nvalues nfields : nat)     (* the error of Check *)
| SinkFailed (msg : string).           (* an error of the outgoing sink *)

(** Modelled from the spec: [AbstractProcessor.Check] is not part of the
    sources. The spec: check against header fails if the value count
    mismatches. *)
Definition Check (sample : Sample V) (header : Header) : option error :=
  if (length (Values sample) =? length (Fields header))%nat then None
  else Some (ErrCheck (length (Values sample)) (length (Fields header))).

(** [PickHead], with the samples handed to its outgoing sink. [Num] and
    [processed] are Go [int]s; [processed] grows by one at a time and never
    beyond [Num]. *)
Record PickHead : Type := mkPickHead {
  Num : Z;             (* parameter *)
  processed : Z;       (* internal variable *)
  forwarded : list (Sample V * Header);
}.

Variable OutgoingSink : Sample V → Header → option string.

Definition PickHead_Sample (sample : Sample V) (header : Header) (head : PickHead)
  : PickHead * option error :=
  match Check sample header with
  | Some err => (head, Some err)
  | None =>
      if processed head <? Num head then
        let head := mkPickHead (Num head) (processed head + 1) (forwarded head) in
        match OutgoingSink sample header with
        | Some msg => (head, Some (SinkFailed msg))
        | None =>
            (mkPickHead (Num head) (processed head)
               (forwarded head ++ [(sample, header)]), None)
        end
      else (head, None)
  end.

(** The samples of a run, one call of [Sample] for each. *)
Fixpoint PickHead_run (calls : list (Sample V * Header)) (head : PickHead)
  : PickHead * list (option error) :=
  match calls with
  | [] => (head, [])
  | (sample, header) :: rest =>
      let '(head, err) := PickHead_Sample sample header head in
      let '(head, errs) := PickHead_run rest head in
      (head, err :: errs)
  end.

(** The samples of a run that pass [Check]. *)
Definition checked (calls : list (Sample V * Header)) : list (Sample V * Header) :=
  List.filter (λ call, bool_decide (Check call.1 call.2 = None)) calls.

(** [filter_tag]: the parameter is [tag=value] or [tag!=value]; the result
    is the [IncludeFilter] of the [SampleFilter] added to the pipeline, [None]
    where [log.Fatalln] ends the program. [strings.Index] and the slices
    around it are [cut]. *)
Definition filter_tag (params : string) : option (Sample V → bool) :=
  let parsed :=
    match cut "!=" params with
    | Some (tag, val) => Some (tag, val, false)
    | None =>
        match cut "=" params with
        | None => None     (* log.Fatalln *)
        | Some (tag, val) => Some (tag, val, true)
        end
    end in
  match parsed with
  | None => None
  | Some (tag, val, equals) =>
      Some (λ inSample,
              if equals : bool then String.eqb (Tag inSample tag) val
              else negb (String.eqb (Tag inSample tag) val))
  end.

End Analysis.

End Analysis.

(** * The connection of the TCP sink over a run of calls *)

Module TCPRun.

Import TCP.

Section TCPRun.

Context {V : Type}.


(** The connections [closeConnection] closes. *)
Definition closing (sink : TCPSink (V:=V)) : list (tcpWriteConn (V:=V)) :=
  match conn sink with
  | Some c => [c]
  | None => []
  end.

End TCPRun.

End TCPRun.

(** * Data for the examples *)

Module BinaryData.

Import GoStrings Binary.

(** The header and the first sample of the spec's binary round-trip
    scenario: fields [cpu] and [mem], time 1e9 ns, tag [host=a], values 0.5
    and 1024 (as their IEEE-754 bit patterns). *)
Definition cpu_mem : Header := mkHeader ["cpu"; "mem"]%string true.

Definition sample_a : Sample Value :=
  mkSample 1000000000 [0x3FE0000000000000; 0x4090000000000000]
    {[ "host"%string := "a"%string ]}.

End BinaryData.

Module BatchData.

Import Batch.

Definition hdr : Header := mkHeader ["cpu"%string] false.
Definition s0 : Sample Z := mkSample 1 [7] ∅.

(** Four steps: the identity, a step that drops every sample, a step that
    drops every sample and returns a nil header, and a step that fails. *)
Definition keep : BatchProcessingStep (V:=Z) :=
  mkStep (λ h ss, (Some h, ss, None)) "keep".
Definition drop_all : BatchProcessingStep (V:=Z) :=
  mkStep (λ h ss, (Some h, [], None)) "drop_all".
Definition drop_header : BatchProcessingStep (V:=Z) :=
  mkStep (λ h ss, (None, [], None)) "drop_header".
Definition failing : BatchProcessingStep (V:=Z) :=
  mkStep (λ h ss, (None, [], Some "boom"%string)) "failing".

Definition accept : Sample Z → Header → option string := λ _ _, None.

(** A started processor that has buffered [s0] under [hdr] at time 0. *)
Definition buffered : BatchProcessor (V:=Z) :=
  mkBatchProcessor (Some hdr) [s0] false None (Some 0) "" None None [] [].

(** Two more samples, the second under a header of its own. *)
Definition s1 : Sample Z := mkSample 101 [8] ∅.
Definition hdr2 : Header := mkHeader ["cpu"; "mem"]%string false.
Definition s2 : Sample Z := mkSample 103 [9; 10] ∅.

(** Two schedules of the processor with the step [failing] and a flush
    timeout of 10. In both the timeout elapses at time 100 and the flush
    goroutine starts the automatic flush of [s0], which fails at time 102;
    [Sample(s1, hdr)] arrives at time 101, while the steps run. In the first
    the call has read [lastAutoFlushError] when the flush fails, and
    clears it after; a second call follows. In the second the call returns
    before the flush fails, and the next call comes with a new header. *)
Definition stash_cleared : list (action (V:=Z)) :=
  [ AutoTake 100; SampleRead 101 s1 hdr; AutoFinish 102; SampleWrite;
    CallSample 103 s1 hdr ].

Definition stash_overtaken : list (action (V:=Z)) :=
  [ AutoTake 100; CallSample 101 s1 hdr; AutoFinish 102;
    CallSample 103 s2 hdr2; CallSample 104 s2 hdr2 ].

End BatchData.

Module EndpointData.

Import GoStrings Endpoints.
Local Open Scope string_scope.

(** An environment for the examples. [net.SplitHostPort] after Go's [net]
    package: the port follows the last colon, the host before it has no
    further colon unless it stands in brackets, and no bracket stands
    elsewhere. *)
Fixpoint split_last (c : ascii) (s : string) : option (string * string) :=
  match s with
  | "" => None
  | String a s' =>
      match split_last c s' with
      | Some (x, y) => Some (String a x, y)
      | None => if Ascii.eqb a c then Some ("", s') else None
      end
  end.

Definition split_host_port (hostport : string) : option (string * string) :=
  match split_last ":" hostport with
  | None => None                                    (* missing port in address *)
  | Some (host, port) =>
      match hostport with
      | String "[" inner =>
          match cut "]" inner with
          | None => None                            (* missing ']' in address *)
          | Some (h, rest) =>
              if String.eqb rest (String ":" port)
                 && free_of "[" h && free_of "[" port && free_of "]" port
              then Some (h, port)
              else None
          end
      | _ =>
          if free_of ":" host && free_of "[" hostport && free_of "]" hostport
          then Some (host, port)
          else None                                 (* too many colons in address *)
      end
  end.

(** [net.LookupPort] on a host without named services: the empty port
    (port 0) and the decimal numbers up to 65535. *)
Definition is_digit (a : ascii) : bool :=
  (48 <=? Ascii.nat_of_ascii a)%nat && (Ascii.nat_of_ascii a <=? 57)%nat.

Definition port_number (port : string) : N :=
  fold_left (λ n a, (10 * n + (Ascii.N_of_ascii a - 48))%N)
    (String.list_ascii_of_string port) 0%N.

Definition lookup_port (port : string) : bool :=
  forallb is_digit (String.list_ascii_of_string port)
  && (String.length port <=? 5)%nat && (port_number port <=? 65535)%N.

(** [os.Stat] on an empty directory: no path exists. *)
Definition stat (path : string) : StatResult :=
  StatPathError (Some "no such file or directory").

Definition no_sources : gmap string (string → result string MetricSource) := ∅.

Definition factory : EndpointFactory :=
  mkFactory false false 4096 false false 0 0 0 false (mkHandler 4 10000).

End EndpointData.

Module VarianceData.

Import Variance.

Definition load : Header := mkHeader ["load"%string; "delta"%string] false.

(** A batch of two samples: field [load] has the values 1 and 3, field
    [delta] the values -1 and -3. *)
Definition batch : list (Sample float) :=
  [ mkSample 1 [1%float; (-1)%float] ∅; mkSample 2 [3%float; (-3)%float] ∅ ].

Definition delta_stats : Welford :=
  stats Welford welford_zero welford_Push (column 1 batch).

End VarianceData.

Module SorterData.

Import Sorter.

Definition tagged (t : Z) (host job : string) : Sample Z :=
  mkSample t [] {[ "host"%string := host; "job"%string := job ]}.

Definition unsorted : list (Sample Z) :=
  [ tagged 5 "b" "x"; tagged 9 "a" "y"; tagged 3 "a" "y"; tagged 7 "a" "x" ].

End SorterData.

Module TCPData.

Import TCP.

Definition reachable : string → result string string := λ e, Ok e.

Definition sink0 : TCPSink (V:=Z) :=
  mkSink "collector:5555" (mkHeader ["cpu"%string] false) None false [] [].

Definition cpu : Header := mkHeader ["cpu"%string] false.
Definition s1 : Sample Z := mkSample 1 [42] ∅.

End TCPData.

Module PCAData.

Import PCA.

Definition first_component : list (list float) := [[1%float; 0%float]].
Definition point : Sample float := mkSample 1 [3%float; 4%float] ∅.

End PCAData.

Module BinaryHeaderData.

Import Binary BinaryHeader.

Definition cpu : Header := mkHeader ["cpu"%string] false.

(** The header [cpu] on the wire, followed by four more bytes. *)
Definition cpu_stream : list Byte.byte :=
  WriteStr "time" ++ [Byte.x0a] ++ WriteStr "cpu" ++ [Byte.x0a; Byte.x0a]
  ++ WriteStr "rest".

End BinaryHeaderData.

Module AnalysisData.

Import Analysis.

Definition cpu_header : Header := mkHeader ["cpu"%string] false.
Definition on_host (time : Z) (host : string) : Sample Z :=
  mkSample time [time] {[ "host"%string := host ]}.

(** A sample with two values does not fit [cpu_header]. *)
Definition misfit : Sample Z := mkSample 9 [1; 2] ∅.

Definition accept_all : Sample Z → Header → option string := λ _ _, None.

Definition four_calls : list (Sample Z * Header) :=
  [ (on_host 1 "a", cpu_header); (misfit, cpu_header);
    (on_host 2 "b", cpu_header); (on_host 3 "a", cpu_header) ].

End AnalysisData.

Module TCPRunData.

Import TCP TCPData.

(** An endpoint nobody listens on. *)
Definition unreachable : string → result string string := λ _, Err "refused"%string.

Definition s2 : Sample Z := mkSample 2 [43] ∅.

(** A sink whose connection has errored with [s1] in its queue. *)
Definition errored : TCPSink (V:=Z) :=
  mkSink "collector:5555" cpu (Some (mkConn "collector:5555" false [s1])) false
    ["collector:5555"%string] [].

End TCPRunData.

(** * Properties *)

(** ** Strings *)

Module GoStringsFacts.

Import GoStrings.
Local Open Scope string_scope.

Lemma free_of_cons c a s :
  free_of c (String a s) = negb (Ascii.eqb a c) && free_of c s.
Proof. reflexivity. Qed.

Lemma free_of_app c s t : free_of c (s ++ t) = free_of c s && free_of c t.
Proof.
  induction s as [|a s IH]; [done|].
  change (String a s ++ t) with (String a (s ++ t)).
  rewrite !free_of_cons, IH. by rewrite andb_assoc.
Qed.

Lemma Split_free s sep : free_of sep s = true → Split s sep = [s].
Proof.
  induction s as [|a s IH]; [done|].
  rewrite free_of_cons. intros [Ha Hs]%andb_true_iff.
  simpl. apply negb_true_iff in Ha. rewrite Ha, (IH Hs). done.
Qed.

Lemma Split_app_sep s t sep :
  free_of sep s = true → Split (s ++ String sep t) sep = s :: Split t sep.
Proof.
  induction s as [|a s IH]; simpl.
  - intros _. by rewrite Ascii.eqb_refl.
  - rewrite free_of_cons. intros [Ha Hs]%andb_true_iff.
    apply negb_true_iff in Ha. by rewrite Ha, (IH Hs).
Qed.

(** [Split] inverts [Join] on pieces that do not contain the separator. *)
Lemma Split_Join l sep :
  l ≠ [] → Forall (λ s, free_of sep s = true) l → Split (Join l sep) sep = l.
Proof.
  induction l as [|x l IH]; [done|]. intros _ Hl.
  apply Forall_cons in Hl as [Hx Hl].
  destruct l as [|y l]; simpl.
  - by apply Split_free.
  - rewrite Split_app_sep by done. f_equal. by apply IH.
Qed.

Lemma strip_prefix_char c a s :
  strip_prefix (String c "") (String a s) = if Ascii.eqb c a then Some s else None.
Proof. reflexivity. Qed.

(** [cut] at a one-character separator finds its first occurrence. *)
Lemma cut_app_sep s t c :
  free_of c s = true → cut (String c "") (s ++ String c t) = Some (s, t).
Proof.
  induction s as [|a s IH]; intros Hs.
  - simpl. by rewrite Ascii.eqb_refl.
  - rewrite free_of_cons in Hs. apply andb_true_iff in Hs as [Ha Hs].
    apply negb_true_iff in Ha.
    change ((String a s ++ String c t)) with (String a (s ++ String c t)).
    cbn [cut]. rewrite strip_prefix_char, Ascii.eqb_sym, Ha.
    by rewrite (IH Hs).
Qed.

Lemma Join_nonempty l sep :
  l ≠ [] → Forall (λ s, s ≠ "") l → Join l sep ≠ "".
Proof.
  destruct l as [|x l]; [done|]. intros _ [Hx _]%Forall_cons.
  destruct l; simpl; [done|]. by destruct x.
Qed.

(** The bytes of a string that is free of a character are free of its byte. *)
Lemma free_of_bytes c s :
  free_of c s = true → Ascii.byte_of_ascii c ∉ String.list_byte_of_string s.
Proof.
  unfold String.list_byte_of_string.
  induction s as [|a s IH]; simpl; [intros _; apply not_elem_of_nil|].
  rewrite free_of_cons. intros [Ha Hs]%andb_true_iff.
  apply negb_true_iff, Ascii.eqb_neq in Ha.
  apply not_elem_of_cons. split; [|by apply IH].
  intros Heq. apply Ha.
  by rewrite <-(Ascii.ascii_of_byte_of_ascii a), <-Heq, Ascii.ascii_of_byte_of_ascii.
Qed.

Lemma IndexByte_app b c rest :
  c ∉ b → IndexByte (b ++ c :: rest) c = Some (length b).
Proof.
  induction b as [|x b IH]; simpl; intros Hc.
  - by rewrite (Byte.byte_dec_lb (eq_refl c)).
  - apply not_elem_of_cons in Hc as [Hx Hb].
    destruct (Byte.eqb x c) eqn:E.
    + apply Byte.byte_dec_bl in E. congruence.
    + by rewrite (IH Hb).
Qed.

Lemma IndexByte_None b c : c ∉ b → IndexByte b c = None.
Proof.
  induction b as [|x b IH]; simpl; [done|]. intros [Hx Hb]%not_elem_of_cons.
  destruct (Byte.eqb x c) eqn:E.
  - apply Byte.byte_dec_bl in E. congruence.
  - by rewrite (IH Hb).
Qed.

End GoStringsFacts.

(** ** The binary marshaller *)

Module BinaryFacts.

Import GoStrings GoStringsFacts Binary.

Lemma Z_of_byte_of_Z x : Z_of_byte (byte_of_Z x) = x mod 2 ^ 8.
Proof.
  unfold Z_of_byte, byte_of_Z.
  assert (Hr : 0 ≤ x mod 2 ^ 8 < 2 ^ 8) by (apply Z.mod_pos_bound; lia).
  destruct (Byte.of_N (Z.to_N (x mod 2 ^ 8))) as [b|] eqn:E; simpl.
  - apply Byte.to_of_N in E. rewrite E. lia.
  - apply Byte.of_N_None_iff in E. lia.
Qed.

(** Bit [n] of the byte of [v] at offset [k], put back at its offset. *)
Lemma testbit_byte_at v k n :
  0 ≤ k → 0 ≤ n →
  Z.testbit (((v ≫ k) mod 2 ^ 8) ≪ k) n
  = (k <=? n) && (n <? k + 8) && Z.testbit v n.
Proof.
  intros Hk Hn. rewrite Z.shiftl_spec by done.
  destruct (Z.leb_spec k n) as [Hkn|Hkn]; simpl.
  - destruct (Z.ltb_spec n (k + 8)) as [Hn8|Hn8]; simpl.
    + rewrite Z.mod_pow2_bits_low by lia. rewrite Z.shiftr_spec by lia.
      f_equal. lia.
    + rewrite Z.mod_pow2_bits_high by lia. done.
  - apply Z.testbit_neg_r. lia.
Qed.

Lemma Uint64_PutUint64 v : is_uint64 v → Uint64 (PutUint64 v) = v.
Proof.
  intros [Hlo Hhi]. unfold Uint64, PutUint64. cbv beta zeta.
  cbn [lookup list_lookup default from_option id].
  rewrite !Z_of_byte_of_Z.
  apply Z.bits_inj'. intros n Hn.
  replace (v mod 2 ^ 8) with (((v ≫ 0) mod 2 ^ 8) ≪ 0)
    by (by rewrite Z.shiftr_0_r, Z.shiftl_0_r).
  rewrite !Z.lor_spec, !testbit_byte_at by lia.
  destruct (Z.ltb_spec n 64) as [Hn64|Hn64].
  - destruct (Z.testbit v n); [|by rewrite !andb_false_r].
    rewrite !andb_true_r.
    repeat match goal with
           | |- context [?a <=? ?b] => destruct (Z.leb_spec a b); try lia
           | |- context [?a <? ?b] => destruct (Z.ltb_spec a b); try lia
           end; reflexivity.
  - assert (Z.testbit v n = false) as ->.
    { destruct (decide (v = 0)) as [->|]; [apply Z.bits_0|].
      apply Z.bits_above_log2; [done|].
      assert (Z.log2 v < 64) by (apply Z.log2_lt_pow2; lia). lia. }
    by rewrite !andb_false_r.
Qed.

Lemma int64_uint64 t : is_int64 t → int64_of_uint64 (uint64_of_int64 t) = t.
Proof.
  intros [Hlo Hhi]. unfold int64_of_uint64, uint64_of_int64.
  destruct (decide (0 ≤ t)).
  - rewrite Z.mod_small by lia. destruct (Z.ltb_spec t (2 ^ 63)); lia.
  - replace (t mod 2 ^ 64) with (t + 2 ^ 64).
    + destruct (Z.ltb_spec (t + 2 ^ 64) (2 ^ 63)); lia.
    + apply Z.mod_unique with (q := -1); lia.
Qed.

(** The value loop reads back what the value loop of [WriteSample] wrote. *)
Lemma parse_values_write (vs : list Value) :
  Forall is_uint64 vs →
  parse_values (length vs) (concat (PutUint64 <$> vs)) = vs.
Proof.
  induction 1 as [|v vs Hv _ IH]; [done|].
  cbn [length fmap list_fmap concat parse_values].
  change valBytes with (length (PutUint64 v)).
  rewrite take_app_length, drop_app_length.
  rewrite Uint64_PutUint64 by done. by rewrite IH.
Qed.

Lemma length_values (vs : list Value) :
  length (concat (PutUint64 <$> vs)) = (8 * length vs)%nat.
Proof. induction vs as [|v vs IH]; [done|]. cbn [fmap list_fmap concat]. rewrite length_app, IH. simpl. lia. Qed.

End BinaryFacts.

Module BinaryReader.

Import GoStrings GoStringsFacts Binary BinaryFacts.

Lemma ReadFull_app (l k : list Byte.byte) :
  ReadFull (l ++ k) (length l) = (Ok l, k).
Proof.
  unfold ReadFull. rewrite length_app.
  destruct (Nat.leb_spec (length l) (length l + length k)); [|lia].
  by rewrite take_app_length, drop_app_length.
Qed.

Lemma ReadBytes_app (b Y : list Byte.byte) c :
  c ∉ b → ReadBytes (b ++ c :: Y) c = (Ok (b ++ [c]), Y).
Proof.
  intros Hc. unfold ReadBytes. rewrite IndexByte_app by done.
  replace (S (length b)) with (length (b ++ [c])) by (rewrite length_app; simpl; lia).
  replace (b ++ c :: Y) with ((b ++ [c]) ++ Y) by (by rewrite <-app_assoc).
  by rewrite take_app_length, drop_app_length.
Qed.

(** Reading a frame without tags: time and values. *)
Lemma ReadSampleData_plain h (P V rest : list Byte.byte) :
  length P = timeBytes → length V = (valBytes * length (Fields h))%nat →
  HasTags h = false →
  ReadSampleData h (P ++ V ++ rest) = (Ok (P ++ V), rest).
Proof.
  intros HP HV Ht. unfold ReadSampleData.
  rewrite <-HP, <-HV, <-length_app, app_assoc, ReadFull_app.
  by rewrite Ht.
Qed.

(** Reading a frame with a tag string [T]: both branches of the reader,
    the separator inside the first [minlen] bytes or after them. *)
Lemma ReadSampleData_tags h (P T V rest : list Byte.byte) :
  length P = timeBytes → length V = (valBytes * length (Fields h))%nat →
  binary_separator ∉ T → HasTags h = true →
  ReadSampleData h (P ++ (T ++ [binary_separator]) ++ V ++ rest)
  = (Ok (P ++ (T ++ [binary_separator]) ++ V), rest).
Proof.
  intros HP HV HT Ht. unfold ReadSampleData. rewrite Ht. cbn [negb].
  set (vl := (valBytes * length (Fields h))%nat) in *.
  rewrite <-(app_assoc T), <-(app_assoc T [binary_separator] V). cbn [app].
  destruct (decide (length T < vl)%nat) as [Hlt|Hge].
  - (* the separator is among the first [minlen] bytes *)
    assert (∃ m, vl = (length T + S m)%nat) as [m Hm] by (exists (vl - length T - 1)%nat; lia).
    assert (Hdata : take (timeBytes + vl) (P ++ T ++ binary_separator :: V ++ rest)
                    = P ++ T ++ binary_separator :: take m V).
    { rewrite take_app_add' by done. f_equal. rewrite Hm.
      rewrite take_app_add' by done. f_equal. cbn [take]. f_equal.
      apply take_app_le. lia. }
    assert (Hrest : drop (timeBytes + vl) (P ++ T ++ binary_separator :: V ++ rest)
                    = drop m V ++ rest).
    { rewrite drop_app_add' by done. rewrite Hm.
      rewrite drop_app_add' by done. cbn [drop]. apply drop_app_le. lia. }
    unfold ReadFull at 1. rewrite !length_app. cbn [length]. rewrite !length_app.
    destruct (Nat.leb_spec (timeBytes + vl)
                (length P + (length T + S (length V + length rest)))); [|lia].
    rewrite Hdata, Hrest.
    rewrite drop_app_length' by done. rewrite IndexByte_app by done.
    replace (length T + 1)%nat with (length (drop m V)) by (rewrite length_drop; lia).
    rewrite ReadFull_app. f_equal. f_equal.
    rewrite <-!app_assoc. cbn [app]. by rewrite take_drop.
  - (* the tag string fills the first [minlen] bytes *)
    assert (Hdata : take (timeBytes + vl) (P ++ T ++ binary_separator :: V ++ rest)
                    = P ++ take vl T).
    { rewrite take_app_add' by done. f_equal. apply take_app_le. lia. }
    assert (Hrest : drop (timeBytes + vl) (P ++ T ++ binary_separator :: V ++ rest)
                    = drop vl T ++ binary_separator :: V ++ rest).
    { rewrite drop_app_add' by done. apply drop_app_le. lia. }
    unfold ReadFull at 1. rewrite !length_app. cbn [length]. rewrite !length_app.
    destruct (Nat.leb_spec (timeBytes + vl)
                (length P + (length T + S (length V + length rest)))); [|lia].
    rewrite Hdata, Hrest.
    rewrite drop_app_length' by done.
    rewrite IndexByte_None by (intros Hin; apply HT; eapply subseteq_take; done).
    rewrite ReadBytes_app by (intros Hin; apply HT; eapply subseteq_drop; done).
    rewrite <-HV, ReadFull_app. f_equal. f_equal.
    rewrite <-!app_assoc. cbn [app].
    by rewrite (app_assoc (take _ T)), take_drop.
Qed.

End BinaryReader.

Module BinaryRoundTrip.

Import GoStrings GoStringsFacts Binary BinaryFacts BinaryReader.

Lemma clean_tag_field kv c :
  c ≠ tag_equals → free_of c kv.1 = true → free_of c kv.2 = true →
  free_of c (tag_field kv) = true.
Proof.
  intros Hc H1 H2. unfold tag_field.
  rewrite free_of_app, free_of_cons, H1, H2.
  apply Ascii.eqb_neq in Hc. rewrite Ascii.eqb_sym, Hc. done.
Qed.

Lemma free_of_Join c sep l :
  c ≠ sep → Forall (λ s, free_of c s = true) l → free_of c (Join l sep) = true.
Proof.
  intros Hc. induction 1 as [|x l Hx Hl IH]; [done|].
  destruct l as [|y l]; [done|].
  change (Join (x :: y :: l) sep) with (x +:+ String sep (Join (y :: l) sep)).
  rewrite free_of_app, free_of_cons, Hx, IH.
  apply Ascii.eqb_neq in Hc. rewrite Ascii.eqb_sym, Hc. done.
Qed.

Lemma parse_tag_field kv :
  free_of tag_equals kv.1 = true → parse_tag (tag_field kv) = Some kv.
Proof.
  intros Hk. unfold parse_tag, tag_field.
  rewrite cut_app_sep by done. by destruct kv.
Qed.

Lemma clean_sorted tags :
  clean_tags tags = true →
  Forall (λ kv, clean kv.1 = true ∧ clean kv.2 = true) (SortedTags tags).
Proof.
  unfold clean_tags, SortedTags. rewrite forallb_forall. intros H.
  apply Forall_forall. intros kv Hkv.
  rewrite merge_sort_Permutation in Hkv.
  apply andb_true_iff, H, list_elem_of_In, Hkv.
Qed.

Lemma clean_spec s :
  clean s = true →
  free_of tag_separator s = true ∧ free_of tag_equals s = true
  ∧ free_of newline s = true.
Proof. unfold clean. rewrite !andb_true_iff. tauto. Qed.

Lemma list_to_map_sorted (tags : gmap string string) :
  list_to_map (SortedTags tags) = tags.
Proof.
  unfold SortedTags.
  rewrite <-(list_to_map_to_list tags) at 2.
  apply list_to_map_proper.
  - rewrite merge_sort_Permutation. apply NoDup_fst_map_to_list.
  - apply merge_sort_Permutation.
Qed.

(** Parsing inverts the serialisation of clean tags. *)
Lemma ParseTagString_TagString tags :
  clean_tags tags = true → ParseTagString (TagString tags) = Some tags.
Proof.
  intros Hc. pose proof (clean_sorted _ Hc) as Hs.
  pose proof (list_to_map_sorted tags) as Hm.
  unfold ParseTagString, TagString.
  destruct (SortedTags tags) as [|kv l] eqn:El.
  - simpl in *. by subst.
  - set (fs := tag_field <$> kv :: l).
    assert (Hne : Join fs tag_separator ≠ ""%string).
    { apply Join_nonempty; [done|]. subst fs. apply Forall_fmap, Forall_true.
      intros [k v]. unfold tag_field. simpl. by destruct k. }
    apply String.eqb_neq in Hne. rewrite Hne.
    rewrite Split_Join; [|done|].
    + subst fs. rewrite mapM_fmap_Forall_Some; [by rewrite <-Hm|].
      eapply Forall_impl; [exact Hs|]. intros x [H1 _]. cbn beta.
      apply parse_tag_field. by apply clean_spec in H1 as (_ & ? & _).
    + subst fs. apply Forall_fmap. eapply Forall_impl; [exact Hs|].
      intros x [H1 H2]. cbn. apply clean_spec in H1 as (? & _ & _).
      apply clean_spec in H2 as (? & _ & _). by apply clean_tag_field.
Qed.

(** The serialisation of clean tags does not contain the binary separator. *)
Lemma TagString_no_separator tags :
  clean_tags tags = true →
  binary_separator ∉ String.list_byte_of_string (TagString tags).
Proof.
  intros Hc. apply (free_of_bytes newline). unfold TagString.
  apply free_of_Join; [done|]. apply Forall_fmap.
  eapply Forall_impl; [exact (clean_sorted _ Hc)|].
  intros x [H1 H2]. cbn. apply clean_spec in H1 as (_ & _ & ?).
  apply clean_spec in H2 as (_ & _ & ?). by apply clean_tag_field.
Qed.

Lemma ParseSample_tags h (P T V : list Byte.byte) :
  HasTags h = true → length P = timeBytes →
  length V = (valBytes * length (Fields h))%nat → binary_separator ∉ T →
  ParseSample h (P ++ (T ++ [binary_separator]) ++ V)
  = match ParseTagString (String.string_of_list_byte T) with
    | None => Err ErrBadTag
    | Some tags =>
        Ok (mkSample (int64_of_uint64 (Uint64 P))
              (parse_values (length (Fields h)) V) tags)
    end.
Proof.
  intros Hh HP HV HT. unfold ParseSample. rewrite Hh. cbv zeta.
  rewrite !(take_app_length' P), !(drop_app_length' P) by done.
  rewrite !length_app, HP, HV. cbn [length]. unfold timeBytes, valBytes.
  destruct (Nat.ltb_spec (8 + (length T + 1 + 8 * length (Fields h)))
              (8 + length (Fields h) * 8)); [lia|].
  rewrite <-(app_assoc T). cbn [app]. rewrite IndexByte_app by done.
  destruct (Nat.eqb_spec (length T + 1 + 8 * length (Fields h))
              (length T + 1 + length (Fields h) * 8)); [|lia].
  cbn [negb]. rewrite take_app_length.
  replace (length T + 1)%nat with (length (T ++ [binary_separator]))
    by (by rewrite length_app).
  rewrite (app_assoc _ [binary_separator] V : _ ++ binary_separator :: V = _).
  by rewrite drop_app_length.
Qed.

Lemma ParseSample_plain h (P V : list Byte.byte) :
  HasTags h = false → length P = timeBytes →
  length V = (valBytes * length (Fields h))%nat →
  ParseSample h (P ++ V)
  = Ok (mkSample (int64_of_uint64 (Uint64 P))
          (parse_values (length (Fields h)) V) ∅).
Proof.
  intros Hh HP HV. unfold ParseSample. rewrite Hh. cbv zeta.
  rewrite !(take_app_length' P), !(drop_app_length' P) by done.
  rewrite !length_app, HP, HV. unfold timeBytes, valBytes.
  destruct (Nat.ltb_spec (8 + 8 * length (Fields h))
              (8 + length (Fields h) * 8)); [lia|]. done.
Qed.

Lemma ParseSample_WriteSample h s :
  length (Values s) = length (Fields h) →
  is_int64 (Time s) → Forall is_uint64 (Values s) →
  clean_tags (Tags s) = true →
  ParseSample h (WriteSample s h) = Ok (read_back h s).
Proof.
  intros Hlen Ht Hv Hc. unfold WriteSample, read_back.
  assert (HV : length (concat (PutUint64 <$> Values s))
               = (valBytes * length (Fields h))%nat)
    by (rewrite length_values; unfold valBytes; lia).
  assert (Htime : int64_of_uint64 (Uint64 (PutUint64 (uint64_of_int64 (Time s))))
                  = Time s).
  { rewrite Uint64_PutUint64, int64_uint64; [done..|]. by apply Z.mod_pos_bound. }
  destruct (HasTags h) eqn:Eh.
  - rewrite ParseSample_tags by (done || by apply TagString_no_separator).
    rewrite String.string_of_list_byte_of_string.
    rewrite ParseTagString_TagString by done.
    by rewrite Htime, <-Hlen, parse_values_write.
  - cbn [app]. rewrite ParseSample_plain by done.
    by rewrite Htime, <-Hlen, parse_values_write.
Qed.

(** C1. Binary sample round trip. For every header [h] and every sample [s]
    with as many values as [h] has fields and with tags free of the separator
    characters (space, [=], and the newline that separates the tag string
    from the values), whatever bytes [rest] follow in the stream:
    [ReadSampleData] reads exactly the bytes [WriteSample] wrote and leaves
    [rest], and [ParseSample] turns them into a sample with the same
    nanosecond timestamp, the same tags (when [h] has tags; hence the same
    tag string) and the same value bit patterns in the same order. *)
Theorem binary_round_trip (h : Header) (s : Sample Value) (rest : Reader) :
  length (Values s) = length (Fields h) →
  is_int64 (Time s) →
  Forall is_uint64 (Values s) →
  clean_tags (Tags s) = true →
  ReadSampleData h (WriteSample s h ++ rest) = (Ok (WriteSample s h), rest)
  ∧ ∃ s', ParseSample h (WriteSample s h) = Ok s'
      ∧ Time s' = Time s
      ∧ Values s' = Values s
      ∧ (HasTags h = true →
         Tags s' = Tags s ∧ TagString (Tags s') = TagString (Tags s)).
Proof.
  intros Hlen Ht Hv Hc. split.
  - unfold WriteSample. rewrite <-!app_assoc.
    destruct (HasTags h) eqn:Eh.
    + apply ReadSampleData_tags; [done| |by apply TagString_no_separator|done].
      rewrite length_values. unfold valBytes. lia.
    + cbn [app]. apply ReadSampleData_plain; [done| |done].
      rewrite length_values. unfold valBytes. lia.
  - exists (read_back h s). split; [by apply ParseSample_WriteSample|].
    unfold read_back. cbn. split; [done|]. split; [done|].
    intros Hh. by rewrite Hh.
Qed.

End BinaryRoundTrip.

Module BinaryExamples.

Import GoStrings Binary BinaryRoundTrip BinaryData.

Example sample_a_bytes :
  WriteSample sample_a cpu_mem
  = [ Byte.x00; Byte.x00; Byte.x00; Byte.x00; Byte.x3b; Byte.x9a; Byte.xca; Byte.x00 ]
    ++ String.list_byte_of_string "host=a" ++ [Byte.x0a]
    ++ [ Byte.x3f; Byte.xe0; Byte.x00; Byte.x00; Byte.x00; Byte.x00; Byte.x00; Byte.x00;
         Byte.x40; Byte.x90; Byte.x00; Byte.x00; Byte.x00; Byte.x00; Byte.x00; Byte.x00 ].
Proof. vm_compute. reflexivity. Qed.

Example sample_a_read_back :
  ParseSample cpu_mem (WriteSample sample_a cpu_mem) = Ok sample_a.
Proof. vm_compute. reflexivity. Qed.

(** Two tags come out in ascending key order whatever the map order. *)
Example two_tags_sorted :
  TagString {[ "zone"%string := "eu"%string; "host"%string := "a"%string ]}
  = "host=a zone=eu"%string.
Proof. vm_compute. reflexivity. Qed.

(** A newline inside a tag value breaks the frame: the reader takes the
    newline of the value for the end of the tag string. *)
Example newline_in_tag_breaks_frame :
  ParseSample cpu_mem
    (WriteSample (mkSample 0 [0; 0] {[ "k"%string := String newline "" ]}) cpu_mem)
  = Err ErrWrongLen.
Proof. vm_compute. reflexivity. Qed.

Lemma binary_round_trip_witness :
  let h := cpu_mem in
  let s := sample_a in
  let rest := [Byte.x01; Byte.x02] in
  ReadSampleData h (WriteSample s h ++ rest) = (Ok (WriteSample s h), rest)
  ∧ ∃ s', ParseSample h (WriteSample s h) = Ok s'
      ∧ Time s' = Time s
      ∧ Values s' = Values s
      ∧ (HasTags h = true →
         Tags s' = Tags s ∧ TagString (Tags s') = TagString (Tags s)).
Proof.
  apply (binary_round_trip cpu_mem sample_a [Byte.x01; Byte.x02]).
  - reflexivity.
  - unfold is_int64. simpl. lia.
  - repeat constructor; unfold is_uint64; simpl; lia.
  - vm_compute. reflexivity.
Defined.

End BinaryExamples.

(** ** The batch processor *)

Module BatchFacts.

Import Batch.

Section Facts.

Context {V : Type}.
Implicit Types (p : BatchProcessor (V:=V)) (step : BatchProcessingStep (V:=V)).

Lemma logged_foldl p (evs : list LogEvent) :
  logged (foldl (λ p ev, log ev p) p evs) = logged p ++ evs.
Proof.
  revert p. induction evs as [|ev evs IH]; intros p; simpl.
  - by rewrite app_nil_r.
  - rewrite IH. simpl. by rewrite <-app_assoc.
Qed.

Lemma kept_refl p : kept p p.
Proof. by repeat split. Qed.

Lemma kept_trans p1 p2 p3 : kept p1 p2 → kept p2 p3 → kept p1 p3.
Proof.
  unfold kept. intros (? & ? & ? & ? & ? & ? & ? & ?) (? & ? & ? & ? & ? & ? & ? & ?).
  repeat split; congruence.
Qed.

(** Logging changes the log only. *)
Lemma foldl_log_kept p (evs : list LogEvent) :
  let p' := foldl (λ p ev, log ev p) p evs in
  kept p p' ∧ emitted p' = emitted p.
Proof.
  revert p. induction evs as [|ev evs IH]; intros p; [by split; [apply kept_refl|]|].
  cbn [foldl]. cbn zeta in *. destruct (IH (log ev p)) as [Hk He]. split.
  - eapply kept_trans; [|exact Hk]. by repeat split.
  - by rewrite He.
Qed.

(** A chain that hands on a non-empty batch has executed all of its steps,
    and the loop goes on with the steps that follow. *)
Lemma executeSteps_loop_app (pre rest : list (BatchProcessingStep (V:=V)))
    samples header s1 h1 evs :
  executeSteps_loop pre samples header = Returns ((s1, h1, None), evs) →
  s1 ≠ [] →
  executed evs = String <$> pre
  ∧ executeSteps_loop (pre ++ rest) samples header
    = match executeSteps_loop rest s1 h1 with
      | Returns (r, evs') => Returns (r, evs ++ evs')
      | Panics => Panics
      end.
Proof.
  revert samples header evs.
  induction pre as [|step pre IH]; intros samples header evs Hrun Hne.
  - simpl in Hrun. injection Hrun as -> -> <-. split; [done|].
    simpl. by destruct (executeSteps_loop rest s1 h1) as [[r evs']|].
  - simpl in Hrun. destruct header as [h|]; [|done].
    destruct (length samples =? 0)%nat eqn:Elen.
    { injection Hrun as -> _ _. apply Nat.eqb_eq in Elen.
      by destruct s1. }
    destruct (ProcessBatch step h samples) as [[header' samples'] err] eqn:Estep.
    destruct err as [msg|]; [done|].
    destruct (executeSteps_loop pre samples' header') as [[r evs']|] eqn:Epre; [|done].
    injection Hrun as -> <-.
    destruct (IH _ _ _ Epre Hne) as [Hex Happ]. split.
    + simpl. by rewrite Hex.
    + simpl. rewrite Elen, Estep, Happ.
      by destruct (executeSteps_loop rest s1 h1) as [[r evs'']|].
Qed.

(** On an empty batch the loop executes no step. *)
Lemma executeSteps_loop_empty (steps : list (BatchProcessingStep (V:=V))) h :
  ∃ evs, executeSteps_loop steps [] (Some h) = Returns (([], Some h, None), evs)
         ∧ executed evs = [].
Proof. destruct steps as [|step rest]; simpl; eauto. Qed.

(** C3 (amended). Batch step chain short-circuits on empty batches. In a
    chain [pre ++ step :: post], let the steps of [pre] hand a non-empty
    batch [s1] to [step], and let [step] return an empty sample set with a
    non-nil header and no error. Then the flush returns no error, the steps
    executed for it are those of [pre] and [step] and none of [post], and
    nothing is handed downstream. *)
Theorem empty_batch_stops_chain
    (pre post : list (BatchProcessingStep (V:=V))) step
    (sink : Sample V → Header → option string)
    (header h1 hout : Header) (s1 : list (Sample V)) evs p :
  executeSteps_loop pre (samples p) (Some header) = Returns ((s1, Some h1, None), evs) →
  s1 ≠ [] →
  ProcessBatch step h1 s1 = (Some hout, [], None) →
  ∃ p', executeFlush (pre ++ step :: post) sink (Some header) p = Returns (None, p')
        ∧ executed (logged p')
          = executed (logged p) ++ (String <$> pre) ++ [String step]
        ∧ emitted p' = emitted p.
Proof.
  intros Hpre Hne Hstep.
  destruct (executeSteps_loop_app pre (step :: post) _ _ _ _ _ Hpre Hne)
    as [Hex Happ].
  assert (Hin : samples p ≠ []).
  { intros Hnil. rewrite Hnil in Hpre. destruct pre; simpl in Hpre.
    - by injection Hpre as <-.
    - by injection Hpre as <-. }
  destruct (executeSteps_loop_empty post hout) as (evs' & Hpost & Hex').
  cbn [executeSteps_loop] in Happ.
  destruct (Nat.eqb_spec (length s1) 0) as [Hl|_];
    [by apply length_zero_iff_nil in Hl|].
  rewrite Hstep, Hpost in Happ.
  unfold executeFlush, executeSteps, bindM, get, modify, logging.
  destruct (Nat.eqb_spec (length (samples p)) 0) as [Hl|_];
    [by apply length_zero_iff_nil in Hl|].
  cbn [orb negb bool_decide decide_rel]. rewrite bool_decide_true by eauto.
  cbn [negb]. rewrite length_app. cbn [length].
  destruct (Nat.ltb_spec 0 (length pre + S (length post))) as [_|?]; [|lia].
  cbn [samples set_samples log]. rewrite Happ.
  cbn [forward ret]. eexists. split; [reflexivity|].
  cbn [logged emitted log]. split.
  - rewrite logged_foldl. cbn [logged].
    unfold executed in *. rewrite !omap_app, Hex. cbn [omap list_omap].
    rewrite Hex'. cbn [app logged log set_samples].
    rewrite omap_app. cbn [omap list_omap]. by rewrite !app_nil_r.
  - by rewrite (proj2 (foldl_log_kept _ _)).
Qed.

(** Handing samples downstream never panics and keeps the processor. *)
Lemma forward_kept (sink : Sample V → Header → option string) ss h p :
  ∃ r p', forward sink ss h p = Returns (r, p') ∧ kept p p'
          ∧ (∀ e, r = Some e → is_auto_flush_error e = false).
Proof.
  revert p. induction ss as [|s ss IH]; intros p; cbn [forward].
  - exists None, p. split; [done|]. split; [apply kept_refl|done].
  - destruct (sink s h) as [msg|].
    + eexists _, p. split; [done|]. split; [apply kept_refl|].
      by intros e [= <-].
    + unfold bindM, modify. destruct (IH (emit s h p)) as (r & p' & -> & Hk & He).
      exists r, p'. split; [done|]. split; [|done].
      eapply kept_trans; [|exact Hk]. by repeat split.
Qed.

(** The error of a step chain is the error of a step. *)
Lemma executeSteps_loop_error (steps : list (BatchProcessingStep (V:=V)))
    ss ho ss' ho' err evs :
  executeSteps_loop steps ss ho = Returns ((ss', ho', err), evs) →
  ∀ e, err = Some e → is_auto_flush_error e = false.
Proof.
  revert ss ho evs. induction steps as [|st steps IH]; intros ss ho evs;
    cbn [executeSteps_loop].
  - intros ? e ?. by simplify_eq.
  - destruct ho as [h|]; [|done].
    destruct (length ss =? 0)%nat; [intros ? e ?; by simplify_eq|].
    destruct (ProcessBatch st h ss) as [[h' ss2] [msg|]].
    + intros ? e ?. by simplify_eq.
    + destruct (executeSteps_loop steps ss2 h') as [[[[ss3 ho3] err3] evs']|] eqn:E;
        [|done].
      intros ?. simplify_eq. by eapply IH.
Qed.

(** What a flush does to the processor: nothing when there is nothing to
    flush; otherwise it takes the samples, and its error is a step error, the
    nil-header error or a downstream error. *)
Lemma executeFlush_spec (steps : list (BatchProcessingStep (V:=V)))
    (sink : Sample V → Header → option string) header p r p' :
  executeFlush steps sink header p = Returns (r, p') →
  (r = None ∧ p' = p ∧ (samples p = [] ∨ header = None))
  ∨ (samples p ≠ [] ∧ kept (set_samples [] p) p'
     ∧ ∀ e, r = Some e → is_auto_flush_error e = false).
Proof.
  unfold executeFlush, bindM, get.
  destruct (Nat.eqb_spec (length (samples p)) 0) as [Hl|Hl]; cbn [orb].
  { intros [= <- <-]. left. apply length_zero_iff_nil in Hl. auto. }
  destruct header as [h|]; cbn.
  2:{ intros [= <- <-]. left. auto. }
  intros Hrun. right. split; [by intros Hn; rewrite Hn in Hl|].
  assert (Hfwd : ∀ q ss h0, kept (set_samples [] p) q →
    forward sink ss h0 (log (LogFlushing (length ss) (length (Fields h0))) q)
      = Returns (r, p') →
    kept (set_samples [] p) p' ∧ ∀ e, r = Some e → is_auto_flush_error e = false).
  { intros q ss h0 Hq Hf.
    destruct (forward_kept sink ss h0 (log (LogFlushing (length ss)
                (length (Fields h0))) q)) as (r0 & q' & Hf' & Hk & He).
    rewrite Hf' in Hf. injection Hf as <- <-. split; [|done].
    eapply kept_trans; [exact Hq|]. eapply kept_trans; [|exact Hk].
    by repeat split. }
  revert Hrun. unfold modify, executeSteps, bindM, modify, logging.
  destruct (0 <? length steps)%nat.
  - destruct (executeSteps_loop steps (samples p) (Some h))
      as [[[[ss ho] err] evs]|] eqn:E; [|done].
    pose proof (executeSteps_loop_error _ _ _ _ _ _ _ E) as Hkind.
    destruct err as [e|]; [|destruct ho as [h0|]].
    + intros [= <- <-]. split; [|intros e' [= <-]; by apply Hkind].
      eapply kept_trans; [|apply foldl_log_kept]. by repeat split.
    + apply Hfwd. eapply kept_trans; [|apply foldl_log_kept]. by repeat split.
    + intros [= <- <-]. split; [|by intros e' [= <-]].
      eapply kept_trans; [|apply foldl_log_kept]. by repeat split.
  - apply Hfwd, kept_refl.
Qed.

(** A triggered flush: the flush goroutine runs the flush of the published
    header and the caller takes its error. The stash of the automatic flush
    is not touched. *)
Lemma triggerFlush_spec (steps : list (BatchProcessingStep (V:=V))) timeout
    (sink : Sample V → Header → option string) h sd t p r p' :
  triggerFlush steps timeout sink (Some h) sd t p = Returns (r, p') →
  lastAutoFlushError p' = lastAutoFlushError p
  ∧ (samples p = [] → r = None)
  ∧ ∀ e, r = Some e → is_auto_flush_error e = false.
Proof.
  unfold triggerFlush, waitAndExecuteFlush, bindM, modify, get, ret.
  cbn [flushHeader set_flushHeader set_shutdown shutdown].
  rewrite bool_decide_true by eauto. cbn [negb andb].
  set (q := set_shutdown sd (set_flushHeader (Some h) p)).
  destruct (executeFlush steps sink (Some h) q) as [[r0 q']|] eqn:E; [|done].
  cbn [flushError set_flushError set_flushHeader]. intros [= <- <-].
  cbn [lastAutoFlushError set_flushError set_flushHeader].
  apply executeFlush_spec in E as [(-> & -> & _)|(Hne & Hk & He)].
  - done.
  - destruct Hk as (_ & _ & _ & -> & _). by split.
Qed.

Lemma triggerFlush_returns (steps : list (BatchProcessingStep (V:=V))) timeout
    (sink : Sample V → Header → option string) h sd t p :
  samples p = [] →
  ∃ p', triggerFlush steps timeout sink (Some h) sd t p = Returns (None, p')
        ∧ lastAutoFlushError p' = lastAutoFlushError p.
Proof.
  intros Hs. unfold triggerFlush, waitAndExecuteFlush, bindM, modify, get, ret.
  cbn [flushHeader set_flushHeader set_shutdown shutdown].
  rewrite bool_decide_true by eauto. cbn [negb andb].
  unfold executeFlush, bindM, get, ret. cbn [samples set_shutdown set_flushHeader].
  rewrite Hs. cbn. eauto.
Qed.

Lemma Sample_parts (steps : list (BatchProcessingStep (V:=V))) timeout tag
    (sink : Sample V → Header → option string) t sample header p :
  Sample_ steps timeout tag sink t sample header p
  = match (if wants_flush tag sample header p
           then triggerFlush steps timeout sink (LastHeader p) false t
                  (noted tag sample header p)
           else Returns (None, noted tag sample header p)) with
    | Returns (err, q) => Returns (finish timeout t sample err q)
    | Panics => Panics
    end.
Proof.
  unfold Sample_, InitializedHeaderChanged, wants_flush, noted, finish,
    bindM, get, modify, ret.
  cbn [LastHeader set_LastHeader].
  destruct (LastHeader p) as [last|]; destruct (negb (String.eqb tag ""));
    cbn [bool_decide decide_rel];
    repeat match goal with
           | |- context [if ?b then _ else _] =>
               lazymatch b with
               | (0 <? _) => fail
               | _ => destruct b eqn:?; cbn [negb orb]
               end
           end;
    try match goal with
        | |- context [triggerFlush ?a ?b ?c ?d ?e ?f ?g] =>
            destruct (triggerFlush a b c d e f g) as [[? ?]|]
        end;
    try reflexivity; destruct (0 <? timeout); reflexivity.
Qed.

Lemma wants_flush_header tag sample header p :
  wants_flush tag sample header p = true → ∃ last, LastHeader p = Some last.
Proof.
  unfold wants_flush. destruct (LastHeader p) as [last|]; [eauto|].
  rewrite bool_decide_false by (intros [? [=]]). by destruct (negb _).
Qed.

Lemma noted_fields tag sample header p :
  samples (noted tag sample header p) = samples p
  ∧ lastAutoFlushError (noted tag sample header p) = lastAutoFlushError p.
Proof. unfold noted. by destruct (negb _). Qed.

(** [Sample] on a processor without buffered samples: a flush it triggers
    has nothing to flush, and with a flush timeout configured it returns the
    stash of the automatic flush and clears it. *)
Lemma Sample_returns_stash (steps : list (BatchProcessingStep (V:=V))) timeout tag
    (sink : Sample V → Header → option string) t sample header p :
  0 < timeout → samples p = [] →
  ∃ p', Sample_ steps timeout tag sink t sample header p
        = Returns (lastAutoFlushError p, p')
        ∧ lastAutoFlushError p' = None.
Proof.
  intros Ht Hs. apply Z.ltb_lt in Ht. rewrite Sample_parts.
  destruct (noted_fields tag sample header p) as [Hn1 Hn2].
  destruct (wants_flush tag sample header p) eqn:Ew.
  - apply wants_flush_header in Ew as [last ->].
    destruct (triggerFlush_returns steps timeout sink last false t
                (noted tag sample header p)) as (q & -> & Hq); [congruence|].
    unfold finish. rewrite Ht, Hq, Hn2. eauto.
  - unfold finish. rewrite Ht, Hn2. eauto.
Qed.

(** [Sample] on a processor without a stash returns the error of the
    flush it triggers or nothing: never the error of an automatic flush. *)
Lemma Sample_without_stash (steps : list (BatchProcessingStep (V:=V))) timeout tag
    (sink : Sample V → Header → option string) t sample header p r p' :
  lastAutoFlushError p = None →
  Sample_ steps timeout tag sink t sample header p = Returns (r, p') →
  ∀ e, r = Some e → is_auto_flush_error e = false.
Proof.
  intros Hn. rewrite Sample_parts.
  destruct (noted_fields tag sample header p) as [Hn1 Hn2].
  destruct (wants_flush tag sample header p) eqn:Ew.
  - apply wants_flush_header in Ew as [last ->].
    destruct (triggerFlush steps timeout sink (Some last) false t
                (noted tag sample header p)) as [[err q]|] eqn:E; [|done].
    apply triggerFlush_spec in E as (Hq & _ & He). rewrite Hn2, Hn in Hq.
    unfold finish. destruct (0 <? timeout); intros [= <- _]; [|done].
    destruct err; [done|]. by rewrite Hq.
  - unfold finish. destruct (0 <? timeout); intros [= <- _]; [|done].
    by rewrite Hn2, Hn.
Qed.

(** The order of events the log line of the automatic flush announces, when
    no [Sample()] runs during the flush. Let the flush goroutine wake up by
    timeout (no flush is pending, no shutdown, the flush timeout has
    elapsed), let its automatic flush fail with [e], and let it finish
    [waitAndExecuteFlush] before the next [Sample()] starts. Then the error
    is stashed in [lastAutoFlushError]; the next [Sample()] call, whatever
    its sample and header, returns the stashed error and clears the stash;
    and the [Sample()] call after that returns no error of an automatic
    flush. *)
Theorem auto_flush_error_returned_once
    (steps : list (BatchProcessingStep (V:=V))) timeout tag
    (sink : Sample V → Header → option string) p now done_at e :
  flushHeader p = None → shutdown p = false →
  flushTimedOut timeout now p = true →
  returned (executeFlush steps sink (LastHeader p) p) = Returns (Some e) →
  ∃ p1,
    waitAndExecuteFlush steps timeout sink now done_at p = Returns (Some true, p1)
    ∧ lastAutoFlushError p1 = Some (ErrPreviousAutoFlush e)
    ∧ ∀ t sample header, ∃ p2,
        Sample_ steps timeout tag sink t sample header p1
        = Returns (Some (ErrPreviousAutoFlush e), p2)
        ∧ lastAutoFlushError p2 = None
        ∧ ∀ t' sample' header' r p3,
            Sample_ steps timeout tag sink t' sample' header' p2 = Returns (r, p3) →
            ∀ e', r = Some e' → is_auto_flush_error e' = false.
Proof.
  intros Hfh Hsd Hto Hfail.
  assert (Ht : 0 < timeout).
  { unfold flushTimedOut in Hto. destruct (lastSample p); [|done].
    destruct (Z.leb_spec timeout 0); [done|lia]. }
  destruct (executeFlush steps sink (LastHeader p) p) as [[r pa]|] eqn:E; [|done].
  injection Hfail as ->.
  pose proof (executeFlush_spec _ _ _ _ _ _ E) as [(? & _)|(_ & Hk & _)]; [done|].
  destruct Hk as (_ & Hsamples & Hshut & _).
  eexists. split; [|split].
  - unfold waitAndExecuteFlush, bindM, get, modify, ret.
    rewrite Hfh, Hsd, Hto. rewrite bool_decide_false by (intros [? [=]]).
    cbn [negb andb]. rewrite E. cbn [shutdown set_flushHeader set_lastSample
      set_lastAutoFlushError log]. rewrite Hshut. cbn [shutdown set_samples negb].
    rewrite Hsd. reflexivity.
  - reflexivity.
  - intros t sample header.
    edestruct (Sample_returns_stash steps timeout tag sink t sample header)
      as (p2 & Hs & Hcl); [exact Ht| |].
    2:{ exists p2. split; [exact Hs|]. split; [exact Hcl|].
        intros t' sample' header' r p3 Hs'.
        by eapply Sample_without_stash. }
    cbn. by rewrite Hsamples.
Qed.

(** The two parts of [executeFlush], run one after the other, are
    [executeFlush]. *)
Lemma executeFlush_cut (steps : list (BatchProcessingStep (V:=V)))
    (sink : Sample V → Header → option string) header p :
  executeFlush steps sink header p
  = match executeFlush_take header p with
    | Returns (Some ss, q) => executeFlush_rest steps sink ss header q
    | Returns (None, q) => Returns (None, q)
    | Panics => Panics
    end.
Proof.
  unfold executeFlush, executeFlush_take, executeFlush_rest, bindM, get, modify, ret.
  by destruct (_ || _).
Qed.

(** So are the two parts of the automatic flush, when the wait ends by
    timeout. *)
Lemma waitAndExecuteFlush_cut (steps : list (BatchProcessingStep (V:=V))) timeout
    (sink : Sample V → Header → option string) now done_at p :
  flushHeader p = None → shutdown p = false → flushTimedOut timeout now p = true →
  waitAndExecuteFlush steps timeout sink now done_at p
  = match auto_take p with
    | Returns ((header, taken), q) =>
        match auto_finish steps sink header taken done_at q with
        | Returns (b, q') => Returns (Some b, q')
        | Panics => Panics
        end
    | Panics => Panics
    end.
Proof.
  intros Hfh Hsd Hto.
  unfold waitAndExecuteFlush, auto_take, auto_finish.
  unfold bindM at 1 2. unfold get at 1.
  rewrite Hfh, Hsd, Hto. rewrite bool_decide_false by (intros [? [=]]).
  cbn [negb andb]. unfold bindM at 1 2. rewrite executeFlush_cut.
  unfold bindM, get, ret, modify.
  destruct (executeFlush_take (LastHeader p) p) as [[[ss|] q]|]; [|done..].
  destruct (executeFlush_rest steps sink ss (LastHeader p) q) as [[[e|] q']|]; done.
Qed.

(** And the two parts of [Sample()]. *)
Lemma Sample_cut (steps : list (BatchProcessingStep (V:=V))) timeout tag
    (sink : Sample V → Header → option string) now sample header p :
  Sample_ steps timeout tag sink now sample header p
  = match Sample_read steps timeout tag sink now sample header p with
    | Returns (err, q) => Sample_write timeout sample err q
    | Panics => Panics
    end.
Proof.
  unfold Sample_, Sample_read, Sample_write, bindM, get, modify, ret.
  repeat match goal with
         | |- context [match ?m ?q with Returns _ => _ | Panics => _ end] =>
             lazymatch m with
             | InitializedHeaderChanged _ => destruct (m q) as [[? ?]|]
             | triggerFlush _ _ _ _ _ _ => destruct (m q) as [[? ?]|]
             end
         | |- context [if ?b then _ else _] => destruct b
         end; try reflexivity.
Qed.

(** A schedule that lets each goroutine finish what it has begun is the
    functions run one after the other: the automatic flush is the wake-up by
    timeout of [waitAndExecuteFlush], and [Sample()] in two parts is
    [Sample()]. *)
Lemma run_auto_flush (steps : list (BatchProcessingStep (V:=V))) timeout tag
    (sink : Sample V → Header → option string) now done_at p :
  flushHeader p = None → shutdown p = false → flushTimedOut timeout now p = true →
  run steps timeout tag sink [AutoTake now; AutoFinish done_at] (at_rest p)
  = Some match waitAndExecuteFlush steps timeout sink now done_at p with
         | Returns (_, p') => Returns (at_rest p', [])
         | Panics => Panics
         end.
Proof.
  intros Hfh Hsd Hto. rewrite waitAndExecuteFlush_cut by done.
  cbn [run step at_rest shared flusher caller].
  rewrite Hfh, Hsd, Hto. rewrite !bool_decide_false by (intros [? [=]]).
  cbn [negb andb].
  destruct (auto_take p) as [[[header taken] q]|]; [|done].
  cbn [step flusher shared caller].
  by destruct (auto_finish steps sink header taken done_at q) as [[b q']|].
Qed.

Lemma run_sample (steps : list (BatchProcessingStep (V:=V))) timeout tag
    (sink : Sample V → Header → option string) now sample header g :
  run steps timeout tag sink [SampleRead now sample header; SampleWrite] g
  = run steps timeout tag sink [CallSample now sample header] g.
Proof.
  cbn [run step]. destruct (_ && _); [|done]. rewrite Sample_cut.
  destruct (Sample_read steps timeout tag sink now sample header (shared g))
    as [[err q]|]; [|done].
  cbn [step caller shared flusher].
  by destruct (Sample_write timeout sample err q) as [[err' q']|].
Qed.

(** [Sample] on a processor without a stash leaves it without one. *)
Lemma Sample_leaves_no_stash (steps : list (BatchProcessingStep (V:=V))) timeout tag
    (sink : Sample V → Header → option string) t sample header p r p' :
  lastAutoFlushError p = None →
  Sample_ steps timeout tag sink t sample header p = Returns (r, p') →
  lastAutoFlushError p' = None.
Proof.
  intros Hn. rewrite Sample_parts.
  destruct (noted_fields tag sample header p) as [_ Hn2].
  assert (Hfin : ∀ err q, lastAutoFlushError q = None →
            lastAutoFlushError (finish timeout t sample err q).2 = None).
  { intros err q Hq. unfold finish. by destruct (0 <? timeout). }
  destruct (wants_flush tag sample header p) eqn:Ew.
  - apply wants_flush_header in Ew as [last ->].
    destruct (triggerFlush steps timeout sink (Some last) false t
                (noted tag sample header p)) as [[err q]|] eqn:E; [|done].
    apply triggerFlush_spec in E as (Hq & _). rewrite Hn2, Hn in Hq.
    intros [= Hf]. specialize (Hfin err q Hq). by rewrite Hf in Hfin.
  - intros [= Hf]. rewrite <-Hn2 in Hn. specialize (Hfin None _ Hn).
    by rewrite Hf in Hfin.
Qed.

(** Calls of [Sample()] on a processor without a stash, with the flush
    goroutine in its wait: none returns the error of an automatic flush. *)
Lemma calls_without_stash (steps : list (BatchProcessingStep (V:=V))) timeout tag
    (sink : Sample V → Header → option string) schedule g g' errs :
  forallb is_call schedule = true →
  lastAutoFlushError (shared g) = None →
  run steps timeout tag sink schedule g = Some (Returns (g', errs)) →
  Forall (λ r, ∀ e, r = Some e → is_auto_flush_error e = false) errs.
Proof.
  revert g errs. induction schedule as [|a schedule IH]; intros g errs Hc Hn;
    cbn [run forallb] in *.
  - intros [= <- <-]. constructor.
  - apply andb_true_iff in Hc as [Ha Hc]. destruct a as [| |t sample header| |]; try done.
    cbn [step]. destruct (_ && _); [|done].
    destruct (Sample_ steps timeout tag sink t sample header (shared g))
      as [[r p']|] eqn:E; [|done].
    destruct (run steps timeout tag sink schedule _) as [[[g2 errs2]|]|] eqn:Er;
      [|done..].
    intros [= <- <-]. cbn [app]. constructor.
    + by eapply Sample_without_stash.
    + eapply IH; [done| |exact Er]. cbn [shared].
      by eapply Sample_leaves_no_stash.
Qed.

End Facts.

End BatchFacts.

Module BatchExamples.

Import Batch BatchFacts BatchData.

Lemma empty_batch_stops_chain_witness :
  ∃ p', executeFlush ([keep] ++ drop_all :: [failing]) accept (Some hdr) buffered
        = Returns (None, p')
        ∧ executed (logged p')
          = executed (logged buffered) ++ (String <$> [keep]) ++ [String drop_all]
        ∧ emitted p' = emitted buffered.
Proof.
  apply (empty_batch_stops_chain [keep] [failing] drop_all accept hdr hdr hdr
           [s0] [LogExecuting "keep" 1 1] buffered).
  - reflexivity.
  - discriminate.
  - reflexivity.
Defined.

(** A step that returns an empty sample set and a nil header: the flush
    fails with the nil-header error. *)
Lemma empty_batch_nil_header_fails :
  ProcessBatch drop_header hdr [s0] = (None, [], None)
  ∧ returned (executeFlush [drop_header] accept (Some hdr) buffered)
    = Returns (Some (ErrNilHeader 0)).
Proof. split; reflexivity. Qed.

(** With a further step in the chain the log line of the skipped steps
    dereferences the nil header. *)
Example empty_batch_nil_header_panics :
  returned (executeFlush [drop_header; keep] accept (Some hdr) buffered) = Panics.
Proof. reflexivity. Qed.

Lemma auto_flush_error_returned_once_witness :
  ∃ p1,
    waitAndExecuteFlush [failing] 10 accept 100 101 buffered = Returns (Some true, p1)
    ∧ lastAutoFlushError p1 = Some (ErrPreviousAutoFlush (StepFailed "boom"))
    ∧ ∀ t sample header, ∃ p2,
        Sample_ [failing] 10 "" accept t sample header p1
        = Returns (Some (ErrPreviousAutoFlush (StepFailed "boom")), p2)
        ∧ lastAutoFlushError p2 = None
        ∧ ∀ t' sample' header' r p3,
            Sample_ [failing] 10 "" accept t' sample' header' p2 = Returns (r, p3) →
            ∀ e', r = Some e' → is_auto_flush_error e' = false.
Proof.
  apply (auto_flush_error_returned_once [failing] 10 "" accept buffered 100 101
           (StepFailed "boom")); reflexivity.
Defined.

(** The stashed error comes back from the next [Sample] and not from the
    one after it, when the flush has finished before that [Sample] starts. *)
Example stash_returned_then_cleared :
  match waitAndExecuteFlush [failing] 10 accept 100 101 buffered with
  | Returns (_, p1) =>
      match Sample_ [failing] 10 "" accept 102 s0 hdr p1 with
      | Returns (r1, p2) =>
          (r1, returned (Sample_ [failing] 10 "" accept 103 s0 hdr p2))
      | Panics => (None, Panics)
      end
  | Panics => (None, Panics)
  end = (Some (ErrPreviousAutoFlush (StepFailed "boom")), Returns None).
Proof. reflexivity. Qed.

(** The same events as a schedule of the two goroutines, the flush
    goroutine first: the call that follows the failed flush returns its
    error. *)
Example flush_then_sample :
  returned_errors
    (run [failing] 10 "" accept
       [AutoTake 100; AutoFinish 102; CallSample 103 s1 hdr; CallSample 104 s1 hdr]
       (at_rest buffered))
  = Some [Some (ErrPreviousAutoFlush (StepFailed "boom")); None].
Proof. vm_compute. reflexivity. Qed.

(** A [Sample()] that triggers a flush waits for the lock while the flush
    goroutine is inside its automatic flush. *)
Example changed_header_waits_for_lock :
  run [failing] 10 "" accept [AutoTake 100; CallSample 101 s2 hdr2] (at_rest buffered)
  = None.
Proof. vm_compute. reflexivity. Qed.

(** C2. Auto-flush error ordering: a failed automatic flush whose error no
    [Sample()] returns. The processor has the step [failing], a flush timeout
    of 10 and the sample [s0] in its buffer; the timeout elapses and the flush
    goroutine starts the automatic flush, which fails. [Sample()] takes the
    lock of the flush only inside [triggerFlush], so a call with the header
    of the epoch runs while the steps of the flush run.
    - Schedule [stash_cleared]: the call has read [lastAutoFlushError] (nil)
      when the flush goroutine stashes its error there, and then sets the
      field to nil. The call returns nil, and so does the next call.
    - Schedule [stash_overtaken]: the call returns nil before the flush
      fails, and its sample is in the buffer when the error is stashed. The
      next call comes with a new header: the flush it triggers fails on that
      sample, the call returns this error and not the stashed one, and sets
      the field to nil. The call after it returns nil.
    In both the log has the line of the failed automatic flush, the stash is
    empty at the end, and no call of [Sample()] that follows returns the
    error of an automatic flush. *)
Theorem auto_flush_error_lost :
  (∃ g, run [failing] 10 "" accept stash_cleared (at_rest buffered)
        = Some (Returns (g, [None; None]))
        ∧ LogAutoFlushError (StepFailed "boom") ∈ logged (shared g)
        ∧ lastAutoFlushError (shared g) = None
        ∧ ∀ later g' errs,
            forallb is_call later = true →
            run [failing] 10 "" accept later g = Some (Returns (g', errs)) →
            Forall (λ r, ∀ e, r = Some e → is_auto_flush_error e = false) errs)
  ∧ (∃ g, run [failing] 10 "" accept stash_overtaken (at_rest buffered)
          = Some (Returns (g, [None; Some (StepFailed "boom"); None]))
          ∧ LogAutoFlushError (StepFailed "boom") ∈ logged (shared g)
          ∧ lastAutoFlushError (shared g) = None
          ∧ ∀ later g' errs,
              forallb is_call later = true →
              run [failing] 10 "" accept later g = Some (Returns (g', errs)) →
              Forall (λ r, ∀ e, r = Some e → is_auto_flush_error e = false) errs).
Proof.
  split.
  - eexists. split; [vm_compute; reflexivity|].
    split; [cbn; set_solver|]. split; [reflexivity|].
    intros later g' errs Hc. by apply calls_without_stash.
  - eexists. split; [vm_compute; reflexivity|].
    split; [cbn; set_solver|]. split; [reflexivity|].
    intros later g' errs Hc. by apply calls_without_stash.
Qed.

End BatchExamples.

(** ** The endpoint factory *)

Module EndpointFacts.

Import GoStrings Endpoints.
Local Open Scope string_scope.

Lemma is_format_spec part :
  is_format part = true ↔ part = TextFormat ∨ part = CsvFormat ∨ part = BinaryFormat.
Proof.
  unfold is_format, allFormatsMap. split.
  - destruct (allFormatsMap !! part) as [b|] eqn:E; unfold allFormatsMap in E;
      rewrite E; [|done]. intros _.
    apply lookup_insert_Some in E as [[<- _]|[_ E]]; [auto|].
    apply lookup_insert_Some in E as [[<- _]|[_ E]]; [auto|].
    apply lookup_singleton_Some in E as [<- _]. auto.
  - by intros [-> | [-> | ->]].
Qed.

Lemma is_transport_spec part :
  is_transport part = true
  ↔ part = TcpEndpoint ∨ part = TcpListenEndpoint ∨ part = FileEndpoint
    ∨ part = StdEndpoint.
Proof.
  unfold is_transport. rewrite !orb_true_iff, !String.eqb_eq. tauto.
Qed.

Lemma transport_not_format part : is_transport part = true → is_format part = false.
Proof. by intros [->|[-> | [-> | ->]]]%is_transport_spec. Qed.

Lemma format_nonempty part : is_format part = true → part ≠ "".
Proof. by intros [-> | [-> | ->]]%is_format_spec. Qed.

Section Facts.

Variable SplitHostPort : string → option (string * string).
Variable LookupPort : string → bool.
Variable os_Stat : string → StatResult.
Variable ConsoleBoxEndpoint : string.
Variable CustomDataSources : gmap string (string → result string MetricSource).

(** Once a format is set, a further format part fails the loop; so do two
    format parts from any start. *)
Lemma parse_parts_formats endpoint target parts res :
  (Format res ≠ "" ∧ (1 ≤ count is_format parts)%nat)
  ∨ (2 ≤ count is_format parts)%nat →
  (parse_parts endpoint target parts res).2 ≠ None.
Proof.
  revert res. induction parts as [|part rest IH]; intros res.
  { unfold count. simpl. lia. }
  unfold count. cbn [List.filter parse_parts].
  destruct (is_format part) eqn:Ef; cbn [length].
  - destruct (String.eqb_spec (Format res) "") as [He|He]; cbn [negb]; [|done].
    intros H. apply IH. left. cbn [Format]. split.
    + by apply format_nonempty.
    + unfold count. destruct H as [[? _]|H]; [done|lia].
  - intros H.
    assert (H' : ∀ res', Format res' = Format res →
              (parse_parts endpoint target rest res').2 ≠ None).
    { intros res' Hf. apply IH. rewrite Hf. exact H. }
    destruct (negb _); [done|].
    do 3 (destruct (String.eqb part _); [by apply H'|]).
    destruct (String.eqb part _); [|by apply H'].
    destruct (negb _); [done|by apply H'].
Qed.

(** Once a transport is set, any further part that is not a format fails
    the loop. *)
Lemma parse_parts_transports endpoint target parts res :
  (Type_ res ≠ "" ∧ (1 ≤ count (λ p, negb (is_format p)) parts)%nat)
  ∨ (2 ≤ count is_transport parts)%nat →
  (parse_parts endpoint target parts res).2 ≠ None.
Proof.
  revert res. induction parts as [|part rest IH]; intros res.
  { unfold count. simpl. lia. }
  unfold count. cbn [List.filter parse_parts].
  destruct (is_format part) eqn:Ef; cbn [length negb].
  - assert (is_transport part = false) as ->.
    { destruct (is_transport part) eqn:Et; [|done].
      apply transport_not_format in Et. congruence. }
    intros H. destruct (negb _); [done|]. apply IH. exact H.
  - destruct (String.eqb_spec (Type_ res) UndefinedEndpoint) as [He|He];
      cbn [negb]; [|done].
    intros [[? _]|H]; [done|].
    destruct (is_transport part) eqn:Et.
    + assert (Hrest : (1 ≤ count (λ p, negb (is_format p)) rest)%nat).
      { cbn [length] in H. unfold count in *.
        assert (Hle : ∀ l, (length (List.filter is_transport l)
                            ≤ length (List.filter (λ p, negb (is_format p)) l))%nat).
        { induction l as [|x l IHl]; [done|]. cbn [List.filter].
          destruct (is_transport x) eqn:Ex.
          - rewrite (transport_not_format _ Ex). cbn. lia.
          - destruct (negb (is_format x)); cbn; lia. }
        specialize (Hle rest). lia. }
      apply is_transport_spec in Et as [->|[-> | [-> | ->]]]; cbn.
      1-3: apply IH; left; by split.
      destruct (String.eqb target stdTransportTarget); cbn [negb]; [|done].
      apply IH. left. by split.
    + assert (H' : (2 ≤ count is_transport rest)%nat) by exact H.
      do 3 (destruct (String.eqb part _); [by apply IH; right|]).
      destruct (String.eqb part _); [|by apply IH; right].
      destruct (negb _); [done|]. apply IH. by right.
Qed.

(** Two parts that name a transport, recognised or custom, fail the loop
    from any start: the first of them sets the type (or fails the loop), and
    the second finds it set. *)
Lemma parse_parts_named_transports endpoint target parts res :
  (2 ≤ count names_transport parts)%nat →
  (parse_parts endpoint target parts res).2 ≠ None.
Proof.
  assert (Hle : ∀ l, (count names_transport l
                      ≤ count (λ p, negb (is_format p)) l)%nat).
  { unfold count, names_transport. induction l as [|x l IHl]; [done|].
    cbn [List.filter]. destruct (negb (is_format x)); cbn [andb length].
    - destruct (negb (String.eqb x UndefinedEndpoint)); cbn [length]; lia.
    - exact IHl. }
  revert res. induction parts as [|part rest IH]; intros res.
  { unfold count. simpl. lia. }
  unfold count, names_transport. cbn [List.filter parse_parts].
  fold names_transport. fold (count names_transport rest).
  destruct (is_format part) eqn:Ef; cbn [negb andb].
  - intros H. destruct (negb _); [done|]. by apply IH.
  - destruct (String.eqb_spec (Type_ res) UndefinedEndpoint) as [He|He];
      cbn [negb]; [|done].
    destruct (String.eqb_spec part UndefinedEndpoint) as [->|Hpart];
      cbn [negb length].
    + intros H. by apply IH.
    + intros H.
      assert (Hset : ∀ res', Type_ res' ≠ "" →
                (parse_parts endpoint target rest res').2 ≠ None).
      { intros res' Hty. apply parse_parts_transports. left. split; [done|].
        specialize (Hle rest). unfold count in *. lia. }
      do 3 (destruct (String.eqb part _); [by apply Hset|]).
      destruct (String.eqb part _); [|by apply Hset].
      destruct (negb _); [done|by apply Hset].
Qed.

(** The std transport with a target other than [-] fails the loop. *)
Lemma parse_parts_std endpoint target parts res :
  StdEndpoint ∈ parts → target ≠ stdTransportTarget →
  (parse_parts endpoint target parts res).2 ≠ None.
Proof.
  intros Hin Ht. revert res.
  induction parts as [|part rest IH]; intros res; [by apply elem_of_nil in Hin|].
  cbn [parse_parts]. apply elem_of_cons in Hin as [<-|Hin].
  - cbn. destruct (negb (String.eqb (Type_ res) UndefinedEndpoint)); [done|].
    apply String.eqb_neq in Ht. by rewrite Ht.
  - specialize (IH Hin).
    destruct (is_format part); [destruct (negb _); [done|apply IH]|].
    destruct (negb (String.eqb (Type_ res) UndefinedEndpoint)); [done|].
    do 3 (destruct (String.eqb part _); [by apply IH|]).
    destruct (String.eqb part _); [|by apply IH].
    destruct (negb _); [done|apply IH].
Qed.

Lemma parse_url_loop_error endpoint parts target :
  cut "://" endpoint = Some (parts, target) →
  (parse_parts endpoint target (Split parts "+") (mkEndpoint "" "" false target)).2
    ≠ None →
  is_err (ParseUrlEndpointDescription SplitHostPort LookupPort os_Stat endpoint) = true.
Proof.
  intros Hcut Hloop. unfold ParseUrlEndpointDescription. rewrite Hcut.
  destruct (_ || _); [done|].
  destruct (parse_parts _ _ _ _) as [res [err|]]; done.
Qed.

(** A format part and a recognised transport part, in either order. *)
Lemma parse_url_format_transport f t target :
  is_format f = true → is_transport t = true →
  target ≠ "" → (t = StdEndpoint → target = stdTransportTarget) →
  ParseUrlEndpointDescription SplitHostPort LookupPort os_Stat
    (f ++ "+" ++ t ++ "://" ++ target) = Ok (mkEndpoint f t false target)
  ∧ ParseUrlEndpointDescription SplitHostPort LookupPort os_Stat
      (t ++ "+" ++ f ++ "://" ++ target) = Ok (mkEndpoint f t false target).
Proof.
  intros Hf Ht Hne Hstd.
  destruct target as [|a target]; [done|].
  apply is_format_spec in Hf as [-> | [-> | ->]];
    apply is_transport_spec in Ht as [-> | [-> | [-> | ->]]];
    try (rewrite (Hstd eq_refl));
    split; vm_compute; reflexivity.
Qed.

(** C4. URL endpoint parse conflicts fail. For every endpoint string of the
    URL form [parts://target], [ParseUrlEndpointDescription] returns an error
    when the parts (the pieces of [parts] between [+]) name two formats, or
    two transports (every part that is not a format and not empty names one:
    tcp, listen, file, std, or a custom transport), or the std transport with
    a target other than [-]; and for a recognised format [f] and transport
    [t] (std only with the target [-]) it succeeds on [f+t://target] and on
    [t+f://target], with the same description. *)
Theorem url_endpoint_conflicts :
  (∀ endpoint parts target,
     cut "://" endpoint = Some (parts, target) →
     (2 ≤ count is_format (Split parts "+"))%nat
     ∨ (2 ≤ count names_transport (Split parts "+"))%nat
     ∨ (StdEndpoint ∈ Split parts "+" ∧ target ≠ "-") →
     is_err (ParseUrlEndpointDescription SplitHostPort LookupPort os_Stat endpoint)
     = true)
  ∧ (∀ f t target,
       is_format f = true → is_transport t = true →
       target ≠ "" → (t = StdEndpoint → target = "-") →
       ParseUrlEndpointDescription SplitHostPort LookupPort os_Stat
         (f ++ "+" ++ t ++ "://" ++ target) = Ok (mkEndpoint f t false target)
       ∧ ParseUrlEndpointDescription SplitHostPort LookupPort os_Stat
           (t ++ "+" ++ f ++ "://" ++ target) = Ok (mkEndpoint f t false target)).
Proof.
  split.
  - intros endpoint parts target Hcut [H | [H | [Hin Ht]]];
      apply (parse_url_loop_error _ _ _ Hcut).
    + apply parse_parts_formats. by right.
    + by apply parse_parts_named_transports.
    + by apply parse_parts_std.
  - apply parse_url_format_transport.
Qed.

(** C5 (amended). Bare endpoint target inference. The empty target is an
    error; [-] is the std endpoint type; a target that [net.SplitHostPort]
    splits into host and port with a port that [net.LookupPort] accepts is
    the listening TCP type when the host is empty and the active TCP type
    otherwise; every other target is the file endpoint type when it contains
    no colon and is a valid file name, and an error when it contains a colon
    or is not a valid file name. *)
Theorem guess_endpoint_type target :
  (target = "" →
   GuessEndpointType SplitHostPort LookupPort os_Stat target = Err ErrEmptyEndpoint)
  ∧ (target = "-" →
     GuessEndpointType SplitHostPort LookupPort os_Stat target = Ok StdEndpoint)
  ∧ (target ≠ "" → target ≠ "-" →
     ∀ host port,
       SplitHostPort target = Some (host, port) → LookupPort port = true →
       GuessEndpointType SplitHostPort LookupPort os_Stat target
       = Ok (if String.eqb host "" then TcpListenEndpoint else TcpEndpoint))
  ∧ (target ≠ "" → target ≠ "-" →
     (∀ host port, SplitHostPort target = Some (host, port) → LookupPort port = false) →
     GuessEndpointType SplitHostPort LookupPort os_Stat target
     = if Contains target ":" || negb (IsValidFilename os_Stat target)
       then Err (ErrNotFileNorTcp target)
       else Ok FileEndpoint).
Proof.
  unfold GuessEndpointType. repeat split.
  - by intros ->.
  - by intros ->.
  - intros H1 H2 host port Hs Hp.
    apply String.eqb_neq in H1, H2. unfold stdTransportTarget.
    rewrite H1, H2, Hs, Hp. cbn. by destruct (String.eqb host "").
  - intros H1 H2 Hno.
    apply String.eqb_neq in H1, H2. unfold stdTransportTarget. rewrite H1, H2.
    destruct (SplitHostPort target) as [[host port]|] eqn:Hs.
    + by rewrite (Hno _ _ eq_refl).
    + done.
Qed.

Lemma CreateInput_loop_app p pre rest st :
  is_ok (CreateInput_loop SplitHostPort LookupPort os_Stat ConsoleBoxEndpoint
           CustomDataSources p pre st) = true →
  ∃ st', CreateInput_loop SplitHostPort LookupPort os_Stat ConsoleBoxEndpoint
           CustomDataSources p (pre ++ rest) st
         = CreateInput_loop SplitHostPort LookupPort os_Stat ConsoleBoxEndpoint
             CustomDataSources p rest st'.
Proof.
  revert st. induction pre as [|input pre IH]; intros st Hok; [by exists st|].
  cbn [CreateInput_loop app] in *.
  destruct (CreateInput_step _ _ _ _ _ p input st) as [st'|err]; [|done].
  by apply IH.
Qed.

(** C10. [CreateInput] rejects every input endpoint description that
    carries an explicit marshalling format: when the inputs before it are
    accepted, the description [input] that parses to an endpoint with a
    format makes [CreateInput] return the error "Format cannot be specified
    for data input: input", whatever inputs follow; and the [Unmarshaller]
    of every endpoint description is nil. *)
Theorem create_input_rejects_format p pre input post endpoint :
  ParseEndpointDescription SplitHostPort LookupPort os_Stat ConsoleBoxEndpoint
    input false = Ok endpoint →
  Format endpoint ≠ UndefinedFormat →
  is_ok (CreateInput SplitHostPort LookupPort os_Stat ConsoleBoxEndpoint
           CustomDataSources p pre) = true →
  CreateInput SplitHostPort LookupPort os_Stat ConsoleBoxEndpoint
    CustomDataSources p (pre ++ input :: post) = Err (ErrFormatForInput input)
  ∧ ∀ e, Unmarshaller_ e = None.
Proof.
  intros Hparse Hfmt Hpre. split; [|done]. unfold CreateInput in *.
  destruct (CreateInput_loop_app p pre (input :: post) _ Hpre) as [[r ty] ->].
  cbn [CreateInput_loop]. unfold CreateInput_step. rewrite Hparse.
  apply String.eqb_neq in Hfmt. by rewrite Hfmt.
Qed.

End Facts.

End EndpointFacts.

Module EndpointExamples.

Import GoStrings Endpoints EndpointFacts EndpointData.
Local Open Scope string_scope.

Example guess_std :
  GuessEndpointType split_host_port lookup_port stat "-" = Ok StdEndpoint.
Proof. reflexivity. Qed.

Example guess_tcp :
  GuessEndpointType split_host_port lookup_port stat "localhost:5555" = Ok TcpEndpoint.
Proof. vm_compute. reflexivity. Qed.

Example guess_listen :
  GuessEndpointType split_host_port lookup_port stat ":5555" = Ok TcpListenEndpoint.
Proof. vm_compute. reflexivity. Qed.

Example guess_file :
  GuessEndpointType split_host_port lookup_port stat "data.csv" = Ok FileEndpoint.
Proof. vm_compute. reflexivity. Qed.

(** A host with a port that is no port is not taken for a file name. *)
Example guess_bad_port :
  GuessEndpointType split_host_port lookup_port stat "data:2024.csv"
  = Err (ErrNotFileNorTcp "data:2024.csv").
Proof. vm_compute. reflexivity. Qed.

(** A target that is none of [-], [host:port] and [:port] and is still not
    a file name: it has too many colons for [net.SplitHostPort]. *)
Lemma guess_colons_not_a_file :
  "a:b:c" ≠ "" ∧ "a:b:c" ≠ "-" ∧ Contains "a:b:c" "://" = false
  ∧ split_host_port "a:b:c" = None
  ∧ GuessEndpointType split_host_port lookup_port stat "a:b:c"
    = Err (ErrNotFileNorTcp "a:b:c").
Proof. repeat split; (discriminate || (vm_compute; reflexivity)). Qed.

Lemma guess_endpoint_type_witness :
  GuessEndpointType split_host_port lookup_port stat ":5555"
  = Ok (if String.eqb "" "" then TcpListenEndpoint else TcpEndpoint)
  ∧ GuessEndpointType split_host_port lookup_port stat "a:b:c"
    = (if Contains "a:b:c" ":" || negb (IsValidFilename stat "a:b:c")
       then Err (ErrNotFileNorTcp "a:b:c")
       else Ok FileEndpoint).
Proof.
  split.
  - apply (proj1 (proj2 (proj2 (guess_endpoint_type split_host_port lookup_port
                                  stat ":5555")))
             ltac:(discriminate) ltac:(discriminate) "" "5555");
      vm_compute; reflexivity.
  - apply (proj2 (proj2 (proj2 (guess_endpoint_type split_host_port lookup_port
                                  stat "a:b:c")))
             ltac:(discriminate) ltac:(discriminate)).
    intros host port H. vm_compute in H. discriminate.
Defined.

Lemma url_endpoint_conflicts_witness :
  is_err (ParseUrlEndpointDescription split_host_port lookup_port stat
            "csv+tcp+bin://host:1") = true
  ∧ is_err (ParseUrlEndpointDescription split_host_port lookup_port stat
              "http+ftp://host:1") = true
  ∧ ParseUrlEndpointDescription split_host_port lookup_port stat
      ("csv" ++ "+" ++ "tcp" ++ "://" ++ "host:1")
    = Ok (mkEndpoint "csv" "tcp" false "host:1")
  ∧ ParseUrlEndpointDescription split_host_port lookup_port stat
      ("tcp" ++ "+" ++ "csv" ++ "://" ++ "host:1")
    = Ok (mkEndpoint "csv" "tcp" false "host:1").
Proof.
  split.
  - apply (proj1 (url_endpoint_conflicts split_host_port lookup_port stat)
             "csv+tcp+bin://host:1" "csv+tcp+bin" "host:1").
    + vm_compute. reflexivity.
    + left. vm_compute. lia.
  - split.
    { apply (proj1 (url_endpoint_conflicts split_host_port lookup_port stat)
               "http+ftp://host:1" "http+ftp" "host:1").
      - vm_compute. reflexivity.
      - right. left. vm_compute. lia. }
    apply (proj2 (url_endpoint_conflicts split_host_port lookup_port stat)
             "csv" "tcp" "host:1").
    + vm_compute. reflexivity.
    + vm_compute. reflexivity.
    + discriminate.
    + discriminate.
Defined.

Example two_transports_fail :
  ParseUrlEndpointDescription split_host_port lookup_port stat "tcp+file://x"
  = Err (ErrMultipleTransports "tcp+file://x").
Proof. vm_compute. reflexivity. Qed.

(** A custom transport beside a recognised one, in either order, and two
    custom transports. *)
Example custom_transports_fail :
  ParseUrlEndpointDescription split_host_port lookup_port stat "tcp+http://host:1"
  = Err (ErrMultipleTransports "tcp+http://host:1")
  ∧ ParseUrlEndpointDescription split_host_port lookup_port stat "http+tcp://host:1"
    = Err (ErrMultipleTransports "http+tcp://host:1")
  ∧ ParseUrlEndpointDescription split_host_port lookup_port stat "http+ftp://host:1"
    = Err (ErrMultipleTransports "http+ftp://host:1").
Proof. repeat split; vm_compute; reflexivity. Qed.

(** An empty part names no transport: it leaves the type undefined, and
    the transport after it is accepted. *)
Example empty_part_before_transport :
  ParseUrlEndpointDescription split_host_port lookup_port stat "+tcp://host:1"
  = Ok (mkEndpoint "" "tcp" true "host:1").
Proof. vm_compute. reflexivity. Qed.

Example std_with_file_target_fails :
  ParseUrlEndpointDescription split_host_port lookup_port stat "std://out.csv"
  = Err (ErrStdTarget "std").
Proof. vm_compute. reflexivity. Qed.

Example csv_file_input_rejected :
  CreateInput split_host_port lookup_port stat "box" no_sources factory ["csv+file://x"]
  = Err (ErrFormatForInput "csv+file://x").
Proof. vm_compute. reflexivity. Qed.

Example file_input_accepted :
  CreateInput split_host_port lookup_port stat "box" no_sources factory ["file://x"]
  = Ok (Some (FileSource ["x"] 4096 false false (mkReader (mkHandler 4 10000) None))).
Proof. vm_compute. reflexivity. Qed.

Lemma create_input_rejects_format_witness :
  CreateInput split_host_port lookup_port stat "box" no_sources factory
    (["file://a"] ++ "csv+file://x" :: ["file://b"])
  = Err (ErrFormatForInput "csv+file://x")
  ∧ ∀ e, Unmarshaller_ e = None.
Proof.
  apply (create_input_rejects_format split_host_port lookup_port stat "box"
           no_sources factory ["file://a"] "csv+file://x" ["file://b"]
           (mkEndpoint "csv" "file" false "x")).
  - vm_compute. reflexivity.
  - discriminate.
  - vm_compute. reflexivity.
Defined.

End EndpointExamples.

(** ** The variance filter *)

Module VarianceFacts.

Import Variance.

Lemma filter_fmap {A B} (f : A → B) (g : B → bool) (l : list A) :
  List.filter g (f <$> l) = f <$> List.filter (λ x, g (f x)) l.
Proof.
  induction l as [|x l IH]; [done|]. cbn [fmap list_fmap List.filter].
  destruct (g (f x)); cbn [fmap list_fmap]; by rewrite IH.
Qed.

Section Facts.

Variable Running : Type.
Variable zero : Running.
Variable Push : Running → float → Running.
Variable Mean : Running → float.
Variable Stddev : Running → float.

(** After the sample loop, the statistics at index [i] are those of the
    values of field [i], pushed in batch order. *)
Lemma push_samples_columns n (vs : list Running) samples :
  length vs = n →
  Forall (λ s, (n ≤ length (Values s))%nat) samples →
  ∃ vs', push_samples Running Push n vs samples = Some vs'
         ∧ length vs' = n
         ∧ ∀ i r, vs !! i = Some r →
                  vs' !! i = Some (foldl Push r (column i samples)).
Proof.
  intros Hn Hs. revert vs Hn.
  induction Hs as [|s samples Hlen _ IH]; intros vs Hn.
  { exists vs. by repeat split. }
  cbn [push_samples]. unfold push_sample.
  destruct (Nat.ltb_spec (length (Values s)) n) as [?|_]; [lia|].
  destruct (IH (zip_with Push vs (Values s))) as (vs' & -> & Hl & Hi).
  { rewrite length_zip_with. lia. }
  exists vs'. split; [done|]. split; [done|].
  intros i r Hr. cbn [column fmap list_fmap foldl].
  assert (Hi' : (i < length (Values s))%nat).
  { apply lookup_lt_Some in Hr. lia. }
  destruct (lookup_lt_is_Some_2 _ _ Hi') as [x Hx].
  rewrite Hx. cbn [default from_option id].
  apply Hi. rewrite lookup_zip_with, Hr, Hx. done.
Qed.

(** C6 (amended). Variance filter criterion. For every batch whose samples
    have a value for every field of the header, the filter keeps, in header
    order, exactly the fields whose weighted standard deviation is at least
    the configured minimum, where the weighted standard deviation of a field
    is its standard deviation divided by its mean (the signed mean, not its
    absolute value), or the raw standard deviation when the mean is zero;
    every other field is dropped. *)
Theorem variance_filter_criterion (minimum : float) (header : Header)
    (samples : list (Sample float)) :
  Forall (λ s, length (Values s) = length (Fields header)) samples →
  let weighted i :=
    weighted_stddev Running Mean Stddev (stats Running zero Push (column i samples)) in
  ∃ indices fields,
    ConstructIndices Running zero Push Mean Stddev minimum header samples
    = Some (indices, fields)
    ∧ indices = List.filter (λ i, PrimFloat.leb minimum (weighted i))
                  (seq 0 (length (Fields header)))
    ∧ fields = (λ i, default ""%string (Fields header !! i)) <$> indices
    ∧ ∀ i, i ∈ indices
           ↔ (i < length (Fields header))%nat
             ∧ PrimFloat.leb minimum (weighted i) = true.
Proof.
  intros Hs weighted. unfold ConstructIndices.
  set (n := length (Fields header)).
  destruct (push_samples_columns n (replicate n zero) samples)
    as (vs & -> & Hl & Hi).
  { apply length_replicate. }
  { eapply Forall_impl; [exact Hs|]. intros s Hlen. cbn beta in *. fold n in Hlen. lia. }
  assert (Hrows : zip (seq 0 n) (zip (Fields header) vs)
                  = (λ i, (i, (default ""%string (Fields header !! i),
                               stats Running zero Push (column i samples))))
                    <$> seq 0 n).
  { apply list_eq. intros i.
    rewrite !lookup_zip_with, list_lookup_fmap.
    destruct (decide (i < n)%nat) as [Hlt|Hge].
    - rewrite lookup_seq_lt by done. cbn.
      destruct (lookup_lt_is_Some_2 (Fields header) i Hlt) as [f Hf].
      rewrite Hf, (Hi i zero) by (by apply lookup_replicate_2). done.
    - rewrite lookup_seq_ge by lia. done. }
  rewrite Hrows, filter_fmap. cbn [snd fst].
  eexists _, _. split; [reflexivity|].
  rewrite <-!list_fmap_compose.
  split; [by rewrite list_fmap_id|]. split; [done|].
  intros i. rewrite list_fmap_id, list_elem_of_In, filter_In, <-list_elem_of_In.
  rewrite elem_of_seq. unfold included. fold (weighted i). fold n.
  split; intros [? ?]; split; (lia || done).
Qed.

End Facts.

End VarianceFacts.

Module VarianceExamples.

Import Variance VarianceFacts VarianceData.

Example delta_mean : welford_Mean delta_stats = (-2)%float.
Proof. vm_compute. reflexivity. Qed.

Example delta_stddev : welford_Stddev delta_stats = PrimFloat.sqrt 2.
Proof. vm_compute. reflexivity. Qed.

(** Field [delta] has the same spread as field [load] around a mean of the
    same size; with the minimum 0.5 the filter keeps [load] and drops
    [delta], whose weighted standard deviation by the absolute value of the
    mean is above the minimum. *)
Lemma variance_filter_drops_negative_mean :
  ConstructIndices Welford welford_zero welford_Push welford_Mean welford_Stddev
    0.5%float load batch = Some ([0%nat], ["load"%string])
  ∧ PrimFloat.leb 0.5%float
      (spec_weighted_stddev Welford welford_Mean welford_Stddev delta_stats) = true.
Proof. split; vm_compute; reflexivity. Qed.

Lemma variance_filter_criterion_witness :
  let weighted i :=
    weighted_stddev Welford welford_Mean welford_Stddev
      (stats Welford welford_zero welford_Push (column i batch)) in
  ∃ indices fields,
    ConstructIndices Welford welford_zero welford_Push welford_Mean welford_Stddev
      0.5%float load batch = Some (indices, fields)
    ∧ indices = List.filter (λ i, PrimFloat.leb 0.5%float (weighted i))
                  (seq 0 (length (Fields load)))
    ∧ fields = (λ i, default ""%string (Fields load !! i)) <$> indices
    ∧ ∀ i, i ∈ indices
           ↔ (i < length (Fields load))%nat
             ∧ PrimFloat.leb 0.5%float (weighted i) = true.
Proof.
  apply (variance_filter_criterion Welford welford_zero welford_Push welford_Mean
           welford_Stddev 0.5%float load batch).
  repeat constructor.
Defined.

End VarianceExamples.

(** ** The batch sorter *)

Module SorterFacts.

Import Sorter.

(** The lexical order of strings. *)
Lemma ascii_compare_refl a : Ascii.compare a a = Eq.
Proof. unfold Ascii.compare. apply N.compare_refl. Qed.

Lemma string_compare_refl s : String.compare s s = Eq.
Proof. induction s as [|a s IH]; [done|]. simpl. by rewrite ascii_compare_refl. Qed.

Lemma ascii_compare_lt_trans a b c :
  Ascii.compare a b = Lt → Ascii.compare b c = Lt → Ascii.compare a c = Lt.
Proof. unfold Ascii.compare. rewrite !N.compare_lt_iff. lia. Qed.

Lemma string_compare_lt_trans x y z :
  String.compare x y = Lt → String.compare y z = Lt → String.compare x z = Lt.
Proof.
  revert y z. induction x as [|a x IH]; intros [|b y] [|c z]; simpl; try done.
  destruct (Ascii.compare a b) eqn:Eab; [| |done].
  - apply Ascii.compare_eq_iff in Eab as ->.
    destruct (Ascii.compare b c); [apply IH|done|done].
  - destruct (Ascii.compare b c) eqn:Ebc; [| |done].
    + apply Ascii.compare_eq_iff in Ebc as <-. by rewrite Eab.
    + by rewrite (ascii_compare_lt_trans _ _ _ Eab Ebc).
Qed.

Lemma StronglySorted_weaken {A} (R S : A → A → Prop) (l : list A) :
  (∀ x y, R x y → S x y) → StronglySorted R l → StronglySorted S l.
Proof.
  intros HRS. induction 1 as [|x l Hl IH Hx]; constructor; [done|].
  eapply Forall_impl; [exact Hx|]. intros y. apply HRS.
Qed.

Lemma ltb_irrefl s : String.ltb s s = false.
Proof. unfold String.ltb. by rewrite string_compare_refl. Qed.

Lemma ltb_trans x y z :
  String.ltb x y = true → String.ltb y z = true → String.ltb x z = true.
Proof.
  unfold String.ltb.
  destruct (String.compare x y) eqn:Exy; try done.
  destruct (String.compare y z) eqn:Eyz; try done.
  by rewrite (string_compare_lt_trans _ _ _ Exy Eyz).
Qed.

Lemma ltb_total x y : x ≠ y → String.ltb x y = true ∨ String.ltb y x = true.
Proof.
  intros Hne. unfold String.ltb. destruct (String.compare x y) eqn:E.
  - apply String.compare_eq_iff in E. congruence.
  - by left.
  - right. by rewrite String.compare_antisym, E.
Qed.

Section Facts.

Context {V : Type}.
Implicit Types (a b c : Sample V) (tags : list string).

(** [Less] is the order of the spec's words. *)
Lemma Less_tags_before tags a b : Less_tags tags a b = true ↔ before tags a b.
Proof.
  unfold before, sort_key. induction tags as [|tag tags IH]; cbn.
  - apply Z.ltb_lt.
  - destruct (String.eqb_spec (Tag a tag) (Tag b tag)) as [He|Hne].
    + rewrite IH, He, ltb_irrefl. intuition congruence.
    + intuition congruence.
Qed.

Lemma Less_tags_irrefl tags a : Less_tags tags a a = false.
Proof.
  induction tags as [|tag tags IH]; cbn.
  - apply Z.ltb_irrefl.
  - by rewrite String.eqb_refl.
Qed.

Lemma Less_tags_trans tags a b c :
  Less_tags tags a b = true → Less_tags tags b c = true → Less_tags tags a c = true.
Proof.
  induction tags as [|tag tags IH]; cbn.
  - rewrite !Z.ltb_lt. lia.
  - destruct (String.eqb_spec (Tag a tag) (Tag b tag)) as [->|Hab].
    { destruct (String.eqb (Tag b tag) (Tag c tag)); [apply IH|done]. }
    destruct (String.eqb_spec (Tag b tag) (Tag c tag)) as [<-|Hbc].
    { intros H _. apply String.eqb_neq in Hab. by rewrite Hab. }
    intros H1 H2. pose proof (ltb_trans _ _ _ H1 H2) as H3.
    destruct (String.eqb_spec (Tag a tag) (Tag c tag)) as [Hac|_]; [|done].
    rewrite Hac, ltb_irrefl in H3. done.
Qed.

Lemma Less_tags_neg_trans tags a b c :
  Less_tags tags a c = true →
  Less_tags tags a b = true ∨ Less_tags tags b c = true.
Proof.
  induction tags as [|tag tags IH]; cbn.
  - rewrite !Z.ltb_lt. lia.
  - destruct (String.eqb_spec (Tag a tag) (Tag c tag)) as [Hac|Hac].
    + destruct (String.eqb_spec (Tag a tag) (Tag b tag)) as [Hab|Hab].
      * rewrite <-Hac, <-Hab, String.eqb_refl. apply IH.
      * intros _. rewrite <-Hac.
        destruct (String.eqb_spec (Tag b tag) (Tag a tag)) as [?|_]; [congruence|].
        by apply ltb_total.
    + intros Hlt.
      destruct (String.eqb_spec (Tag a tag) (Tag b tag)) as [Hab|Hab].
      * right. rewrite <-Hab. apply String.eqb_neq in Hac. by rewrite Hac.
      * destruct (String.eqb_spec (Tag b tag) (Tag c tag)) as [Hbc|Hbc].
        { left. by rewrite Hbc. }
        destruct (ltb_total _ _ Hab) as [H|H]; [by left|].
        right. by eapply ltb_trans.
Qed.

Lemma Less_strict_weak_order (sorter : SampleSorter) :
  strict_weak_order (Less (V:=V) sorter).
Proof.
  split; unfold Less.
  - apply Less_tags_irrefl.
  - apply Less_tags_trans.
  - apply Less_tags_neg_trans.
Qed.

(** C7. Batch sorter ordering. With [sort.Sort] meeting its contract, for
    every batch of samples and every configured tag list
    [SampleSorter.ProcessBatch] returns the header unchanged, no error, and a
    permutation of the input samples in which no sample comes strictly
    before an earlier one in the order by the values of the listed tags, in
    order and lexicographically, with the timestamp as the last criterion. *)
Theorem sorter_process_batch (sort : ∀ A, (A → A → bool) → list A → list A)
    (tags : list string) (header : Header) (samples : list (Sample V)) :
  sort_contract sort →
  ∃ out, ProcessBatch sort (mkSorter tags) header samples = (header, out, None)
         ∧ out ≡ₚ samples
         ∧ StronglySorted (λ x y, ¬ before tags y x) out.
Proof.
  intros Hsort. eexists. split; [reflexivity|].
  destruct (Hsort _ (Less (mkSorter tags)) samples
              (Less_strict_weak_order (mkSorter tags))) as [Hperm Hsorted].
  split; [done|].
  eapply StronglySorted_weaken; [|exact Hsorted].
  intros x y Hless Hb. apply Less_tags_before in Hb.
  unfold Less in Hless. cbn in Hless. congruence.
Qed.

End Facts.

(** Insertion sort meets the contract of [sort.Sort]. *)
Lemma insert_sorted_perm {A} (less : A → A → bool) x l :
  insert_sorted less x l ≡ₚ x :: l.
Proof.
  induction l as [|y l IH]; [done|]. cbn.
  destruct (less x y); [done|]. rewrite IH. apply Permutation_swap.
Qed.

Lemma insert_sorted_sorted {A} (less : A → A → bool) x l :
  strict_weak_order less →
  StronglySorted (λ x y, less y x = false) l →
  StronglySorted (λ x y, less y x = false) (insert_sorted less x l).
Proof.
  intros [Hirr Htr Hneg] Hl.
  assert (Hasym : ∀ u v, less u v = true → less v u = false).
  { intros u v Huv. destruct (less v u) eqn:E; [|done].
    by rewrite <-(Hirr u), (Htr _ _ _ Huv E). }
  induction Hl as [|y l Hl IH Hy]; cbn.
  - by repeat constructor.
  - destruct (less x y) eqn:Exy.
    + constructor; [by constructor|]. constructor; [by apply Hasym|].
      eapply Forall_impl; [exact Hy|]. intros z Hzy. cbn beta in *.
      destruct (less z x) eqn:Ezx; [|done].
      by rewrite (Htr _ _ _ Ezx Exy) in Hzy.
    + constructor; [exact IH|].
      rewrite insert_sorted_perm. by constructor.
Qed.

Lemma insertion_sort_contract : sort_contract insertion_sort.
Proof.
  intros A less l Hswo. unfold insertion_sort. induction l as [|x l [IHp IHs]]; cbn.
  - split; [done|constructor].
  - split.
    + by rewrite insert_sorted_perm, IHp.
    + by apply insert_sorted_sorted.
Qed.

End SorterFacts.

Module SorterExamples.

Import Sorter SorterFacts SorterData.

Example sorted_by_host_job_time :
  ProcessBatch insertion_sort (mkSorter ["host"; "job"]%string)
    (mkHeader [] true) unsorted
  = (mkHeader [] true,
     [ tagged 7 "a" "x"; tagged 3 "a" "y"; tagged 9 "a" "y"; tagged 5 "b" "x" ],
     None).
Proof. vm_compute. reflexivity. Qed.

Lemma sorter_process_batch_witness :
  ∃ out, ProcessBatch insertion_sort (mkSorter ["host"; "job"]%string)
           (mkHeader [] true) unsorted = (mkHeader [] true, out, None)
         ∧ out ≡ₚ unsorted
         ∧ StronglySorted (λ x y, ¬ before ["host"; "job"]%string y x) out.
Proof.
  apply (sorter_process_batch insertion_sort ["host"; "job"]%string
           (mkHeader [] true) unsorted insertion_sort_contract).
Defined.

End SorterExamples.

(** ** The active TCP sink *)

Module TCPFacts.

Import TCP.

Section Facts.

Context {V : Type}.
Variable DialTCP : string → result string string.
Implicit Types (sink : TCPSink (V:=V)).

Lemma Close_stopped sink : stopped (Close sink) = true.
Proof. unfold Close. by destruct (stopped sink) eqn:E. Qed.

Lemma Close_Endpoint sink : Endpoint (Close sink) = Endpoint sink.
Proof.
  unfold Close, closeConnection. destruct (stopped sink); [done|].
  by destruct (conn sink).
Qed.

Lemma run_call_stopped c sink :
  stopped sink = true →
  run_call DialTCP c sink = (sink, Some (ErrAlreadyStopped (Endpoint sink))).
Proof. intros Hs. destruct c; cbn; unfold Sample_, Header_; by rewrite Hs. Qed.

(** C8. Operations on a stopped TCP sink. For every sink on which [Close()]
    has been called, every later call of [Sample()] or [Header()], in any
    number and order, returns the "already stopped" error and leaves the
    sink as [Close()] left it: no connection is dialled and no sample is
    enqueued. *)
Theorem stopped_sink_rejects_calls sink (calls : list (call (V:=V))) :
  let sink' := Close sink in
  run_calls DialTCP calls sink'
  = (sink', replicate (length calls) (Some (ErrAlreadyStopped (Endpoint sink))))
  ∧ dials (run_calls DialTCP calls sink').1 = dials sink
  ∧ conn (run_calls DialTCP calls sink').1
    = (if stopped sink then conn sink else None).
Proof.
  cbn zeta.
  assert (Hrun : run_calls DialTCP calls (Close sink)
    = (Close sink, replicate (length calls) (Some (ErrAlreadyStopped (Endpoint sink))))).
  { induction calls as [|c calls IH]; [done|].
    cbn [run_calls length replicate].
    by rewrite (run_call_stopped c _ (Close_stopped sink)), IH, Close_Endpoint. }
  rewrite Hrun. split; [done|]. cbn [fst]. unfold Close, closeConnection.
  split.
  - destruct (stopped sink); [done|]. by destruct (conn sink).
  - destruct (stopped sink); [done|]. by destruct (conn sink) eqn:E.
Qed.

End Facts.

End TCPFacts.

Module TCPExamples.

Import TCP TCPFacts TCPData.

(** A running sink dials on the first sample and enqueues it; after
    [Close] the next sample is refused and nothing is dialled. *)
Example sample_then_close_then_sample :
  let '(sink1, e1) := Sample_ reachable s1 cpu sink0 in
  let '(sink2, e2) := Sample_ reachable s1 cpu (Close sink1) in
  (e1, dials sink1, e2, dials sink2, conn sink2)
  = (None, ["collector:5555"%string],
     Some (ErrAlreadyStopped "collector:5555"), ["collector:5555"%string], None).
Proof. reflexivity. Qed.

End TCPExamples.

(** ** The PCA projection *)

Module PCAFacts.

Import PCA.

(** C9 (amended). [PCAProjection.Sample] nil mutation. For every input
    sample the call returns no sample; and whenever the projection
    [model.Vector] itself returns, [SetSampleValues] is invoked on the nil
    result pointer and panics there with a nil dereference, before
    [CopyMetadataFrom] is reached. *)
Theorem pca_sample_nil_result (Vector : list float → option (list float))
    (sample : Sample float) :
  (∀ r, (Sample_ Vector sample).2 ≠ Returns r)
  ∧ ∀ values,
      Vector (SampleToVector sample) = Some values →
      Sample_ Vector sample
      = ([CallSetSampleValues None values], PanicNilDereference).
Proof.
  unfold Sample_. split.
  - intros r. by destruct (Vector (SampleToVector sample)).
  - by intros values ->.
Qed.

End PCAFacts.

Module PCAExamples.

Import PCA PCAFacts PCAData.

(** On a sample the projection accepts, [SetSampleValues] is the only call
    on the result pointer: [CopyMetadataFrom] is not invoked. *)
Lemma pca_sample_never_copies_metadata :
  project first_component (SampleToVector point) = Some [3%float]
  ∧ Sample_ (project first_component) point
    = ([CallSetSampleValues None [3%float]], PanicNilDereference).
Proof. split; vm_compute; reflexivity. Qed.

(** A sample of another dimension than the model: the matrix library
    panics first. *)
Example pca_sample_shape_mismatch :
  Sample_ (project first_component) (mkSample 1 [3%float] ∅) = ([], PanicLibrary).
Proof. vm_compute. reflexivity. Qed.

Lemma pca_sample_nil_result_witness :
  Sample_ (project first_component) point
  = ([CallSetSampleValues None [3%float]], PanicNilDereference).
Proof.
  apply (proj2 (pca_sample_nil_result (project first_component) point) [3%float]).
  vm_compute. reflexivity.
Defined.

End PCAExamples.

(** ** The binary header and the frame reader *)

Module BinaryHeaderFacts.

Import GoStrings GoStringsFacts Binary BinaryFacts BinaryReader BinaryRoundTrip BinaryHeader.

Lemma IndexByte_Some b c i :
  IndexByte b c = Some i → (c ∉ take i b) ∧ b !! i = Some c.
Proof.
  revert i. induction b as [|x b IH]; intros i; simpl; [done|].
  destruct (Byte.eqb x c) eqn:E.
  - intros [= <-]. apply Byte.byte_dec_bl in E as ->. split; [apply not_elem_of_nil|done].
  - destruct (IndexByte b c) as [j|] eqn:Ej; [|done]. intros [= <-].
    destruct (IH j eq_refl) as [Hn Hl]. split; [|done]. cbn [take].
    apply not_elem_of_cons. split; [|done].
    intros ->. by rewrite (Byte.byte_dec_lb (eq_refl x)) in E.
Qed.

(** A line read by [ReadBytes]: the bytes before the first separator, the
    separator, and the input that is left. *)
Lemma ReadBytes_Ok input c line rest :
  ReadBytes input c = (Ok line, rest) →
  ∃ b, line = b ++ [c] ∧ (c ∉ b) ∧ input = b ++ c :: rest.
Proof.
  unfold ReadBytes. destruct (IndexByte input c) as [i|] eqn:E; [|done].
  intros [= <- <-]. apply IndexByte_Some in E as [Hn Hl].
  exists (take i input). split; [by erewrite take_S_r|]. split; [done|].
  rewrite <-(take_drop i input) at 1. f_equal. by erewrite drop_S.
Qed.

Lemma ReadBytes_Err input c e rest :
  ReadBytes input c = (Err e, rest) → e = EOF ∧ (c ∉ input).
Proof.
  unfold ReadBytes. destruct (IndexByte input c) as [i|] eqn:E; [done|].
  intros [= <- _]. split; [done|]. intros Hin.
  induction input as [|x input IH]; [by apply elem_of_nil in Hin|].
  simpl in E. destruct (Byte.eqb x c) eqn:Ex; [done|].
  apply elem_of_cons in Hin as [->|Hin].
  - by rewrite (Byte.byte_dec_lb (eq_refl x)) in Ex.
  - destruct (IndexByte input c); [done|]. by apply IH.
Qed.

Lemma field_name_spec name :
  field_name name = true ↔ name ≠ ""%string ∧ free_of newline name = true.
Proof.
  unfold field_name. rewrite andb_true_iff, negb_true_iff, String.eqb_neq. done.
Qed.

Lemma WriteStr_no_separator name :
  free_of newline name = true → binary_separator ∉ WriteStr name.
Proof. apply (free_of_bytes newline). Qed.

Lemma WriteStr_length name : length (WriteStr name) = String.length name.
Proof.
  unfold WriteStr, String.list_byte_of_string.
  induction name as [|a name IH]; [done|]. simpl. by rewrite IH.
Qed.

Lemma string_of_WriteStr name : String.string_of_list_byte (WriteStr name) = name.
Proof. apply String.string_of_list_byte_of_string. Qed.

(** One round of the loop on a written line. *)
Lemma ReadBytes_line name rest :
  free_of newline name = true →
  ReadBytes (WriteStr name ++ binary_separator :: rest) binary_separator
  = (Ok (WriteStr name ++ [binary_separator]), rest).
Proof. intros Hn. by apply ReadBytes_app, WriteStr_no_separator. Qed.

Lemma ReadBytes_blank rest :
  ReadBytes (binary_separator :: rest) binary_separator = (Ok [binary_separator], rest).
Proof. reflexivity. Qed.

Lemma take_line (b : list Byte.byte) c : take (length (b ++ [c]) - 1) (b ++ [c]) = b.
Proof.
  rewrite length_app. cbn [length].
  replace (length b + 1 - 1)%nat with (length b) by lia.
  apply take_app_length.
Qed.

Lemma lines_cons name names :
  lines (name :: names) = WriteStr name ++ binary_separator :: lines names.
Proof. unfold lines. cbn. by rewrite <-app_assoc. Qed.

(** The loop reads back the field lines and stops at the blank line. *)
Lemma ReadHeader_loop_lines fuel header names rest :
  Forall (λ name, field_name name = true) names →
  (length names < fuel)%nat →
  ReadHeader_loop fuel false header (lines names ++ binary_separator :: rest)
  = Some (Ok (mkHeader (Fields header ++ names) (HasTags header)), rest).
Proof.
  intros Hnames. revert fuel header.
  induction Hnames as [|name names Hname _ IH]; intros fuel header Hfuel.
  - destruct fuel as [|fuel]; [simpl in Hfuel; lia|].
    cbn [lines fmap list_fmap concat app ReadHeader_loop].
    rewrite ReadBytes_blank. cbn. rewrite app_nil_r. by destruct header.
  - destruct fuel as [|fuel]; [simpl in Hfuel; lia|].
    apply field_name_spec in Hname as [Hne Hfree].
    rewrite lines_cons, <-app_assoc. cbn [app ReadHeader_loop].
    rewrite ReadBytes_line by done.
    rewrite take_line, string_of_WriteStr, length_app, WriteStr_length.
    cbn [length andb].
    destruct (Nat.leb_spec (String.length name + 1) 1) as [Hle|_].
    { destruct name; [done|]. simpl in Hle. lia. }
    rewrite IH by (simpl in Hfuel; lia). cbn [Fields HasTags].
    by rewrite <-app_assoc.
Qed.

Lemma lines_length names : (length names ≤ length (lines names))%nat.
Proof.
  induction names as [|name names IH]; [done|].
  rewrite lines_cons, length_app. cbn [length]. lia.
Qed.

Lemma WriteHeader_lines header :
  WriteHeader header
  = WriteStr time_col ++ binary_separator ::
      (if HasTags header then WriteStr tags_col ++ [binary_separator] else [])
      ++ lines (Fields header) ++ [binary_separator].
Proof. reflexivity. Qed.

Lemma ReadHeader_WriteHeader (h : Header) (rest : Reader) :
  Forall (λ name, field_name name = true) (Fields h) →
  (HasTags h = false → head (Fields h) ≠ Some tags_col) →
  ReadHeader (WriteHeader h ++ rest) = Some (Ok h, rest).
Proof.
  intros Hnames Hfirst. rewrite WriteHeader_lines. unfold ReadHeader.
  rewrite <-app_assoc. cbn [app].
  rewrite ReadBytes_line by done.
  rewrite take_line, string_of_WriteStr. cbn [checkFirstCol String.eqb].
  change (checkFirstCol time_col) with (@None error). cbv iota beta.
  destruct h as [fields tagged]. cbn [Fields HasTags] in *.
  destruct tagged.
  - rewrite <-!app_assoc. cbn [app ReadHeader_loop].
    rewrite ReadBytes_line by done.
    rewrite take_line, string_of_WriteStr.
    change (length (WriteStr tags_col ++ [binary_separator]) <=? 1)%nat with false.
    change (true && String.eqb tags_col tags_col) with true. cbv iota.
    rewrite ReadHeader_loop_lines; [done|done|].
    repeat (rewrite ?length_app; cbn [length]). pose proof (lines_length fields). lia.
  - cbn [app]. rewrite <-app_assoc. cbn [app].
    destruct Hnames as [|name names Hname Hnames].
    + cbn [lines fmap list_fmap concat app ReadHeader_loop].
      by rewrite ReadBytes_blank.
    + pose proof Hname as [Hne Hfree]%field_name_spec.
      rewrite lines_cons, <-app_assoc. cbn [app ReadHeader_loop].
      rewrite ReadBytes_line by done.
      rewrite take_line, string_of_WriteStr, length_app, WriteStr_length.
      cbn [length].
      destruct (Nat.leb_spec (String.length name + 1) 1) as [Hle|_].
      { destruct name; [done|]. simpl in Hle. lia. }
      assert (String.eqb name tags_col = false) as ->.
      { apply String.eqb_neq. intros ->. by apply Hfirst. }
      cbn [andb Fields HasTags app].
      rewrite ReadHeader_loop_lines; [done|done|].
      repeat (rewrite ?length_app; cbn [length]). pose proof (lines_length names). lia.
Qed.


(** X1. Binary header round trip. For every header whose field names are
    not empty and contain no newline, and whose first field is not named
    [tags] when the header has no tags, [ReadHeader] reads back from the bytes
    [WriteHeader] wrote exactly this header (the same fields in the same order
    and the same [HasTags] flag), and leaves the bytes that follow. *)
Theorem header_round_trip (h : Header) (rest : Reader) :
  Forall (λ name, field_name name = true) (Fields h) →
  (HasTags h = false → head (Fields h) ≠ Some tags_col) →
  ReadHeader (WriteHeader h ++ rest) = Some (Ok h, rest).
Proof. apply ReadHeader_WriteHeader. Qed.

(** The loop never runs out of the fuel [ReadHeader] gives it. *)
Lemma ReadHeader_loop_total fuel first header input :
  (length input < fuel)%nat → is_Some (ReadHeader_loop fuel first header input).
Proof.
  revert first header input.
  induction fuel as [|fuel IH]; intros first header input Hfuel; [lia|].
  cbn [ReadHeader_loop].
  destruct (ReadBytes input binary_separator) as [[line|err] input'] eqn:E; [|done].
  destruct (length line <=? 1)%nat; [done|].
  apply IH. apply ReadBytes_Ok in E as (b & -> & _ & ->).
  rewrite length_app in Hfuel. cbn [length] in Hfuel. lia.
Qed.

Lemma ReadHeader_total input : is_Some (ReadHeader input).
Proof.
  unfold ReadHeader.
  destruct (ReadBytes input binary_separator) as [[line|err] input']; [|done].
  destruct (checkFirstCol _); [done|]. apply ReadHeader_loop_total. lia.
Qed.

Lemma WriteStr_of_bytes (b : list Byte.byte) :
  WriteStr (String.string_of_list_byte b) = b.
Proof. apply String.list_byte_of_string_of_list_byte. Qed.

(** What the loop has consumed when it returns a header: the [tags] line
    if it set the flag, the lines of the fields it appended, and the blank
    line. *)
Lemma ReadHeader_loop_canonical fuel first header input h rest :
  ReadHeader_loop fuel first header input = Some (Ok h, rest) →
  ∃ names (tagged : bool),
    (tagged = true → first = true)
    ∧ input = (if tagged then WriteStr tags_col ++ [binary_separator] else [])
              ++ lines names ++ binary_separator :: rest
    ∧ Fields h = Fields header ++ names
    ∧ HasTags h = HasTags header || tagged.
Proof.
  revert first header input.
  induction fuel as [|fuel IH]; intros first header input; [done|].
  cbn [ReadHeader_loop].
  destruct (ReadBytes input binary_separator) as [[line|err] input'] eqn:E; [|done].
  apply ReadBytes_Ok in E as (b & -> & Hb & ->).
  rewrite take_line, length_app. cbn [length].
  destruct (Nat.leb_spec (length b + 1) 1) as [Hle|Hgt].
  - intros [= <- <-]. exists [], false.
    destruct b; [|simpl in Hle; lia].
    rewrite app_nil_r, orb_false_r. done.
  - destruct (first && String.eqb (String.string_of_list_byte b) tags_col) eqn:Et.
    + apply andb_true_iff in Et as [-> Et]. apply String.eqb_eq in Et.
      intros (names & tagged & Hfirst & -> & Hf & Ht)%IH.
      destruct tagged; [by specialize (Hfirst eq_refl)|].
      exists names, true. cbn [Fields HasTags app] in *.
      rewrite <-Et, WriteStr_of_bytes, <-app_assoc, orb_true_r. done.
    + intros (names & tagged & Hfirst & -> & Hf & Ht)%IH.
      destruct tagged; [by specialize (Hfirst eq_refl)|].
      exists (String.string_of_list_byte b :: names), false.
      cbn [Fields HasTags app] in *.
      rewrite lines_cons, WriteStr_of_bytes, Hf, Ht, <-!app_assoc. done.
Qed.

(** X2. Accepted headers are canonical. Whenever [ReadHeader] returns a
    header, the bytes it has consumed from the input are exactly the bytes
    [WriteHeader] writes for that header: the input is the written header
    followed by what [ReadHeader] leaves. *)
Theorem header_canonical (input : Reader) (h : Header) (rest : Reader) :
  ReadHeader input = Some (Ok h, rest) → input = WriteHeader h ++ rest.
Proof.
  unfold ReadHeader.
  destruct (ReadBytes input binary_separator) as [[line|err] input'] eqn:E; [|done].
  apply ReadBytes_Ok in E as (b & -> & Hb & ->). rewrite take_line.
  unfold checkFirstCol.
  destruct (String.eqb_spec (String.string_of_list_byte b) time_col) as [Hb'|]; [|done].
  intros (names & tagged & _ & -> & Hf & Ht)%ReadHeader_loop_canonical.
  cbn [Fields HasTags app orb] in *.
  rewrite WriteHeader_lines, Hf, Ht, <-Hb', WriteStr_of_bytes.
  repeat (rewrite <-?app_assoc; cbn [app]). done.
Qed.

Lemma WriteHeader_tags_field fields :
  WriteHeader (mkHeader (tags_col :: fields) false) = WriteHeader (mkHeader fields true).
Proof.
  rewrite !WriteHeader_lines. cbn [Fields HasTags app].
  by rewrite lines_cons, <-!app_assoc.
Qed.

(** X3. A first field named [tags]. A header without tags whose first field
    is named [tags] is written with the same bytes as the tagged header
    without that field, so [ReadHeader] reads it back as that one: the field
    is lost and [HasTags] is set. *)
Theorem header_first_field_tags (fields : list string) (rest : Reader) :
  Forall (λ name, field_name name = true) fields →
  ReadHeader (WriteHeader (mkHeader (tags_col :: fields) false) ++ rest)
  = Some (Ok (mkHeader fields true), rest).
Proof.
  intros Hf. rewrite WriteHeader_tags_field. by apply ReadHeader_WriteHeader.
Qed.

(** Reading back one written frame, whatever follows it. *)
Lemma ReadSampleData_WriteSample h s rest :
  carried h s →
  ReadSampleData h (WriteSample s h ++ rest) = (Ok (WriteSample s h), rest).
Proof.
  intros (Hlen & Ht & Hv & Hc). unfold WriteSample. rewrite <-!app_assoc.
  destruct (HasTags h) eqn:Eh.
  - apply ReadSampleData_tags; [done| |by apply TagString_no_separator|done].
    rewrite length_values. unfold valBytes. lia.
  - cbn [app]. apply ReadSampleData_plain; [done| |done].
    rewrite length_values. unfold valBytes. lia.
Qed.

Lemma testRead_samples_write h samples rest :
  Forall (carried h) samples →
  testRead_samples h (length samples)
    (concat ((λ sample, WriteSample sample h) <$> samples) ++ rest)
  = Some (Ok (read_back h <$> samples), rest).
Proof.
  induction 1 as [|s samples Hs _ IH]; [done|].
  cbn [length fmap list_fmap concat testRead_samples Read].
  rewrite <-app_assoc, ReadSampleData_WriteSample by done.
  destruct Hs as (Hlen & Ht & Hv & Hc).
  rewrite ParseSample_WriteSample by done. by rewrite IH.
Qed.

(** X4. Binary stream round trip. The stream [write] produces for a header
    and a list of samples (the header, then every sample) is read back by the
    loop of [testRead] as the same header and the same samples in the same
    order, with the tags dropped when the header has none; the bytes after
    the stream are left. The header and the samples are those the format can
    carry (X1 and C1). *)
Theorem stream_round_trip (h : Header) (samples : list (Sample Value)) (rest : Reader) :
  Forall (λ name, field_name name = true) (Fields h) →
  (HasTags h = false → head (Fields h) ≠ Some tags_col) →
  Forall (carried h) samples →
  testRead (write h samples ++ rest) (length samples)
  = Some (Ok (h, read_back h <$> samples), rest).
Proof.
  intros Hnames Hfirst Hs. unfold testRead, write, Read.
  rewrite <-app_assoc, ReadHeader_WriteHeader by done.
  by rewrite testRead_samples_write.
Qed.

End BinaryHeaderFacts.

Module BinaryFrames.

Import GoStrings GoStringsFacts Binary BinaryFacts BinaryReader BinaryRoundTrip
  BinaryHeader BinaryHeaderFacts.

Lemma ReadFull_Ok input n data rest :
  ReadFull input n = (Ok data, rest) →
  data = take n input ∧ rest = drop n input ∧ (n ≤ length input)%nat.
Proof.
  unfold ReadFull. destruct (Nat.leb_spec n (length input)).
  - by intros [= <- <-].
  - by destruct (length input =? 0)%nat.
Qed.

Lemma ReadFull_Err input n e rest :
  ReadFull input n = (Err e, rest) →
  (length input < n)%nat ∧ e = (if (length input =? 0)%nat then EOF else ErrUnexpectedEOF).
Proof.
  unfold ReadFull. destruct (Nat.leb_spec n (length input)); [done|].
  destruct (length input =? 0)%nat; by intros [= <- _].
Qed.

Lemma IndexByte_notin b c : IndexByte b c = None → c ∉ b.
Proof.
  induction b as [|x b IH]; simpl; [intros _; apply not_elem_of_nil|].
  destruct (Byte.eqb x c) eqn:E; [done|].
  destruct (IndexByte b c); [done|]. intros _.
  apply not_elem_of_cons. split; [|by apply IH].
  intros ->. by rewrite (Byte.byte_dec_lb (eq_refl x)) in E.
Qed.

Lemma parse_values_length n data : length (parse_values n data) = n.
Proof. revert data. induction n as [|n IH]; intros data; [done|]. cbn. by rewrite IH. Qed.

(** The shape of every frame [ReadSampleData] delivers: eight bytes of
    time, with a tagged header a tag string without separator and the
    separator, and eight bytes for every field; and it is what was consumed
    from the input. *)
Lemma ReadSampleData_frame h input data rest :
  ReadSampleData h input = (Ok data, rest) →
  input = data ++ rest
  ∧ ∃ P T V, length P = timeBytes
      ∧ length V = (valBytes * length (Fields h))%nat
      ∧ (binary_separator ∉ T)
      ∧ data = P ++ (if HasTags h then T ++ [binary_separator] else []) ++ V.
Proof.
  unfold ReadSampleData.
  set (vl := (valBytes * length (Fields h))%nat).
  destruct (ReadFull input (timeBytes + vl)) as [[data0|e] input1] eqn:E0; [|done].
  apply ReadFull_Ok in E0 as (-> & -> & Hlen).
  assert (Hsplit : take (timeBytes + vl) input
                   = take timeBytes input ++ drop timeBytes (take (timeBytes + vl) input)).
  { rewrite <-(take_drop timeBytes (take (timeBytes + vl) input)) at 1.
    f_equal. rewrite take_take. f_equal; lia. }
  assert (HP : length (take timeBytes input) = timeBytes)
    by (rewrite length_take; lia).
  assert (HD : length (drop timeBytes (take (timeBytes + vl) input)) = vl)
    by (rewrite length_drop, length_take; lia).
  destruct (HasTags h); cbn [negb].
  2:{ intros [= <- <-]. split; [by rewrite take_drop|].
      exists (take timeBytes input), [], (drop timeBytes (take (timeBytes + vl) input)).
      split; [done|]. split; [done|]. split; [apply not_elem_of_nil|]. done. }
  set (D := drop timeBytes (take (timeBytes + vl) input)) in *.
  destruct (IndexByte D binary_separator) as [index|] eqn:Ei.
  - destruct (ReadFull (drop (timeBytes + vl) input) (index + 1))
      as [[rest1|e] input2] eqn:E1; [|done].
    apply ReadFull_Ok in E1 as (-> & -> & Hlen1). intros [= <- <-].
    split; [by rewrite <-app_assoc, take_drop, take_drop|].
    apply IndexByte_Some in Ei as [Hn Hl].
    pose proof (lookup_lt_Some _ _ _ Hl) as Hlt.
    exists (take timeBytes input), (take index D),
      (drop (S index) D ++ take (index + 1) (drop (timeBytes + vl) input)).
    split; [done|]. split.
    { rewrite length_app, length_take_le by lia. rewrite length_drop. lia. }
    split; [done|].
    rewrite Hsplit at 1. rewrite <-!app_assoc. f_equal.
    rewrite <-(take_drop index D) at 1. rewrite <-!app_assoc. f_equal.
    by erewrite drop_S.
  - destruct (ReadBytes (drop (timeBytes + vl) input) binary_separator)
      as [[tagRest|e] input2] eqn:E1; [|done].
    apply ReadBytes_Ok in E1 as (b & -> & Hb & Hin).
    destruct (ReadFull input2 vl) as [[vals|e] input3] eqn:E2; [|done].
    apply ReadFull_Ok in E2 as (-> & -> & Hlen2). intros [= <- <-]. split.
    { rewrite <-(take_drop (timeBytes + vl) input) at 1. rewrite Hin.
      rewrite <-!app_assoc. cbn [app]. by rewrite take_drop. }
    exists (take timeBytes input), (D ++ b), (take vl input2).
    split; [done|]. split; [rewrite length_take; lia|]. split.
    { apply IndexByte_notin in Ei. rewrite elem_of_app. tauto. }
    rewrite Hsplit at 1. by rewrite <-!app_assoc.
Qed.

(** X5. Errors of [ReadSampleData]. The frame reader fails with [io.EOF]
    only on an empty input, that is at a frame boundary; every failure on an
    input that has bytes left is [io.ErrUnexpectedEOF]. *)
Theorem read_sample_data_errors (h : Header) (input : Reader) e rest :
  ReadSampleData h input = (Err e, rest) →
  (e = EOF ∧ input = []) ∨ (e = ErrUnexpectedEOF ∧ input ≠ []).
Proof.
  unfold ReadSampleData.
  set (vl := (valBytes * length (Fields h))%nat).
  destruct (ReadFull input (timeBytes + vl)) as [[data0|e0] input1] eqn:E0.
  2:{ apply ReadFull_Err in E0 as [_ ->]. intros [= <- _].
      destruct input; [by left|by right]. }
  apply ReadFull_Ok in E0 as (-> & -> & Hlen).
  assert (Hne : input ≠ []) by (intros ->; unfold timeBytes in Hlen; simpl in Hlen; lia).
  assert (Hun : ∀ e0, unexpectedEOF e0 = ErrUnexpectedEOF
                      ∨ (e0 ≠ EOF ∧ unexpectedEOF e0 = e0))
    by (intros []; auto).
  destruct (HasTags h); cbn [negb]; [|done].
  destruct (IndexByte _ _) as [index|].
  - destruct (ReadFull _ (index + 1)) as [[rest1|e1] input2] eqn:E1; [done|].
    apply ReadFull_Err in E1 as [_ ->]. intros [= <- _]. right.
    by destruct (_ =? 0)%nat.
  - destruct (ReadBytes _ _) as [[tagRest|e1] input2] eqn:E1.
    + destruct (ReadFull input2 vl) as [[vals|e2] input3] eqn:E2; [done|].
      apply ReadFull_Err in E2 as [_ ->]. intros [= <- _]. right.
      by destruct (_ =? 0)%nat.
    + apply ReadBytes_Err in E1 as [-> _]. intros [= <- _]. by right.
Qed.

(** X6. [ReadSampleData] consumes what it returns. A frame it returns is a
    prefix of the input, what it leaves is the rest of the input, and the
    frame has at least the eight bytes of the time and eight bytes for every
    field. *)
Theorem read_sample_data_consumes (h : Header) (input data rest : Reader) :
  ReadSampleData h input = (Ok data, rest) →
  input = data ++ rest
  ∧ (timeBytes + valBytes * length (Fields h) ≤ length data)%nat.
Proof.
  intros (Hin & P & T & V & HP & HV & _ & ->)%ReadSampleData_frame.
  split; [done|]. rewrite !length_app. lia.
Qed.

(** X7. The frame reader and the parser agree on the frame. Every frame
    [ReadSampleData] returns has the length [ParseSample] requires: the parser
    returns a sample with one value for every field of the header, or, with a
    tagged header, fails on the tag string; it never rejects the frame for its
    length or for a missing separator. *)
Theorem read_frames_parse (h : Header) (input data rest : Reader) :
  ReadSampleData h input = (Ok data, rest) →
  (∃ s, ParseSample h data = Ok s ∧ length (Values s) = length (Fields h))
  ∨ (HasTags h = true ∧ ParseSample h data = Err ErrBadTag).
Proof.
  intros (_ & P & T & V & HP & HV & HT & ->)%ReadSampleData_frame.
  destruct (HasTags h) eqn:Eh.
  - rewrite ParseSample_tags by done.
    destruct (ParseTagString _) as [tags|]; [|by right].
    left. eexists. split; [done|]. apply parse_values_length.
  - cbn [app]. rewrite ParseSample_plain by done.
    left. eexists. split; [done|]. apply parse_values_length.
Qed.

End BinaryFrames.

Module BinaryHeaderExamples.

Import GoStrings Binary BinaryHeader BinaryHeaderFacts BinaryFrames BinaryData
  BinaryHeaderData.

Example cpu_mem_header_bytes :
  WriteHeader cpu_mem
  = WriteStr "time" ++ [Byte.x0a] ++ WriteStr "tags" ++ [Byte.x0a]
    ++ WriteStr "cpu" ++ [Byte.x0a] ++ WriteStr "mem" ++ [Byte.x0a; Byte.x0a].
Proof. vm_compute. reflexivity. Qed.

(** An empty field name ends the header early: the reader takes its line
    for the blank line. *)
Example empty_field_name_cuts_header :
  ReadHeader (WriteHeader (mkHeader ["cpu"; ""; "mem"]%string false))
  = Some (Ok cpu, WriteStr "mem" ++ [Byte.x0a; Byte.x0a]).
Proof. vm_compute. reflexivity. Qed.

Example wrong_first_column :
  ReadHeader (WriteStr "date" ++ [Byte.x0a] ++ WriteStr "cpu" ++ [Byte.x0a; Byte.x0a])
  = Some (Err (ErrFirstCol "date"), WriteStr "cpu" ++ [Byte.x0a; Byte.x0a]).
Proof. vm_compute. reflexivity. Qed.

(** A frame cut short is an unexpected end of the input, an empty input the
    end of the stream. *)
Example truncated_frame :
  ReadSampleData cpu_mem (take 10 (WriteSample sample_a cpu_mem))
  = (Err ErrUnexpectedEOF, [])
  ∧ ReadSampleData cpu_mem [] = (Err EOF, []).
Proof. split; vm_compute; reflexivity. Qed.

Lemma header_round_trip_witness :
  ReadHeader (WriteHeader cpu_mem ++ [Byte.x01]) = Some (Ok cpu_mem, [Byte.x01]).
Proof.
  apply (header_round_trip cpu_mem [Byte.x01]).
  - repeat constructor.
  - discriminate.
Defined.

Lemma header_canonical_witness :
  cpu_stream = WriteHeader cpu ++ WriteStr "rest".
Proof.
  apply (header_canonical cpu_stream cpu (WriteStr "rest")).
  vm_compute. reflexivity.
Defined.

Lemma header_first_field_tags_witness :
  ReadHeader (WriteHeader (mkHeader [tags_col; "cpu"%string] false) ++ [])
  = Some (Ok (mkHeader ["cpu"%string] true), []).
Proof.
  apply (header_first_field_tags ["cpu"%string] []). repeat constructor.
Defined.

Lemma stream_round_trip_witness :
  testRead (write cpu_mem [sample_a; sample_a] ++ []) (length [sample_a; sample_a])
  = Some (Ok (cpu_mem, read_back cpu_mem <$> [sample_a; sample_a]), []).
Proof.
  apply (stream_round_trip cpu_mem [sample_a; sample_a] []).
  - repeat constructor.
  - discriminate.
  - assert (carried cpu_mem sample_a).
    { split; [reflexivity|]. split; [unfold is_int64; simpl; lia|].
      split; [repeat constructor; unfold is_uint64; simpl; lia|].
      vm_compute. reflexivity. }
    do 2 (apply Forall_cons_2; [assumption|]). apply Forall_nil_2.
Defined.

Lemma read_sample_data_errors_witness :
  (ErrUnexpectedEOF = EOF ∧ [Byte.x00] = [])
  ∨ (ErrUnexpectedEOF = ErrUnexpectedEOF ∧ [Byte.x00] ≠ []).
Proof.
  apply (read_sample_data_errors cpu_mem [Byte.x00] ErrUnexpectedEOF []).
  reflexivity.
Defined.

Lemma read_sample_data_consumes_witness :
  WriteSample sample_a cpu_mem ++ [Byte.x01] = WriteSample sample_a cpu_mem ++ [Byte.x01]
  ∧ (timeBytes + valBytes * length (Fields cpu_mem)
     ≤ length (WriteSample sample_a cpu_mem))%nat.
Proof.
  apply (read_sample_data_consumes cpu_mem (WriteSample sample_a cpu_mem ++ [Byte.x01])
           (WriteSample sample_a cpu_mem) [Byte.x01]).
  vm_compute. reflexivity.
Defined.

Lemma read_frames_parse_witness :
  (∃ s, ParseSample cpu_mem (WriteSample sample_a cpu_mem) = Ok s
        ∧ length (Values s) = length (Fields cpu_mem))
  ∨ (HasTags cpu_mem = true
     ∧ ParseSample cpu_mem (WriteSample sample_a cpu_mem) = Err ErrBadTag).
Proof.
  apply (read_frames_parse cpu_mem (WriteSample sample_a cpu_mem ++ [Byte.x01])
           (WriteSample sample_a cpu_mem) [Byte.x01]).
  vm_compute. reflexivity.
Defined.

End BinaryHeaderExamples.

(** ** The PCA model *)

Module PCAModelFacts.

Import PCA PCAModel.

(** The assignments of [SetSampleValues] replace every value. *)
Lemma set_values_loop (pre old new : list float) :
  length old = length new →
  foldl (λ vs iv, <[iv.1 := iv.2]> vs) (pre ++ old)
    (zip (seq (length pre) (length new)) new)
  = pre ++ new.
Proof.
  revert pre old. induction new as [|v new IH]; intros pre [|o old] Hlen; try done.
  cbn [length] in Hlen. apply eq_add_S in Hlen.
  cbn [length seq zip zip_with foldl fst snd].
  rewrite insert_app_r_alt, Nat.sub_diag by done. cbn [insert list_insert].
  specialize (IH (pre ++ [v]) old Hlen).
  rewrite length_app in IH. cbn [length] in IH.
  replace (length pre + 1)%nat with (S (length pre)) in IH by lia.
  by rewrite <-!app_assoc in IH.
Qed.

(** X8. [SetSampleValues] on a sample that is there. Whatever values the
    sample had, longer or shorter than [values], after the call its values
    are exactly [values], in order; its time and its tags are as before. *)
Theorem set_sample_values (s : Sample float) (values : list float) :
  SetSampleValues (Some s) values = Returns (mkSample (Time s) values (Tags s)).
Proof.
  unfold SetSampleValues. f_equal. f_equal.
  apply (set_values_loop [] _ values).
  destruct (Nat.leb_spec (length values) (length (Values s))).
  - rewrite length_take. lia.
  - apply length_replicate.
Qed.

Lemma ComponentsContainingVariance_loop_spec variances variance count sum :
  let r := ComponentsContainingVariance_loop variances variance count sum in
  ∃ k, r.1 = (count + k)%nat
       ∧ (k ≤ length variances)%nat
       ∧ (variances ≠ [] → (1 ≤ k)%nat)
       ∧ r.2 = partial_sum sum (take k variances)
       ∧ ((k < length variances)%nat → PrimFloat.ltb variance r.2 = true)
       ∧ ∀ j, (0 < j < k)%nat →
              PrimFloat.ltb variance (partial_sum sum (take j variances)) = false.
Proof.
  revert count sum. induction variances as [|c rest IH]; intros count sum; cbn zeta.
  - exists 0%nat. cbn. repeat split; try done; lia.
  - cbn [ComponentsContainingVariance_loop].
    destruct (PrimFloat.ltb variance (PrimFloat.add sum c)) eqn:E.
    + exists 1%nat. cbn. repeat split; try done; lia.
    + destruct (IH (S count) (PrimFloat.add sum c)) as (k & H1 & H2 & H3 & H4 & H5 & H6).
      exists (S k). cbn [length take partial_sum foldl].
      split; [lia|]. split; [lia|]. split; [lia|]. split; [exact H4|].
      split; [intros Hlt; apply H5; lia|].
      intros [|[|j]] Hj; [lia|done|]. cbn [take foldl]. apply H6. lia.
Qed.

(** X9. [ComponentsContainingVariance]. The count it returns is at most the
    number of components, and at least one when there is a component; the sum
    it returns is the sum of the contained variances of the first [count]
    components, added in order from zero; when it has stopped before the last
    component this sum is greater than [variance]; and no shorter non-empty
    prefix of the components has a sum greater than [variance]. *)
Theorem components_containing_variance (variances : list float) (variance : float) :
  let count := (ComponentsContainingVariance variances variance).1 in
  let sum := (ComponentsContainingVariance variances variance).2 in
  (count ≤ length variances)%nat
  ∧ (variances ≠ [] → (1 ≤ count)%nat)
  ∧ sum = partial_sum 0%float (take count variances)
  ∧ ((count < length variances)%nat → PrimFloat.ltb variance sum = true)
  ∧ ∀ j, (0 < j < count)%nat →
         PrimFloat.ltb variance (partial_sum 0%float (take j variances)) = false.
Proof.
  cbn zeta. unfold ComponentsContainingVariance.
  destruct (ComponentsContainingVariance_loop_spec variances variance 0 0%float)
    as (k & H1 & H2 & H3 & H4 & H5 & H6).
  cbn [Nat.add] in H1. rewrite H1. by repeat split.
Qed.

End PCAModelFacts.

Module PCAModelExamples.

Import PCA PCAModel PCAModelFacts.

(** Three components with the contained variances 0.5, 0.25 and 0.25:
    two of them contain more than 0.625 of the variance; no prefix contains
    more than 1, and all three are returned. *)
Example two_components_contain_most :
  ComponentsContainingVariance [0.5; 0.25; 0.25]%float 0.625%float
  = (2%nat, 0.75%float).
Proof. vm_compute. reflexivity. Qed.

Example all_components_returned :
  ComponentsContainingVariance [0.5; 0.25; 0.25]%float 1%float = (3%nat, 1%float).
Proof. vm_compute. reflexivity. Qed.

(** Without components the count is zero. *)
Example no_components :
  ComponentsContainingVariance [] 0.5%float = (0%nat, 0%float).
Proof. reflexivity. Qed.

Example set_values_shrinks :
  SetSampleValues (Some (mkSample 1 [1; 2; 3]%float ∅)) [9%float]
  = Returns (mkSample 1 [9%float] ∅).
Proof. vm_compute. reflexivity. Qed.

Example set_values_grows :
  SetSampleValues (Some (mkSample 1 [1%float] ∅)) [7; 8; 9]%float
  = Returns (mkSample 1 [7; 8; 9]%float ∅).
Proof. vm_compute. reflexivity. Qed.

End PCAModelExamples.

(** ** The analysis pipeline *)

Module AnalysisFacts.

Import GoStrings GoStringsFacts Analysis.

Section Facts.

Context {V : Type}.
Implicit Types (head : PickHead (V:=V)) (sample : Sample V).

Lemma PickHead_run_cons (sink : Sample V → Header → option string) sample header
    calls head :
  (PickHead_run sink ((sample, header) :: calls) head).1
  = (PickHead_run sink calls (PickHead_Sample sink sample header head).1).1.
Proof.
  cbn [PickHead_run]. destruct (PickHead_Sample sink sample header head) as [head1 err].
  cbn [fst]. by destruct (PickHead_run sink calls head1).
Qed.

Lemma PickHead_run_accepting (sink : Sample V → Header → option string) calls head :
  (∀ sample header, sink sample header = None) →
  0 ≤ processed head →
  let head' := (PickHead_run sink calls head).1 in
  forwarded head'
  = forwarded head ++ take (Z.to_nat (Num head - processed head)) (checked calls)
  ∧ processed head'
    = processed head
      + Z.min (Z.max 0 (Num head - processed head)) (Z.of_nat (length (checked calls)))
  ∧ Num head' = Num head.
Proof.
  intros Hsink. revert head. induction calls as [|[sample header] calls IH];
    intros head Hp; cbn zeta.
  - cbn. rewrite take_nil, app_nil_r. split; [done|]. split; [lia|done].
  - rewrite PickHead_run_cons. unfold PickHead_Sample, checked.
    cbn [List.filter fst snd].
    destruct (Check sample header) as [err|] eqn:Ec.
    + rewrite bool_decide_false by done. apply (IH head Hp).
    + rewrite bool_decide_true by done.
      destruct (Z.ltb_spec (processed head) (Num head)) as [Hlt|Hge].
      * rewrite Hsink. cbn [fst Num processed forwarded].
        set (head1 := mkPickHead (Num head) (processed head + 1)
                        (forwarded head ++ [(sample, header)])).
        destruct (IH head1 ltac:(cbn; lia)) as (IH1 & IH2 & IH3).
        cbn [Num processed forwarded head1] in IH1, IH2, IH3.
        replace (Z.to_nat (Num head - processed head))
          with (S (Z.to_nat (Num head - (processed head + 1)))) by lia.
        cbn [take length]. rewrite IH1, IH2, IH3, <-app_assoc.
        split; [done|]. split; [|done].
        fold (checked calls). lia.
      * destruct (IH head Hp) as (IH1 & IH2 & IH3). cbn [fst].
        replace (Z.to_nat (Num head - processed head)) with 0%nat in * by lia.
        cbn [take length] in *. rewrite IH1, IH2, IH3.
        split; [done|]. split; [|done]. fold (checked calls). lia.
Qed.

(** X10. [PickHead] forwards the first [Num] samples. With an outgoing sink
    that accepts every sample, a fresh [PickHead] (nothing processed) that
    receives a sequence of calls has handed to its sink exactly the first
    [Num] of the calls that pass [Check], in their order, and nothing else;
    for [Num] zero or negative it forwards nothing. *)
Theorem pick_head_forwards (sink : Sample V → Header → option string) n calls :
  (∀ sample header, sink sample header = None) →
  forwarded (PickHead_run sink calls (mkPickHead n 0 [])).1
  = take (Z.to_nat n) (checked calls).
Proof.
  intros Hsink.
  destruct (PickHead_run_accepting sink calls (mkPickHead n 0 []) Hsink) as (H & _);
    [done|].
  cbn in H. by rewrite H, Z.sub_0_r.
Qed.

Lemma cut_free c rest s :
  free_of c s = true → cut (String c rest) s = None.
Proof.
  induction s as [|a s IH]; [done|].
  rewrite free_of_cons. intros [Ha Hs]%andb_true_iff. apply negb_true_iff in Ha.
  cbn [cut strip_prefix]. rewrite Ascii.eqb_sym, Ha, (IH Hs). done.
Qed.

Lemma cut_app_sep2 s t c d :
  free_of c s = true →
  cut (String c (String d "")) (s ++ String c (String d t)) = Some (s, t).
Proof.
  induction s as [|a s IH]; intros Hs.
  - simpl. by rewrite !Ascii.eqb_refl.
  - rewrite free_of_cons in Hs. apply andb_true_iff in Hs as [Ha Hs].
    apply negb_true_iff in Ha.
    change ((String a s ++ String c (String d t)))%string
      with (String a (s ++ String c (String d t))).
    cbn [cut strip_prefix]. rewrite Ascii.eqb_sym, Ha.
    by rewrite (IH Hs).
Qed.

(** X11. The parameter of [filter_tag]. For a tag name without [!], the
    parameter [tag!=val] gives the filter that includes a sample exactly when
    its value of the tag differs from [val]; and when the tag name has no [=]
    and [val] no [!], the parameter [tag=val] gives the filter that includes
    a sample exactly when its value of the tag is [val]. A tag that is not
    set has the empty value. *)
Theorem filter_tag_parses (tag val : string) (sample : Sample V) :
  free_of "!" tag = true →
  (∃ f, filter_tag (tag ++ "!=" ++ val) = Some f
        ∧ f sample = negb (String.eqb (Tag sample tag) val))
  ∧ (free_of "=" tag = true → free_of "!" val = true →
     ∃ f, filter_tag (tag ++ "=" ++ val) = Some f
          ∧ f sample = String.eqb (Tag sample tag) val).
Proof.
  intros Hbang. split.
  - unfold filter_tag.
    change (tag ++ "!=" ++ val)%string with (tag ++ String "!" (String "=" val))%string.
    rewrite (cut_app_sep2 tag val "!" "=") by done. by eexists.
  - intros Heq Hval. unfold filter_tag.
    change (tag ++ "=" ++ val)%string with (tag ++ String "=" val)%string.
    rewrite (cut_free "!" "=") by (by rewrite free_of_app, free_of_cons, Hbang, Hval).
    rewrite (cut_app_sep tag val "=") by done. by eexists.
Qed.

End Facts.

End AnalysisFacts.

Module AnalysisExamples.

Import GoStrings Analysis AnalysisFacts AnalysisData.

Lemma pick_head_forwards_witness :
  forwarded (PickHead_run accept_all four_calls (mkPickHead 2 0 [])).1
  = take (Z.to_nat 2) (checked four_calls).
Proof. apply (pick_head_forwards accept_all 2 four_calls). reflexivity. Defined.

Example pick_head_two_of_four :
  forwarded (PickHead_run accept_all four_calls (mkPickHead 2 0 [])).1
  = [ (on_host 1 "a", cpu_header); (on_host 2 "b", cpu_header) ]
  ∧ (PickHead_run accept_all four_calls (mkPickHead 2 0 [])).2
    = [None; Some (ErrCheck 2 1); None; None].
Proof. split; vm_compute; reflexivity. Qed.

Lemma filter_tag_parses_witness :
  (∃ f, filter_tag ("host" ++ "!=" ++ "a") = Some f
        ∧ f (on_host 1 "b") = negb (String.eqb (Tag (on_host 1 "b") "host") "a"))
  ∧ (free_of "=" "host" = true → free_of "!" "a" = true →
     ∃ f, filter_tag ("host" ++ "=" ++ "a") = Some f
          ∧ f (on_host 1 "b") = String.eqb (Tag (on_host 1 "b") "host") "a").
Proof. apply (filter_tag_parses "host" "a" (on_host 1 "b")). reflexivity. Defined.

(** A parameter without [=] ends the program; the first [=] splits. *)
Example filter_tag_without_equals :
  filter_tag (V:=Z) "host" = None.
Proof. reflexivity. Qed.

Example filter_tag_on_samples :
  (λ f, f (on_host 1 "a")) <$> filter_tag "host=a" = Some true
  ∧ (λ f, f (on_host 1 "b")) <$> filter_tag "host=a" = Some false
  ∧ (λ f, f (on_host 1 "b")) <$> filter_tag "host!=a" = Some true
  ∧ (λ f, f misfit) <$> filter_tag "host=" = Some true.
Proof. repeat split; vm_compute; reflexivity. Qed.

End AnalysisExamples.

(** ** Runs of the active TCP sink *)

Module TCPRunFacts.

Import TCP TCPFacts TCPRun.

Section Facts.

Context {V : Type}.
Variable DialTCP : string → result string string.
Implicit Types (sink : TCPSink (V:=V)).


(** A checked sample on a sink without a running connection. *)
Lemma Sample_dials sample header sink :
  stopped sink = false → Check sample header = None →
  Running (conn sink) = false →
  Sample_ DialTCP sample header sink
  = match DialTCP (Endpoint sink) with
    | Ok addr =>
        (mkSink (Endpoint sink) (LastHeader sink) (Some (mkConn addr true [sample]))
           false (dials sink ++ [Endpoint sink]) (closed sink ++ closing sink), None)
    | Err msg =>
        (mkSink (Endpoint sink) (LastHeader sink) None
           false (dials sink ++ [Endpoint sink]) (closed sink ++ closing sink),
         Some (ErrDial msg))
    end.
Proof.
  intros Hs Hc Hrun. unfold Sample_, assertConnection, closeConnection, closing.
  rewrite Hs, Hc, Hrun. cbn.
  destruct (conn sink) as [c|] eqn:Hconn; cbn.
  - destruct (DialTCP (Endpoint sink)); cbn; by rewrite ?Hs.
  - rewrite Hconn, app_nil_r. destruct (DialTCP (Endpoint sink)); cbn; by rewrite ?Hs.
Qed.



(** X13. A failed dial drops the sample. On a sink that is not stopped,
    has no running connection and whose endpoint cannot be dialled, every
    [Sample] call of a run returns the dial error; no sample is queued, the
    sink is left without a connection, it has dialled once for every call,
    and the errored connection it had, if any, was closed by the first
    call. *)
Theorem failed_dial_drops_samples header samples sink msg :
  stopped sink = false →
  Running (conn sink) = false →
  DialTCP (Endpoint sink) = Err msg →
  Forall (λ sample, Check sample header = None) samples →
  ∃ sink',
    run_calls DialTCP ((λ sample, CallSample sample header) <$> samples) sink
    = (sink', replicate (length samples) (Some (ErrDial msg)))
    ∧ Running (conn sink') = false
    ∧ dials sink' = dials sink ++ replicate (length samples) (Endpoint sink)
    ∧ closed sink' = closed sink ++ (if decide (samples = []) then [] else closing sink).
Proof.
  intros Hs Hrun Hdial Hok. revert sink Hs Hrun Hdial.
  induction Hok as [|sample samples Hc _ IH]; intros sink Hs Hrun Hdial.
  - exists sink. cbn. by rewrite !app_nil_r.
  - cbn [fmap list_fmap run_calls run_call length replicate].
    rewrite Sample_dials, Hdial by done.
    edestruct IH as (sink' & -> & H1 & H2 & H3); [..|
      exists sink'; split; [reflexivity|]]; cbn; try done.
    rewrite H2, H3. cbn. rewrite <-!app_assoc. split; [done|]. split; [done|].
    unfold closing at 1. cbn. by destruct (decide (samples = [])); rewrite ?app_nil_r.
Qed.


End Facts.

End TCPRunFacts.

Module TCPRunExamples.

Import TCP TCPFacts TCPRun TCPRunFacts TCPData TCPRunData.


Lemma failed_dial_drops_samples_witness :
  ∃ sink',
    run_calls unreachable ((λ sample, CallSample sample cpu) <$> [s1; s2]) errored
    = (sink', replicate (length [s1; s2]) (Some (ErrDial "refused")))
    ∧ Running (conn sink') = false
    ∧ dials sink' = dials errored ++ replicate (length [s1; s2]) (Endpoint errored)
    ∧ closed sink'
      = closed errored ++ (if decide ([s1; s2] = []) then [] else closing errored).
Proof.
  apply (failed_dial_drops_samples unreachable cpu [s1; s2] errored "refused").
  - reflexivity.
  - reflexivity.
  - reflexivity.
  - repeat constructor.
Defined.


(** After a failed dial the next sample dials again, and is queued once
    the endpoint answers. *)
Example redial_after_failure :
  let '(sink, err1) := Sample_ unreachable s1 cpu sink0 in
  let '(sink, err2) := Sample_ reachable s2 cpu sink in
  (err1, err2, queue <$> conn sink, dials sink)
  = (Some (ErrDial "refused"), None, Some [s2],
     ["collector:5555"; "collector:5555"]%string).
Proof. vm_compute. reflexivity. Qed.

End TCPRunExamples.
